(** * Sand Saga: the grid simulation engine of [game.js]

    A shallow embedding of the simulation core of [src/game.js] (world
    allocation, the material index mapping, the chunk dirty flags, the
    simulation tick, cell writes, the brush and world loading), followed by
    the properties established about it.

    Conventions of the embedding.
    - JavaScript numbers that are integers in every execution (grid
      coordinates, array indices, material indices, the LCG state) are [Z].
    - Typed arrays are lists.  Reads outside the array give [undefined],
      writes outside the array are ignored, exactly as for a typed array.
    - Floating point (the temperature array and the arithmetic on it) is
      kept abstract: the operations are the fields of the class
      [TempArith], so every general statement holds for whichever arithmetic
      interprets them.  Exact rational arithmetic is provided as an instance
      to run the model on concrete worlds.
    - [Math.random] is an external stream of samples: a function from the
      number of samples drawn so far to the sample, with the count kept in
      the state.
    - The hit test of the soft brush is decided in exact arithmetic (the
      square root is removed by squaring); the doubles of the source can
      decide a sample at the very boundary the other way, and no statement
      depends on which cells a soft brush of positive radius hits.
    - An object used as a map is the list of its entries in the order
      [for...in] and [Object.keys] enumerate them.
    - The DOM, the canvas and the file dialogs are outside the model;
      [render] keeps only its effect on the dirty flags and reports which
      chunks it repainted.

    Standing assumptions on the inputs.
    - Every material definition has a string [id] (the tick reads
      [mat.id.startsWith]); its other properties are taken by truthiness.
    - Integers stay where number arithmetic and number-to-string
      conversion are exact, and every requested array can be allocated.
    - The material table is the one built at boot; it does not change
      while a world exists.
    - A read of the material table by a name that is not one of its keys
      finds what [Object.prototype] has under that name.  A material file
      with an entry named ["__proto__"] makes that entry the prototype of
      the table; the embedding follows this for the keys (the entry adds
      none) and assumes that no name read this way is a property of that
      entry. *)

From Stdlib Require Import ZArith QArith Lia Bool DecimalString.
From stdpp Require Import base list strings.

Close Scope Q_scope.
Open Scope Z_scope.

(** ** JavaScript values that reach the engine *)

(** The result of a property read that the engine goes on to use as a
    number: a number, [undefined], or some object (a method inherited from
    [Object.prototype] when a plain object is indexed by a name such as
    ["constructor"]). *)
Inductive jsval : Type :=
  | JUndefined
  | JNumber (z : Z)
  | JObject.

(** Truthiness, as used by [a || b]. *)
Definition truthy (v : jsval) : bool :=
  match v with
  | JUndefined => false
  | JNumber z => negb (z =? 0)
  | JObject => true
  end.

Definition js_or (a b : jsval) : jsval := if truthy a then a else b.

(** [ToInt32], the conversion applied by a store into an [Int32Array]:
    [undefined] and objects become [NaN] and then 0. *)
Definition wrap32 (z : Z) : Z := (z + 2 ^ 31) mod 2 ^ 32 - 2 ^ 31.

Definition toInt32 (v : jsval) : Z :=
  match v with
  | JNumber z => wrap32 z
  | JUndefined | JObject => 0
  end.

(** [v < 0] for a value used as a number ([NaN < 0] is false). *)
Definition js_negative (v : jsval) : bool :=
  match v with
  | JNumber z => z <? 0
  | JUndefined | JObject => false
  end.

(** Typed array element read and write at an integer index. *)
Definition ta_get {A : Type} (a : list A) (i : Z) : option A :=
  if i <? 0 then None else a !! Z.to_nat i.

Definition ta_set {A : Type} (a : list A) (i : Z) (v : A) : list A :=
  if i <? 0 then a else <[Z.to_nat i := v]> a.

(** The names every plain object inherits from [Object.prototype]. *)
Definition inheritedNames : list string :=
  ["constructor"; "toString"; "toLocaleString"; "valueOf"; "hasOwnProperty";
   "isPrototypeOf"; "propertyIsEnumerable"; "__proto__";
   "__defineGetter__"; "__defineSetter__"; "__lookupGetter__";
   "__lookupSetter__"]%string.

Definition inherited (name : string) : bool :=
  existsb (String.eqb name) inheritedNames.

(** ** Temperature arithmetic *)

(** The number operations the engine applies to temperatures.  [t_fround]
    is the rounding of a store into a [Float32Array]; [t_nan] is what an
    [undefined] read turns into under arithmetic; [t_truthy] is the test
    behind [temp || 20]; [t_json] is the number read back from the text
    [JSON.stringify] writes for it: a finite number comes back as it was
    (negative zero as zero), while [NaN] and the infinities are written as
    [null], which a store into a typed array turns into 0. *)
Class TempArith (T : Type) := {
  t_lit : Z -> T;
  t_tenth : T;
  t_nan : T;
  t_add : T -> T -> T;
  t_sub : T -> T -> T;
  t_mul : T -> T -> T;
  t_div : T -> T -> T;
  t_lt : T -> T -> bool;
  t_truthy : T -> bool;
  t_fround : T -> T;
  t_json : T -> T
}.

(** ** Utilities *)

(** [rand(seed)]: the state [s] of the generator closure right after
    creation, and one call of the closure.  The product stays below 2^53,
    so the double arithmetic of the source is exact; the sample returned is
    [s / 2^32]. *)
Definition rand (seed : Z) : Z := seed mod 2 ^ 32.

Definition rand_next (s : Z) : Z := (s * 1664525 + 1013904223) mod 2 ^ 32.

(** [rng() < 0.5] for the sample [s / 2^32]. *)
Definition below_half (s : Z) : bool := s <? 2 ^ 31.

Definition chunkSize : Z := 16.

(** [Math.ceil(n / d)] and [Math.floor(n / d)] for integers, [d > 0]. *)
Definition ceil_div (n d : Z) : Z := - ((- n) / d).
Definition floor_div (n d : Z) : Z := n / d.

Definition Qltb (a b : Q) : bool := negb (Qle_bool b a).

(** A JavaScript number as far as comparisons see it: [NaN], an infinity
    or a finite value (a double is a rational; [-0] and [0] compare
    alike). *)
Inductive jsnum : Type :=
  | NumNaN
  | NumNegInf
  | NumOf (q : Q)
  | NumPosInf.

(** [a < b] on numbers: false as soon as one side is [NaN]. *)
Definition num_lt (a b : jsnum) : bool :=
  match a, b with
  | NumNaN, _ | _, NumNaN => false
  | _, NumNegInf => false
  | NumNegInf, _ => true
  | NumPosInf, _ => false
  | NumOf _, NumPosInf => true
  | NumOf p, NumOf q => Qltb p q
  end.

(** [clamp(v,a,b)]: [v<a ? a : v>b ? b : v].  Both tests fail for [NaN],
    so [clamp(NaN,a,b)] is [NaN]. *)
Definition clamp (v a b : jsnum) : jsnum :=
  if num_lt v a then a else if num_lt b v then b else v.

Section Engine.

Context {T : Type} `{TempArith T}.

(** ** Materials *)

(** The properties of a material that the engine reads.  Names and colours
    only reach the canvas. *)
Record Material : Type := mkMaterial {
  mat_id : string;
  solid : bool;
  flow : bool;
  isGas : bool;
  flammable : bool;
  isTool : bool;
  temp : option T
}.

(** A material with no optional property set. *)
Definition plainMaterial (id0 : string) : Material :=
  mkMaterial id0 false false false false false None.

Definition with_id (id0 : string) (m : Material) : Material :=
  mkMaterial id0 (solid m) (flow m) (isGas m) (flammable m) (isTool m) (temp m).

Fixpoint keyIndex (id0 : string) (tbl : list (string * Material)) : option nat :=
  match tbl with
  | [] => None
  | (k, _) :: rest =>
      if String.eqb k id0 then Some 0%nat
      else option_map S (keyIndex id0 rest)
  end.

Fixpoint keyLookup (id0 : string) (tbl : list (string * Material)) : option Material :=
  match tbl with
  | [] => None
  | (k, m) :: rest => if String.eqb k id0 then Some m else keyLookup id0 rest
  end.

(** [obj[k] = m] on an object kept in key order: an existing key keeps its
    place, a new key goes last. *)
Fixpoint keyStore (k : string) (m : Material) (tbl : list (string * Material))
  : list (string * Material) :=
  match tbl with
  | [] => [(k, m)]
  | (k', m') :: rest =>
      if String.eqb k' k then (k', m) :: rest else (k', m') :: keyStore k m rest
  end.

(** One entry of [variants] in the material file: the base key and the
    optional [count]. *)
Record VariantGroup : Type := mkVariantGroup {
  vg_base : string;
  vg_count : option nat
}.

Definition variantId (base : string) (i : nat) : string :=
  (base ++ "_V" ++ NilZero.string_of_uint (Nat.to_uint i))%string.

(** [obj[k] = m] in the copy loop of [prepareMaterials], where [obj] is a
    plain object and [m] an object: the name ["__proto__"] is the prototype
    accessor, so the assignment replaces the prototype and adds no key. *)
Definition assignKey (tbl : list (string * Material)) (e : string * Material)
  : list (string * Material) :=
  if String.eqb (fst e) "__proto__" then tbl else keyStore (fst e) (snd e) tbl.

(** [for(const k in base){ App.materials[k] = Object.assign({}, base[k]); }]
    on the entries of [data.baseMaterials] in enumeration order, which is
    also the order the copies take in [App.materials]. *)
Definition copyBase (base : list (string * Material)) : list (string * Material) :=
  foldl assignKey [] base.

(** [App.materials[group.base]]: the definition stored under a key, or,
    for a name inherited from [Object.prototype], an object without any
    property that [Object.assign] would copy.  [None] stands for
    [undefined]. *)
Definition variantBase (name : string) (tbl : list (string * Material))
  : option Material :=
  match keyLookup name tbl with
  | Some baseMat => Some baseMat
  | None => if inherited name then Some (plainMaterial name) else None
  end.

(** The variants of one group: none when the base is [undefined], else
    [count || 6] copies of the base under the ids [BASE_Vi] (never
    ["__proto__"], so each store adds or overwrites a key). *)
Definition addVariants (tbl : list (string * Material)) (g : VariantGroup)
  : list (string * Material) :=
  match variantBase (vg_base g) tbl with
  | None => tbl
  | Some baseMat =>
      let count := match vg_count g with
                   | Some (S n) => S n
                   | _ => 6%nat
                   end in
      foldl (fun acc i =>
               let id0 := variantId (vg_base g) i in
               keyStore id0 (with_id id0 baseMat) acc)
            tbl (seq 0 count)
  end.

Definition ensureKey (k : string) (m : Material) (tbl : list (string * Material))
  : list (string * Material) :=
  match keyLookup k tbl with
  | Some _ => tbl
  | None => keyStore k m tbl
  end.

(** [prepareMaterials]: the copies of the base materials, the generated
    variants, then the mandatory ERASER and WALL.  The result is
    [App.materials], in [Object.keys] order. *)
Definition prepareMaterials (base : list (string * Material))
    (variants : list VariantGroup) : list (string * Material) :=
  let tbl := foldl addVariants (copyBase base) variants in
  let tbl := ensureKey "ERASER"
               (mkMaterial "ERASER" false false false false true None) tbl in
  ensureKey "WALL" (mkMaterial "WALL" true false false false false None) tbl.

(** [App.materials], in [Object.keys] order: the key and the definition
    stored under it.  The table is built once, by [prepareMaterials] at
    boot, before any world exists. *)
Variable materials : list (string * Material).

(** The samples [Math.random] returns, in call order. *)
Variable random : nat -> Q.

(** [getMatIndex].  The memo table [matIndexMap] is rebuilt from
    [Object.keys(App.materials)] on every miss and the material table never
    changes after boot, so a registered key is answered with its position.
    The memo table is a plain object: a name that is not a key but is
    inherited from [Object.prototype] is answered with the inherited
    object. *)
Definition getMatIndex (id0 : string) : jsval :=
  match keyIndex id0 materials with
  | Some i => JNumber (Z.of_nat i)
  | None => if inherited id0 then JObject else JUndefined
  end.

(** [App.materials[keys[idx]]], for [idx] a value read from the material
    array.  [keys[idx]] is [undefined] unless [idx] is a position of the
    table, and [App.materials[undefined]] reads the key ["undefined"]. *)
Definition getMatByIndex (v : jsval) : option Material :=
  match v with
  | JNumber z =>
      if z <? 0 then keyLookup "undefined" materials
      else match materials !! Z.to_nat z with
           | Some (_, m) => Some m
           | None => keyLookup "undefined" materials
           end
  | JUndefined | JObject => keyLookup "undefined" materials
  end.

(** ** World memory model *)

Record App : Type := mkApp {
  gridW : Z;
  gridH : Z;
  worldMat : list Z;          (* Int32Array *)
  worldTemp : list T;         (* Float32Array *)
  worldMeta : list Z;         (* Uint8Array *)
  chunksX : Z;
  chunksY : Z;
  dirtyChunks : list bool;    (* Uint8Array holding 0 or 1 *)
  rng : Z;                    (* the state of the closure App.rng *)
  drawn : nat;                (* calls of Math.random so far *)
  toggleTemp : bool
}.

Definition set_worldMat (a : list Z) (st : App) : App :=
  mkApp (gridW st) (gridH st) a (worldTemp st) (worldMeta st)
        (chunksX st) (chunksY st) (dirtyChunks st) (rng st) (drawn st)
        (toggleTemp st).

Definition set_worldTemp (a : list T) (st : App) : App :=
  mkApp (gridW st) (gridH st) (worldMat st) a (worldMeta st)
        (chunksX st) (chunksY st) (dirtyChunks st) (rng st) (drawn st)
        (toggleTemp st).

Definition set_dirtyChunks (a : list bool) (st : App) : App :=
  mkApp (gridW st) (gridH st) (worldMat st) (worldTemp st) (worldMeta st)
        (chunksX st) (chunksY st) a (rng st) (drawn st) (toggleTemp st).

Definition set_rng (s : Z) (st : App) : App :=
  mkApp (gridW st) (gridH st) (worldMat st) (worldTemp st) (worldMeta st)
        (chunksX st) (chunksY st) (dirtyChunks st) s (drawn st)
        (toggleTemp st).

Definition set_drawn (n : nat) (st : App) : App :=
  mkApp (gridW st) (gridH st) (worldMat st) (worldTemp st) (worldMeta st)
        (chunksX st) (chunksY st) (dirtyChunks st) (rng st) n
        (toggleTemp st).

Definition set_grid (w h : Z) (st : App) : App :=
  mkApp w h (worldMat st) (worldTemp st) (worldMeta st)
        (chunksX st) (chunksY st) (dirtyChunks st) (rng st) (drawn st)
        (toggleTemp st).

(** [idx(x,y)] *)
Definition idx (st : App) (x y : Z) : Z := y * gridW st + x.

(** [matArr[i]] and [tempArr[i]] as the values the source computes with. *)
Definition matAt (st : App) (i : Z) : jsval :=
  match ta_get (worldMat st) i with
  | Some z => JNumber z
  | None => JUndefined
  end.

Definition tempAt (st : App) (i : Z) : T :=
  match ta_get (worldTemp st) i with
  | Some t => t
  | None => t_nan
  end.

Definition writeMat (i : Z) (v : jsval) (st : App) : App :=
  set_worldMat (ta_set (worldMat st) i (toInt32 v)) st.

Definition writeTemp (i : Z) (t : T) (st : App) : App :=
  set_worldTemp (ta_set (worldTemp st) i (t_fround t)) st.

(** One call of [App.rng]: the new closure state is also the sample. *)
Definition callRng (st : App) : Z * App :=
  let s := rand_next (rng st) in (s, set_rng s st).

(** One call of [Math.random]. *)
Definition mathRandom (st : App) : Q * App :=
  (random (drawn st), set_drawn (S (drawn st)) st).

(** How a call that may throw ends: normally, or with the [RangeError] of a
    typed array constructor or of [TypedArray.prototype.set], in the state
    reached when it was thrown. *)
Inductive completion : Type :=
  | Normal (st : App)
  | RangeError (st : App).

Definition markAllDirty (st : App) : App :=
  set_dirtyChunks (replicate (length (dirtyChunks st)) true) st.

Definition allocateWorld (w h : Z) (st : App) : completion :=
  let st1 := set_grid w h st in
  if w * h <? 0 then RangeError st1
  else
    let n := Z.to_nat (w * h) in
    let cx := Z.max 1 (ceil_div w chunkSize) in
    let cy := Z.max 1 (ceil_div h chunkSize) in
    let fillv := toInt32 (js_or (getMatIndex "EMPTY") (JNumber (-1))) in
    Normal
      (markAllDirty
         (mkApp w h (replicate n fillv) (replicate n (t_fround (t_lit 20)))
                (replicate n 0) cx cy (replicate (Z.to_nat (cx * cy)) false)
                (rng st) (drawn st) (toggleTemp st))).

Definition markChunkDirtyForCell (x y : Z) (st : App) : App :=
  let cx := floor_div x chunkSize in
  let cy := floor_div y chunkSize in
  if (cx <? 0) || (chunksX st <=? cx) || (cy <? 0) || (chunksY st <=? cy)
  then st
  else set_dirtyChunks (ta_set (dirtyChunks st) (cy * chunksX st + cx) true) st.

(** [setMatAt] *)
Definition setMatAt (x y : Z) (id0 : string) (st : App) : App :=
  if (x <? 0) || (gridW st <=? x) || (y <? 0) || (gridH st <=? y) then st
  else
    let i := idx st x y in
    markChunkDirtyForCell x y
      (writeMat i (js_or (getMatIndex id0) (getMatIndex "EMPTY")) st).

(** ** Rendering *)

(** The chunk loop of [render]: a chunk whose flag is set has the flag
    cleared and is repainted.  The repainted chunks are reported in paint
    order; the pixels themselves are not modelled. *)
Definition renderChunk (acc : list (Z * Z) * App) (c : Z * Z) : list (Z * Z) * App :=
  let '(painted, st) := acc in
  let '(cx, cy) := c in
  let cIdx := cy * chunksX st + cx in
  match ta_get (dirtyChunks st) cIdx with
  | Some true =>
      (painted ++ [c], set_dirtyChunks (ta_set (dirtyChunks st) cIdx false) st)
  | _ => acc
  end.

Definition chunkCoords (st : App) : list (Z * Z) :=
  cy ← seqZ 0 (chunksY st); cx ← seqZ 0 (chunksX st); [(cx, cy)].

Definition render (st : App) : list (Z * Z) * App :=
  foldl renderChunk ([], st) (chunkCoords st).

(** ** The simulation step *)

(** What the body of the movement loop does after one of its stages:
    [continue] with the next cell, or go on to the next statement. *)
Inductive flowctl : Type :=
  | Continue (st : App)
  | Next (st : App).

(** [m && !m.solid] *)
Definition passable (m : option Material) : bool :=
  match m with
  | Some bm => negb (solid bm)
  | None => false
  end.

(** The four statements of every move: the destination receives the moving
    index, the source receives the index of EMPTY, both chunks are marked. *)
Definition moveCell (x y x' y' : Z) (mIdx : jsval) (st : App) : App :=
  let st1 := writeMat (idx st x' y') mIdx st in
  let st2 := writeMat (idx st1 x y) (getMatIndex "EMPTY") st1 in
  markChunkDirtyForCell x' y' (markChunkDirtyForCell x y st2).

(** Sand: fall if the cell below is not solid, else try one diagonal. *)
Definition sandStage (x y : Z) (mIdx : jsval) (mat : Material) (st : App) : flowctl :=
  if String.prefix "SAND" (mat_id mat) || String.eqb (mat_id mat) "SAND" then
    if y + 1 <? gridH st then
      if passable (getMatByIndex (matAt st (idx st x (y + 1)))) then
        Continue (moveCell x y x (y + 1) mIdx st)
      else
        let '(s, st1) := callRng st in
        let dir := if below_half s then -1 else 1 in
        if (0 <=? x + dir) && (x + dir <? gridW st1) && (y + 1 <? gridH st1) then
          if passable (getMatByIndex (matAt st1 (idx st1 (x + dir) (y + 1)))) then
            Continue (moveCell x y (x + dir) (y + 1) mIdx st1)
          else Next st1
        else Next st1
    else Next st
  else Next st.

Definition flowSideways (x y : Z) (mIdx : jsval) (st : App) : flowctl :=
  let '(s, st1) := callRng st in
  let dx := if below_half s then -1 else 1 in
  if (0 <=? x + dx) && (x + dx <? gridW st1) then
    if passable (getMatByIndex (matAt st1 (idx st1 (x + dx) y))) then
      Continue (moveCell x y (x + dx) y mIdx st1)
    else Next st1
  else Next st1.

(** Liquids: down first, then one random side. *)
Definition flowStage (x y : Z) (mIdx : jsval) (mat : Material) (st : App) : flowctl :=
  if flow mat || String.eqb (mat_id mat) "WATER" || String.eqb (mat_id mat) "OIL" then
    if y + 1 <? gridH st then
      if passable (getMatByIndex (matAt st (idx st x (y + 1)))) then
        Continue (moveCell x y x (y + 1) mIdx st)
      else flowSideways x y mIdx st
    else flowSideways x y mIdx st
  else Next st.

(** Gases rise. *)
Definition gasStage (x y : Z) (mIdx : jsval) (mat : Material) (st : App) : flowctl :=
  if isGas mat then
    if 0 <=? y - 1 then
      if passable (getMatByIndex (matAt st (idx st x (y - 1)))) then
        Continue (moveCell x y x (y - 1) mIdx st)
      else Next st
    else Next st
  else Next st.

(** The movement part of the loop body, stage after stage. *)
Definition moveStages (x y : Z) (mIdx : jsval) (mat : Material) (st : App) : flowctl :=
  match sandStage x y mIdx mat st with
  | Continue st' => Continue st'
  | Next st1 =>
      match flowStage x y mIdx mat st1 with
      | Continue st' => Continue st'
      | Next st2 => gasStage x y mIdx mat st2
      end
  end.

(** The running sum and count of the diffusion stage after one optional
    neighbour. *)
Definition addNeighbour (present : bool) (i : Z) (st : App) (acc : T * Z) : T * Z :=
  if present then (t_add (fst acc) (tempAt st i), snd acc + 1) else acc.

(** The value assigned to [tempArr[i]] by the diffusion stage. *)
Definition diffuse (x y : Z) (st : App) : T :=
  let t := tempAt st (idx st x y) in
  let acc0 := (t, 1) in
  let acc1 := addNeighbour (0 <? x) (idx st (x - 1) y) st acc0 in
  let acc2 := addNeighbour (x + 1 <? gridW st) (idx st (x + 1) y) st acc1 in
  let acc3 := addNeighbour (0 <? y) (idx st x (y - 1)) st acc2 in
  let acc4 := addNeighbour (y + 1 <? gridH st) (idx st x (y + 1)) st acc3 in
  let avg := t_div (fst acc4) (t_lit (snd acc4)) in
  t_add t (t_mul (t_sub avg t) t_tenth).

Definition t_gt (a b : T) : bool := t_lt b a.

(** The three temperature-triggered transitions, in source order. *)
Definition thermalReactions (x y : Z) (mIdx : jsval) (mat : Material) (st : App) : App :=
  let i := idx st x y in
  let st1 :=
    if String.eqb (mat_id mat) "WATER" && t_gt (tempAt st i) (t_lit 100) then
      let a := writeMat i (js_or (getMatIndex "STEAM") mIdx) st in
      let b := writeTemp i (t_add (tempAt a i) (t_lit 10)) a in
      markChunkDirtyForCell x y b
    else st in
  let st2 :=
    if String.eqb (mat_id mat) "LAVA" then
      if t_lt (tempAt st1 i) (t_lit 500)
         && bool_decide (is_Some (keyLookup "STONE" materials)) then
        let a := writeMat i (getMatIndex "STONE") st1 in
        let b := writeTemp i (t_lit 100) a in
        markChunkDirtyForCell x y b
      else st1
    else st1 in
  if flammable mat && t_gt (tempAt st2 i) (t_lit 300) then
    let a := writeMat i (getMatIndex "FIRE") st2 in
    let b := writeTemp i (t_lit 800) a in
    markChunkDirtyForCell x y b
  else st2.

Definition tempStage (x y : Z) (mIdx : jsval) (mat : Material) (st : App) : App :=
  if toggleTemp st then
    thermalReactions x y mIdx mat (writeTemp (idx st x y) (diffuse x y st) st)
  else st.

(** The body of the first loop nest for the cell [(x,y)]. *)
Definition pass1Cell (y : Z) (st : App) (x : Z) : App :=
  let mIdx := matAt st (idx st x y) in
  if js_negative mIdx then st
  else
    match getMatByIndex mIdx with
    | None => st
    | Some mat =>
        if String.eqb (mat_id mat) "WALL" || String.eqb (mat_id mat) "ERASER" then st
        else
          match moveStages x y mIdx mat st with
          | Continue st' => st'
          | Next st' => tempStage x y mIdx mat st'
          end
    end.

Definition pass1Row (W : Z) (st : App) (y : Z) : App :=
  foldl (pass1Cell y) st (seqZ 0 W).

(** Rows from the bottom up, cells left to right. *)
Definition pass1 (st : App) : App :=
  foldl (pass1Row (gridW st)) st (reverse (seqZ 0 (gridH st))).

(** [neighborCoords] *)
Definition neighborCoords (st : App) (x y : Z) : list (Z * Z) :=
  (if 0 <? x then [(x - 1, y)] else [])
  ++ (if x + 1 <? gridW st then [(x + 1, y)] else [])
  ++ (if 0 <? y then [(x, y - 1)] else [])
  ++ (if y + 1 <? gridH st then [(x, y + 1)] else []).

Definition hasId (m : option Material) (id0 : string) : bool :=
  match m with
  | Some nMat => String.eqb (mat_id nMat) id0
  | None => false
  end.

(** ACID: each METAL neighbour is corroded with probability 0.02. *)
Definition acidStep (st : App) (n : Z * Z) : App :=
  let '(nx, ny) := n in
  let ni := idx st nx ny in
  if hasId (getMatByIndex (matAt st ni)) "METAL" then
    let '(u, st1) := mathRandom st in
    if Qltb u (2 # 100) then
      markChunkDirtyForCell nx ny (writeMat ni (getMatIndex "STONE") st1)
    else st1
  else st.

(** OIL: each FIRE neighbour ignites the cell with probability 0.2. *)
Definition oilStep (x y : Z) (st : App) (n : Z * Z) : App :=
  let '(nx, ny) := n in
  let ni := idx st nx ny in
  if hasId (getMatByIndex (matAt st ni)) "FIRE" then
    let '(u, st1) := mathRandom st in
    if Qltb u (2 # 10) then
      markChunkDirtyForCell x y (writeMat (idx st1 x y) (getMatIndex "FIRE") st1)
    else st1
  else st.

(** SEED: each WATER neighbour triggers, with probability 0.05, a store of
    SEED and then, with probability 0.02, of WOOD. *)
Definition seedStep (x y : Z) (st : App) (n : Z * Z) : App :=
  let '(nx, ny) := n in
  let ni := idx st nx ny in
  if hasId (getMatByIndex (matAt st ni)) "WATER" then
    let '(u, st1) := mathRandom st in
    if Qltb u (5 # 100) then
      let st2 := writeMat (idx st1 x y) (getMatIndex "SEED") st1 in
      let '(v, st3) := mathRandom st2 in
      if Qltb v (2 # 100) then
        markChunkDirtyForCell x y (writeMat (idx st3 x y) (getMatIndex "WOOD") st3)
      else st3
    else st1
  else st.

(** The body of the second loop nest for the cell [(x,y)]. *)
Definition pass2Cell (y : Z) (st : App) (x : Z) : App :=
  match getMatByIndex (matAt st (idx st x y)) with
  | None => st
  | Some mat =>
      let st1 :=
        if String.eqb (mat_id mat) "ACID"
        then foldl acidStep st (neighborCoords st x y) else st in
      let st2 :=
        if String.eqb (mat_id mat) "OIL"
        then foldl (oilStep x y) st1 (neighborCoords st1 x y) else st1 in
      if String.eqb (mat_id mat) "SEED"
      then foldl (seedStep x y) st2 (neighborCoords st2 x y) else st2
  end.

Definition pass2Row (W : Z) (st : App) (y : Z) : App :=
  foldl (pass2Cell y) st (seqZ 0 W).

Definition pass2 (st : App) : App :=
  foldl (pass2Row (gridW st)) st (seqZ 0 (gridH st)).

Definition simTick (st : App) : App := pass2 (pass1 st).

(** [n] calls of [simTick]. *)
Fixpoint simTicks (n : nat) (st : App) : App :=
  match n with
  | O => st
  | S k => simTicks k (simTick st)
  end.

(** ** Painting *)

(** The fields of [brush] that [drawBrushAt] reads. *)
Record Brush : Type := mkBrush {
  size : Z;
  soft : bool
}.

(** [Math.random() < prob] for the sample [u].  A hard brush has [prob = 1].
    A soft brush has [prob = clamp(1 - dist / radius, 0.05, 1)] with
    [dist = sqrt(dx*dx + dy*dy) <= radius]; the square root is removed by
    squaring: [u < 1 - dist / radius] exactly when [u < 1] and
    [dx*dx + dy*dy < radius^2 * (1 - u)^2].  With [radius = 0] the quotient
    is [NaN] and the comparison is false. *)
Definition brushHit (b : Brush) (dx dy : Z) (u : Q) : bool :=
  if soft b then
    if size b =? 0 then false
    else
      Qltb u (5 # 100)
      || (Qltb u 1
          && Qltb (inject_Z (dx * dx + dy * dy))
                  (inject_Z (size b * size b) * ((1 - u) * (1 - u)))%Q)
  else Qltb u 1.

(** [App.materials[id] ? (App.materials[id].temp || 20) : 20].  An inherited
    name gives an object without [temp], hence 20 as for a missing key. *)
Definition brushTemp (id0 : string) : T :=
  match keyLookup id0 materials with
  | Some m =>
      match temp m with
      | Some t => if t_truthy t then t else t_lit 20
      | None => t_lit 20
      end
  | None => t_lit 20
  end.

(** The body of the brush loops for the offset [(dx,dy)].  [dist > radius]
    is decided on the squares. *)
Definition brushCell (b : Brush) (cur : string) (gx gy : Z) (st : App) (d : Z * Z) : App :=
  let '(dx, dy) := d in
  let x := gx + dx in
  let y := gy + dy in
  if (x <? 0) || (y <? 0) || (gridW st <=? x) || (gridH st <=? y) then st
  else if size b * size b <? dx * dx + dy * dy then st
  else
    let '(u, st1) := mathRandom st in
    if brushHit b dx dy u then
      let midx := js_or (getMatIndex cur) (getMatIndex "EMPTY") in
      let st2 := writeMat (idx st1 x y) midx st1 in
      let st3 := writeTemp (idx st2 x y) (brushTemp cur) st2 in
      markChunkDirtyForCell x y st3
    else st1.

(** The offsets visited by the two loops, rows of [dy] outermost. *)
Definition brushOffsets (radius : Z) : list (Z * Z) :=
  dy ← seqZ (- radius) (2 * radius + 1);
  dx ← seqZ (- radius) (2 * radius + 1);
  [(dx, dy)].

(** [drawBrushAt], with the globals [brush] and [currentMaterial] passed
    in. *)
Definition drawBrushAt (b : Brush) (cur : string) (gx gy : Z) (st : App) : App :=
  foldl (brushCell b cur gx gy) st (brushOffsets (size b)).

(** ** Resolution and world loading *)

(** [setResolution] on a string that parses to the integers [w] and [h]. *)
Definition setResolution (w h : Z) (st : App) : completion :=
  if (w =? 0) || (h =? 0) then Normal st
  else
    match allocateWorld w h (set_grid w h st) with
    | RangeError st1 => RangeError st1
    | Normal st1 => Normal (snd (render (markAllDirty st1)))
    end.

(** A parsed save file: [w], [h], [mat] and [temp].  The arrays may be
    missing. *)
Record Snapshot : Type := mkSnapshot {
  snap_w : Z;
  snap_h : Z;
  snap_mat : option (list Z);
  snap_temp : option (list T)
}.

(** How the load handler ends: the world was loaded, the file was refused
    with the alert "Invalid save file", or an exception escaped. *)
Inductive loadResult : Type :=
  | Loaded
  | InvalidSave
  | Uncaught.

(** [target.set(source)]: throws when the source is longer than the
    target, else overwrites the first elements. *)
Definition ta_setAll {A : Type} (target source : list A) : option (list A) :=
  if (length target <? length source)%nat then None
  else Some (source ++ drop (length source) target).

(** The [onload] handler of [loadWorldPrompt] applied to the parsed file. *)
Definition loadWorldPrompt (p : Snapshot) (st : App) : loadResult * App :=
  match snap_mat p with
  | None => (InvalidSave, st)
  | Some m =>
      if (snap_w p =? 0) || (snap_h p =? 0) then (InvalidSave, st)
      else
        match setResolution (snap_w p) (snap_h p) st with
        | RangeError st1 => (Uncaught, st1)
        | Normal st1 =>
            match allocateWorld (snap_w p) (snap_h p) st1 with
            | RangeError st2 => (Uncaught, st2)
            | Normal st2 =>
                match ta_setAll (worldMat st2) (map wrap32 m) with
                | None => (Uncaught, st2)
                | Some a =>
                    let st3 := set_worldMat a st2 in
                    let source :=
                      match snap_temp p with
                      | Some ts => map t_fround ts
                      | None =>
                          replicate (Z.to_nat (snap_w p * snap_h p))
                                    (t_fround (t_lit 0))
                      end in
                    match ta_setAll (worldTemp st3) source with
                    | None => (Uncaught, st3)
                    | Some c =>
                        (Loaded,
                         snd (render (markAllDirty (set_worldTemp c st3))))
                    end
                end
            end
        end
  end.

(** ** Saving a world *)

(** The save file [saveWorldPrompt] writes, as [JSON.parse] reads it back:
    the grid dimensions and copies of the material and temperature arrays.
    The flags array is not saved ([meta] is an empty object).  The JSON
    text in between keeps the integers as they are; a temperature comes
    back as [t_json] of it, so [NaN] and the infinities are lost. *)
Definition saveWorldPrompt (st : App) : Snapshot :=
  mkSnapshot (gridW st) (gridH st) (Some (worldMat st))
             (Some (map t_json (worldTemp st))).

(** ** Level start maps *)

(** The cells a start map writes, in the order of its loops, each with the
    material id it asks for.  [soil] is the outcome of
    ['SOIL' in App.materials]. *)
Definition bowlCells : list (Z * Z * string) :=
  x ← seqZ 40 320;
  y ← seqZ 240 20;
  if 250 <=? y then [(x, y, "WALL"%string)] else [].

Definition firepitCells : list (Z * Z * string) :=
  (200, 200, "FIRE"%string) :: map (fun i => (i, 220, "WALL"%string)) (seqZ 195 10).

Definition lavachannelCells : list (Z * Z * string) :=
  map (fun x => (x, 260, "WALL"%string)) (seqZ 50 300)
  ++ [(100, 240, "LAVA"%string); (101, 240, "LAVA"%string);
      (102, 240, "LAVA"%string)].

Definition seedplotCells (soil : bool) : list (Z * Z * string) :=
  x ← seqZ 180 40;
  [(x, 220, if soil then "SOIL"%string else "SAND"%string);
   (x, 219, "SEED"%string)].

Definition writeCell (st : App) (c : Z * Z * string) : App :=
  setMatAt (fst (fst c)) (snd (fst c)) (snd c) st.

(** [applyStartMap]; [name] is [None] for a missing name. *)
Definition applyStartMap (name : option string) (st : App) : App :=
  match name with
  | None => st
  | Some n =>
      if String.eqb n "" || String.eqb n "empty" then st
      else
        let st1 := if String.eqb n "bowl"
                   then foldl writeCell st bowlCells else st in
        let st2 := if String.eqb n "firepit"
                   then foldl writeCell st1 firepitCells else st1 in
        let st3 := if String.eqb n "lavachannel"
                   then foldl writeCell st2 lavachannelCells else st2 in
        if String.eqb n "seedplot"
        then foldl writeCell st3
               (seedplotCells (bool_decide (is_Some (keyLookup "SOIL" materials))))
        else st3
  end.

(** One entry of [App.campaign.levels]: its id and the name of its start
    map. *)
Record Level : Type := mkLevel {
  level_id : string;
  startMap : option string
}.

(** [loadLevel]: an unknown id only logs a warning; a known level resets
    the world to 400x300 and applies its start map. *)
Definition loadLevel (levels : list Level) (levelId : string) (st : App) : completion :=
  match List.find (fun l => String.eqb (level_id l) levelId) levels with
  | None => Normal st
  | Some lv =>
      match setResolution 400 300 st with
      | RangeError st1 => RangeError st1
      | Normal st1 =>
          match allocateWorld (gridW st1) (gridH st1) st1 with
          | RangeError st2 => RangeError st2
          | Normal st2 => Normal (applyStartMap (startMap lv) st2)
          end
      end
  end.


End Engine.

(** ** Vocabulary of the statements *)

Section Vocabulary.

Context {T : Type} `{TempArith T}.
Variable materials : list (string * Material (T := T)).

Implicit Types st : App (T := T).

(** [sameShape st st'] : the two states have the same grid dimensions, the
    same chunk grid and arrays of the same lengths. *)
Definition sameShape st st' : Prop :=
  gridW st' = gridW st /\ gridH st' = gridH st
  /\ chunksX st' = chunksX st /\ chunksY st' = chunksY st
  /\ length (worldMat st') = length (worldMat st)
  /\ length (worldTemp st') = length (worldTemp st)
  /\ length (dirtyChunks st') = length (dirtyChunks st)
  /\ toggleTemp st' = toggleTemp st.

(** [sameHeat st st'] : temperatures and cell flags are the same arrays. *)
Definition sameHeat st st' : Prop :=
  worldTemp st' = worldTemp st /\ worldMeta st' = worldMeta st.

(** The state a stage hands on, whichever way it ends. *)
Definition flowState (f : flowctl (T := T)) : App (T := T) :=
  match f with
  | Continue st => st
  | Next st => st
  end.

(** The temperatures of the orthogonal neighbours that exist, in the order
    of [neighborCoords]: left, right, up, down. *)
Definition neighbourTemps st (x y : Z) : list T :=
  map (fun n => tempAt st (idx st (fst n) (snd n))) (neighborCoords st x y).

(** The mean the diffusion stage computes: the cell's own temperature and
    those of its neighbours, added left to right, over their number. *)
Definition meanWithSelf st (x y : Z) : T :=
  t_div (foldl t_add (tempAt st (idx st x y)) (neighbourTemps st x y))
        (t_lit (1 + Z.of_nat (length (neighbourTemps st x y)))).

(** The update in the words of the specification: [t + 0.1 * (m - t)] with
    [m] the mean of the neighbours alone. *)
Definition claimedDiffuse st (x y : Z) : T :=
  let t := tempAt st (idx st x y) in
  let m := t_div (foldl t_add (t_lit 0) (neighbourTemps st x y))
                 (t_lit (Z.of_nat (length (neighbourTemps st x y)))) in
  t_add t (t_mul t_tenth (t_sub m t)).


(** The index the brush and [setMatAt] store for the id [cur], and the
    temperature the brush stores with it. *)
Definition paintIndex (cur : string) : Z :=
  toInt32 (js_or (getMatIndex materials cur) (getMatIndex materials "EMPTY")).

Definition paintTemp (cur : string) : T := t_fround (brushTemp materials cur).

(** [inBrush st radius gx gy k] : the array index [k] is the flat index of
    a cell [(x,y)] that lies inside the grid of [st] and inside the disk of
    the given radius around [(gx,gy)]; in particular [k] is below
    [gridW * gridH]. *)
Definition inBrush st (radius gx gy : Z) (k : nat) : Prop :=
  exists x y : Z,
    0 <= x < gridW st /\ 0 <= y < gridH st
    /\ (x - gx) * (x - gx) + (y - gy) * (y - gy) <= radius * radius
    /\ Z.of_nat k = idx st x y
    /\ Z.of_nat k < gridW st * gridH st.

(** [brushFrame st st' radius cur gx gy] : going from [st] to [st'] kept
    the shape and the flags, and every entry of the material and
    temperature arrays is either what it was or belongs to a cell in the
    brush and holds the painted value. *)
Definition brushFrame st st' (radius : Z) (cur : string) (gx gy : Z) : Prop :=
  sameShape st st'
  /\ worldMeta st' = worldMeta st
  /\ forall k : nat,
       (worldMat st' !! k = worldMat st !! k
        \/ (inBrush st radius gx gy k
            /\ worldMat st' !! k = Some (paintIndex cur)))
       /\ (worldTemp st' !! k = worldTemp st !! k
           \/ (inBrush st radius gx gy k
               /\ worldTemp st' !! k = Some (paintTemp cur))).


(** The position of the flag of the chunk [c = (cx,cy)] in [dirtyChunks],
    whether that flag is set, and the chunk a cell belongs to. *)
Definition chunkIndex st (c : Z * Z) : Z := snd c * chunksX st + fst c.

Definition chunkDirty st (c : Z * Z) : Prop :=
  ta_get (dirtyChunks st) (chunkIndex st c) = Some true.

#[global] Instance chunkDirty_dec st (c : Z * Z) : Decision (chunkDirty st c).
Proof. unfold chunkDirty. apply _. Defined.

Definition chunkOf (x y : Z) : Z * Z :=
  (floor_div x chunkSize, floor_div y chunkSize).

(** [sameCells st st'] : the three cell arrays are the same. *)
Definition sameCells st st' : Prop :=
  worldMat st' = worldMat st /\ worldTemp st' = worldTemp st
  /\ worldMeta st' = worldMeta st.


(** [arrayFits w h a] : the array, when present, has [w * h] entries;
    [shapeMismatch p] : an array of the snapshot disagrees with the declared
    dimensions. *)
Definition arrayFits {A : Type} (w h : Z) (a : option (list A)) : Prop :=
  match a with
  | Some l => Z.of_nat (length l) = w * h
  | None => True
  end.

Definition shapeMismatch (p : Snapshot (T := T)) : Prop :=
  ~ (arrayFits (snap_w p) (snap_h p) (snap_mat p)
     /\ arrayFits (snap_w p) (snap_h p) (snap_temp p)).

(** The value [allocateWorld] fills the material array with, and the
    temperature array the load handler copies from. *)
Definition fillIndex : Z :=
  toInt32 (js_or (getMatIndex materials "EMPTY") (JNumber (-1))).

Definition tempSource (p : Snapshot (T := T)) : list T :=
  match snap_temp p with
  | Some ts => map t_fround ts
  | None => replicate (Z.to_nat (snap_w p * snap_h p)) (t_fround (t_lit 0))
  end.

(** [overwritePrefix source v n] : an array of [n] entries [v] whose first
    entries were overwritten by [source]. *)
Definition overwritePrefix {A : Type} (source : list A) (v : A) (n : nat) : list A :=
  source ++ replicate (n - length source) v.


(** [quiet st st'] : same shape, same flags array, and the same
    temperatures unless temperature simulation is on. *)
Definition quiet st st' : Prop :=
  sameShape st st'
  /\ worldMeta st' = worldMeta st
  /\ (toggleTemp st = false -> worldTemp st' = worldTemp st).


(** [moveTarget x y x' y'] : [(x',y')] is one of the six cells a move from
    [(x,y)] can go to: below, the two lower diagonals, the two sides,
    above. *)
Definition moveTarget (x y x' y' : Z) : Prop :=
  (x' = x /\ y' = y + 1)
  \/ ((x' = x - 1 \/ x' = x + 1) /\ y' = y + 1)
  \/ ((x' = x - 1 \/ x' = x + 1) /\ y' = y)
  \/ (x' = x /\ y' = y - 1).


(** [validIndex z] : [z] is a position of the material table. *)
Definition validIndex (z : Z) : Prop := 0 <= z < Z.of_nat (length materials).

(** A material the movement and temperature stages never turn into
    something else: not sand, not a liquid, not a gas, not LAVA and not
    flammable. *)
Definition staticMaterial (mat : Material (T := T)) : bool :=
  negb (String.prefix "SAND" (mat_id mat) || String.eqb (mat_id mat) "SAND")
  && negb (flow mat || String.eqb (mat_id mat) "WATER"
           || String.eqb (mat_id mat) "OIL")
  && negb (isGas mat)
  && negb (String.eqb (mat_id mat) "LAVA")
  && negb (flammable mat).

(** A material without a neighbour reaction of its own. *)
Definition unreactive (mat : Material (T := T)) : bool :=
  negb (String.eqb (mat_id mat) "ACID")
  && negb (String.eqb (mat_id mat) "OIL")
  && negb (String.eqb (mat_id mat) "SEED").

(** [quietCell v] : a cell holding [v] does nothing in a tick.  Either [v]
    names no material, or the material is unreactive and the movement pass
    skips it ([v] negative, WALL, ERASER) or finds it static. *)
Definition quietCell (v : jsval) : bool :=
  match getMatByIndex materials v with
  | None => true
  | Some mat =>
      unreactive mat
      && (js_negative v
          || (String.eqb (mat_id mat) "WALL" || String.eqb (mat_id mat) "ERASER")
          || staticMaterial mat)
  end.

(** [inDisk radius gx gy x y] : [(x,y)] is within [radius] of [(gx,gy)]. *)
Definition inDisk (radius gx gy x y : Z) : bool :=
  (x - gx) * (x - gx) + (y - gy) * (y - gy) <=? radius * radius.

(** The state of the generator after [n] calls. *)
Definition rngAfter (seed : Z) (n : nat) : Z := Nat.iter n rand_next (rand seed).


(** What [keyStore], [addVariants] and [ensureKey] all keep: the position
    of every key already there, and the distinctness of the keys. *)
Definition extends (tbl tbl' : list (string * Material (T := T))) : Prop :=
  (forall k i, keyIndex k tbl = Some i -> keyIndex k tbl' = Some i)
  /\ (NoDup (tbl.*1) -> NoDup (tbl'.*1)).


(** [validWorld st] : every cell of the material array holds a position
    of the material table. *)
Definition validWorld st : Prop := Forall validIndex (worldMat st).


(** The temperature the temperature-triggered transitions leave in a cell
    of material [mat], from the value [d] the diffusion step stored there;
    in source order: WATER above 100 gains 10; LAVA below 500 is set to 100
    when STONE is registered; a flammable material above 300 is set to
    800.  Every store rounds to single precision. *)
Definition afterTransitions (mat : Material (T := T)) (d : T) : T :=
  let d1 := if String.eqb (mat_id mat) "WATER" && t_lt (t_lit 100) d
            then t_fround (t_add d (t_lit 10)) else d in
  let d2 := if String.eqb (mat_id mat) "LAVA"
               && (t_lt d1 (t_lit 500)
                   && bool_decide (is_Some (keyLookup "STONE" materials)))
            then t_fround (t_lit 100) else d1 in
  if flammable mat && t_lt (t_lit 300) d2 then t_fround (t_lit 800) else d2.

(** The state in which the first loop nest of a tick reaches the cell
    [(x,y)]: the rows below row [y] are done, and so are the cells of row
    [y] to the left of [x]. *)
Definition pass1Before st (x y : Z) : App (T := T) :=
  foldl (pass1Cell materials y)
        (foldl (pass1Row materials (gridW st)) st
               (reverse (seqZ (y + 1) (gridH st - (y + 1)))))
        (seqZ 0 x).

(** The entries of a material file that become keys of the table: all but
    an entry named ["__proto__"]. *)
Definition ownEntries (base : list (string * Material (T := T)))
  : list (string * Material (T := T)) :=
  List.filter (fun e => negb (String.eqb (fst e) "__proto__")) base.

(** [a <= b] on numbers: false as soon as one side is [NaN]. *)
Definition num_le (a b : jsnum) : bool :=
  match a, b with
  | NumNaN, _ | _, NumNaN => false
  | _, _ => negb (num_lt b a)
  end.


End Vocabulary.

(** ** Exact arithmetic *)

(** Rational numbers with a [NaN]: the arithmetic of the source without
    rounding.  Results are kept in lowest terms, so equal numbers are equal
    terms. *)
Definition xnum : Type := option Q.

Definition xnum_lift (f : Q -> Q -> Q) (a b : xnum) : xnum :=
  match a, b with
  | Some p, Some q => Some (Qred (f p q))
  | _, _ => None
  end.

Definition xnum_div (a b : xnum) : xnum :=
  match a, b with
  | Some p, Some q => if Qeq_bool q 0 then None else Some (Qred (p / q))
  | _, _ => None
  end.

Definition xnum_lt (a b : xnum) : bool :=
  match a, b with
  | Some p, Some q => Qltb p q
  | _, _ => false
  end.

Definition xnum_truthy (a : xnum) : bool :=
  match a with
  | Some p => negb (Qeq_bool p 0)
  | None => false
  end.

Definition xnum_json (a : xnum) : xnum :=
  match a with
  | Some p => Some p
  | None => Some 0%Q
  end.

#[export] Instance xnum_arith : TempArith xnum := {|
  t_lit := fun z => Some (inject_Z z);
  t_tenth := Some (1 # 10)%Q;
  t_nan := None;
  t_add := xnum_lift Qplus;
  t_sub := xnum_lift Qminus;
  t_mul := xnum_lift Qmult;
  t_div := xnum_div;
  t_lt := xnum_lt;
  t_truthy := xnum_truthy;
  t_fround := fun t => t;
  t_json := xnum_json
|}.

(** ** The built-in material table *)

(** [defaultMaterials().baseMaterials] *)
Definition defaultMaterials : list (string * Material (T := xnum)) :=
  [ ("EMPTY", plainMaterial "EMPTY");
    ("SAND", mkMaterial "SAND" false true false false false None);
    ("WATER", mkMaterial "WATER" false true false false false None);
    ("FIRE", mkMaterial "FIRE" false false true false false (Some (t_lit 800)));
    ("STONE", mkMaterial "STONE" true false false false false None) ]%string.

(** [App.materials] after [prepareMaterials(defaultMaterials())]. *)
Definition builtinMaterials : list (string * Material (T := xnum)) :=
  prepareMaterials defaultMaterials [].

(** The state before the first world exists: empty arrays, the generator
    seeded with [seed], temperature simulation off. *)
Definition bootApp (seed : Z) : App (T := xnum) :=
  mkApp 400 300 [] [] [] 0 0 [] (rand seed) 0 false.

Definition noRandom : nat -> Q := fun _ => 0%Q.


(** ** Worlds used as concrete inputs *)

(** A column of two cells, STONE at 0 degrees above WALL at 100 degrees,
    with temperature simulation switched on. *)
Definition heatColumn : App (T := xnum) :=
  mkApp 1 2 [4; 6] [Some 0%Q; Some 100%Q] [0; 0] 1 1 [false] 0 0 true.


(** The entries of the built-in table used below. *)
Definition sandMat : Material (T := xnum) :=
  mkMaterial "SAND" false true false false false None.
Definition stoneMat : Material (T := xnum) :=
  mkMaterial "STONE" true false false false false None.

(** A column of two cells, SAND above EMPTY, temperature simulation on. *)
Definition sandColumn : App (T := xnum) :=
  mkApp 1 2 [1; 0] [Some 50%Q; Some 20%Q] [0; 0] 1 1 [false] 0 0 true.


(** The number of cells of a material array that hold the index [k]. *)
Definition countMat (k : Z) (a : list Z) : nat := length (filter (eq k) a).

(** A column of two cells, SAND above WATER; [s] is the generator state. *)
Definition sandOverWater (s : Z) : App (T := xnum) :=
  mkApp 1 2 [1; 2] [Some 20%Q; Some 20%Q] [0; 0] 1 1 [false] s 0 false.

(** The built-in table extended with a material file entry for OIL. *)
Definition oilMaterials : list (string * Material (T := xnum)) :=
  prepareMaterials
    (defaultMaterials ++ [("OIL", mkMaterial "OIL" false true false true false None)]%string)
    [].

(** A column of two cells, FIRE above OIL, in the table [oilMaterials]. *)
Definition fireOverOil (s : Z) : App (T := xnum) :=
  mkApp 1 2 [3; 5] [Some 20%Q; Some 20%Q] [0; 0] 1 1 [false] s 0 false.

(** Two streams of [Math.random] samples. *)
Definition lowSamples : nat -> Q := fun _ => 0%Q.
Definition highSamples : nat -> Q := fun _ => (1 # 2)%Q.


(** A save file that declares a 1x1 world and carries an empty material
    array, and one that declares 2x2 and carries shorter arrays. *)
Definition emptySave : Snapshot (T := xnum) := mkSnapshot 1 1 (Some []) None.

Definition shortSave : Snapshot (T := xnum) :=
  mkSnapshot 2 2 (Some [1; 4]) (Some [Some 30%Q]).


Definition waterMat : Material (T := xnum) :=
  mkMaterial "WATER" false true false false false None.
Definition oilMat : Material (T := xnum) :=
  mkMaterial "OIL" false true false true false None.


(** A material file with two variants of SAND and a group whose base is
    unknown. *)
Definition sandVariants : list VariantGroup :=
  [mkVariantGroup "SAND" (Some 2%nat); mkVariantGroup "GLASS" None].

(** [sandColumn] with its chunk marked dirty. *)
Definition dirtyColumn : App (T := xnum) :=
  mkApp 1 2 [1; 0] [Some 50%Q; Some 20%Q] [0; 0] 1 1 [true] 0 0 true.

(** A 3x3 world of EMPTY cells at 20 degrees. *)
Definition emptyWorld3 : App (T := xnum) :=
  mkApp 3 3 (replicate 9 0) (replicate 9 (Some 20%Q)) (replicate 9 0)
        1 1 [false] 0 0 false.


(** A material file with an entry named ["__proto__"] between EMPTY and
    SAND. *)
Definition protoMaterials : list (string * Material (T := xnum)) :=
  [ ("EMPTY", plainMaterial "EMPTY");
    ("__proto__", plainMaterial "GHOST");
    ("SAND", mkMaterial "SAND" false true false false false None) ]%string.

(** [sandColumn] with the temperature of the sand cell [NaN]. *)
Definition nanColumn : App (T := xnum) :=
  mkApp 1 2 [1; 0] [None; Some 20%Q] [0; 0] 1 1 [false] 0 0 true.


(** A single WATER cell at 200 degrees, with temperature simulation switched
    on. *)
Definition hotWater : App (T := xnum) :=
  mkApp 1 1 [2] [Some 200%Q] [0] 1 1 [false] 0 0 true.


(** A save file that declares a 1x1 world, with a material array that fits
    and a temperature array that is too long. *)
Definition longTempSave : Snapshot (T := xnum) :=
  mkSnapshot 1 1 (Some [4]) (Some [Some 30%Q; Some 40%Q]).


(** * Properties *)

Section Frame.

Context {T : Type} `{TempArith T}.
Variable materials : list (string * Material (T := T)).
Variable random : nat -> Q.

Implicit Types st : App (T := T).
Implicit Types mat : Material (T := T).

(** ** What the elementary writes leave alone *)

Lemma sameShape_refl st : sameShape st st.
Proof. repeat split. Qed.

Lemma sameShape_trans st1 st2 st3 :
  sameShape st1 st2 -> sameShape st2 st3 -> sameShape st1 st3.
Proof. unfold sameShape. intuition congruence. Qed.

Lemma sameHeat_refl st : sameHeat st st.
Proof. split; reflexivity. Qed.

Lemma sameHeat_trans st1 st2 st3 :
  sameHeat st1 st2 -> sameHeat st2 st3 -> sameHeat st1 st3.
Proof. unfold sameHeat. intuition congruence. Qed.

Lemma length_ta_set {A : Type} (a : list A) i v : length (ta_set a i v) = length a.
Proof. unfold ta_set. destruct (i <? 0); [reflexivity | apply length_insert]. Qed.

Lemma markChunk_shape x y st : sameShape st (markChunkDirtyForCell x y st).
Proof.
  unfold markChunkDirtyForCell.
  destruct (_ || _); [apply sameShape_refl |].
  repeat split; simpl. apply length_ta_set.
Qed.

Lemma markChunk_heat x y st : sameHeat st (markChunkDirtyForCell x y st).
Proof.
  unfold markChunkDirtyForCell. destruct (_ || _); split; reflexivity.
Qed.

Lemma markChunk_worldMat x y st :
  worldMat (markChunkDirtyForCell x y st) = worldMat st.
Proof. unfold markChunkDirtyForCell. destruct (_ || _); reflexivity. Qed.

Lemma markChunk_worldTemp x y st :
  worldTemp (markChunkDirtyForCell x y st) = worldTemp st.
Proof. unfold markChunkDirtyForCell. destruct (_ || _); reflexivity. Qed.

Lemma writeMat_shape i v st : sameShape st (writeMat i v st).
Proof. repeat split; simpl. apply length_ta_set. Qed.

Lemma writeMat_heat i v st : sameHeat st (writeMat i v st).
Proof. split; reflexivity. Qed.

Lemma writeTemp_shape i v st : sameShape st (writeTemp i v st).
Proof. repeat split; simpl. apply length_ta_set. Qed.

Lemma moveCell_shape x y x' y' v st :
  sameShape st (moveCell materials x y x' y' v st).
Proof.
  unfold moveCell.
  eapply sameShape_trans; [| apply markChunk_shape].
  eapply sameShape_trans; [| apply markChunk_shape].
  eapply sameShape_trans; [| apply writeMat_shape].
  apply writeMat_shape.
Qed.

Lemma moveCell_heat x y x' y' v st :
  sameHeat st (moveCell materials x y x' y' v st).
Proof.
  unfold moveCell.
  eapply sameHeat_trans; [| apply markChunk_heat].
  eapply sameHeat_trans; [| apply markChunk_heat].
  eapply sameHeat_trans; [| apply writeMat_heat].
  apply writeMat_heat.
Qed.

Create HintDb frame.
Hint Resolve sameShape_refl sameHeat_refl moveCell_shape moveCell_heat : frame.

Ltac stage_cases :=
  repeat match goal with
         | |- context [if ?b then _ else _] => destruct b
         | |- context [let '(_, _) := ?p in _] => destruct p
         end;
  simpl; auto with frame.

Lemma callRng_shape st : sameShape st (snd (callRng st)).
Proof. repeat split. Qed.

Lemma callRng_heat st : sameHeat st (snd (callRng st)).
Proof. split; reflexivity. Qed.

Lemma sandStage_frame x y v mat st :
  sameShape st (flowState (sandStage materials x y v mat st))
  /\ sameHeat st (flowState (sandStage materials x y v mat st)).
Proof.
  unfold sandStage, callRng.
  split; stage_cases;
    try (eapply sameShape_trans; [| apply moveCell_shape]; repeat split);
    try (eapply sameHeat_trans; [| apply moveCell_heat]; split; reflexivity);
    repeat split.
Qed.

Lemma flowSideways_frame x y v st :
  sameShape st (flowState (flowSideways materials x y v st))
  /\ sameHeat st (flowState (flowSideways materials x y v st)).
Proof.
  unfold flowSideways, callRng.
  split; stage_cases;
    try (eapply sameShape_trans; [| apply moveCell_shape]; repeat split);
    try (eapply sameHeat_trans; [| apply moveCell_heat]; split; reflexivity);
    repeat split.
Qed.

Lemma flowStage_frame x y v mat st :
  sameShape st (flowState (flowStage materials x y v mat st))
  /\ sameHeat st (flowState (flowStage materials x y v mat st)).
Proof.
  unfold flowStage.
  destruct (_ || _); [| split; simpl; auto with frame].
  destruct (y + 1 <? gridH st); [| apply flowSideways_frame].
  destruct (passable _); [| apply flowSideways_frame].
  split; simpl; auto with frame.
Qed.

Lemma gasStage_frame x y v mat st :
  sameShape st (flowState (gasStage materials x y v mat st))
  /\ sameHeat st (flowState (gasStage materials x y v mat st)).
Proof. unfold gasStage. split; stage_cases. Qed.

Lemma moveStages_frame x y v mat st :
  sameShape st (flowState (moveStages materials x y v mat st))
  /\ sameHeat st (flowState (moveStages materials x y v mat st)).
Proof.
  unfold moveStages.
  pose proof (sandStage_frame x y v mat st) as [S1 H1].
  destruct (sandStage materials x y v mat st) as [s1 | s1]; simpl in *; [auto |].
  pose proof (flowStage_frame x y v mat s1) as [S2 H2].
  destruct (flowStage materials x y v mat s1) as [s2 | s2]; simpl in *.
  - split; [eapply sameShape_trans | eapply sameHeat_trans]; eauto.
  - pose proof (gasStage_frame x y v mat s2) as [S3 H3].
    split; [eapply sameShape_trans; [| exact S3]; eapply sameShape_trans
           | eapply sameHeat_trans; [| exact H3]; eapply sameHeat_trans]; eauto.
Qed.

(** ** Moves and the temperature array *)

Lemma moveCell_worldMat (x y x' y' : Z) (v : jsval) st :
  worldMat (moveCell materials x y x' y' v st)
  = ta_set (ta_set (worldMat st) (idx st x' y') (toInt32 v))
           (idx st x y) (toInt32 (getMatIndex materials "EMPTY")).
Proof. unfold moveCell. rewrite !markChunk_worldMat. reflexivity. Qed.

(** A move stores the moving index at one of the six target cells and the
    index of EMPTY at the source, and nothing else in the material array. *)
Lemma moveStages_moved (x y : Z) (v : jsval) mat st st' :
  moveStages materials x y v mat st = Continue st' ->
  exists x' y' : Z,
    moveTarget x y x' y'
    /\ worldMat st'
       = ta_set (ta_set (worldMat st) (idx st x' y') (toInt32 v))
                (idx st x y) (toInt32 (getMatIndex materials "EMPTY")).
Proof.
  unfold moveStages, sandStage, flowStage, flowSideways, gasStage, callRng.
  cbv zeta. cbn [fst snd].
  intros Hmove.
  repeat match type of Hmove with
         | context [if ?c then _ else _] => destruct c
         end;
    try discriminate; injection Hmove as <-;
    rewrite moveCell_worldMat; unfold moveTarget;
    eexists _, _; (split; [| reflexivity]); lia.
Qed.

(** C10.  When the movement part of the loop body moves the cell [(x,y)]
    (sand falling or sliding, a liquid flowing down or sideways, a gas
    rising), the loop body ends there for this cell: the material array
    receives the moving index at the target and EMPTY at the source, and
    the temperature array and the flags array are exactly what they were
    before.  The temperature of the moved material stays behind at its old
    position. *)
Theorem move_leaves_temperature (x y : Z) st mat st' :
  js_negative (matAt st (idx st x y)) = false ->
  getMatByIndex materials (matAt st (idx st x y)) = Some mat ->
  String.eqb (mat_id mat) "WALL" || String.eqb (mat_id mat) "ERASER" = false ->
  moveStages materials x y (matAt st (idx st x y)) mat st = Continue st' ->
  pass1Cell materials y st x = st'
  /\ worldTemp st' = worldTemp st
  /\ worldMeta st' = worldMeta st
  /\ tempAt st' (idx st' x y) = tempAt st (idx st x y)
  /\ exists x' y' : Z,
       moveTarget x y x' y'
       /\ worldMat st'
          = ta_set (ta_set (worldMat st) (idx st x' y')
                           (toInt32 (matAt st (idx st x y))))
                   (idx st x y) (toInt32 (getMatIndex materials "EMPTY"))
       /\ tempAt st' (idx st' x' y') = tempAt st (idx st x' y').
Proof.
  intros Hneg Hmat Htool Hmove.
  pose proof (moveStages_frame x y (matAt st (idx st x y)) mat st) as [Hs Hh].
  rewrite Hmove in Hs, Hh. simpl in Hs, Hh.
  destruct Hh as [Ht Hm]. destruct Hs as (Hw & _).
  assert (forall a b, tempAt st' (idx st' a b) = tempAt st (idx st a b)) as Hsame
    by (intros a b; unfold tempAt, idx; rewrite Ht, Hw; reflexivity).
  split; [| split; [exact Ht | split; [exact Hm | split; [apply Hsame |]]]].
  - unfold pass1Cell. rewrite Hneg, Hmat, Htool, Hmove. reflexivity.
  - destruct (moveStages_moved x y _ mat st st' Hmove) as (x' & y' & Htgt & Hmat').
    exists x', y'. split; [exact Htgt | split; [exact Hmat' | apply Hsame]].
Qed.

(** ** Temperature diffusion *)

Lemma diffuse_mean (x y : Z) st :
  diffuse x y st
  = t_add (tempAt st (idx st x y))
          (t_mul (t_sub (meanWithSelf st x y) (tempAt st (idx st x y))) t_tenth).
Proof.
  unfold diffuse, meanWithSelf, neighbourTemps, neighborCoords, addNeighbour.
  destruct (0 <? x), (x + 1 <? gridW st), (0 <? y), (y + 1 <? gridH st);
    reflexivity.
Qed.

Lemma diffuse_ext (x y : Z) st st' :
  sameShape st st' -> sameHeat st st' -> diffuse x y st' = diffuse x y st.
Proof.
  intros (Hw & Hh & _) (Ht & _).
  unfold diffuse, addNeighbour, tempAt, idx. rewrite Hw, Hh, Ht. reflexivity.
Qed.

Lemma thermalReactions_inert (x y : Z) v mat st :
  String.eqb (mat_id mat) "WATER" = false ->
  String.eqb (mat_id mat) "LAVA" = false ->
  flammable mat = false ->
  thermalReactions materials x y v mat st = st.
Proof.
  intros Hw Hl Hf. unfold thermalReactions. rewrite Hw, Hl, Hf. reflexivity.
Qed.

Lemma lookup_ta_set {A : Type} (a : list A) (i : Z) (v : A) :
  0 <= i < Z.of_nat (length a) ->
  ta_set a i v !! Z.to_nat i = Some v.
Proof.
  intros Hi. unfold ta_set.
  destruct (Z.ltb_spec i 0); [lia |].
  apply list_lookup_insert_eq. lia.
Qed.

Lemma foldl_invariant {A B : Type} (P : A -> Prop) (f : A -> B -> A) (l : list B) :
  (forall s d, P s -> P (f s d)) -> forall s, P s -> P (foldl f s l).
Proof.
  intros Hstep. induction l as [| d l IH]; intros s Hs; simpl; [exact Hs |].
  apply IH, Hstep, Hs.
Qed.

(** ** The whole tick, the flags and the temperatures *)

Lemma quiet_refl st : quiet st st.
Proof. split; [apply sameShape_refl | split; [reflexivity | reflexivity]]. Qed.

Lemma quiet_trans st1 st2 st3 : quiet st1 st2 -> quiet st2 st3 -> quiet st1 st3.
Proof.
  intros (S1 & M1 & T1) (S2 & M2 & T2).
  split; [eapply sameShape_trans; eassumption |].
  split; [congruence |].
  intros Hoff. rewrite T2, T1; [reflexivity | exact Hoff |].
  destruct S1 as (_ & _ & _ & _ & _ & _ & _ & E). congruence.
Qed.

Lemma quiet_of_frame st st' : sameShape st st' -> sameHeat st st' -> quiet st st'.
Proof. intros Hs [Ht Hm]. split; [exact Hs | split; [exact Hm | intros _; exact Ht]]. Qed.

Lemma marked_write_frame (x y i : Z) (v : jsval) st :
  sameShape st (markChunkDirtyForCell x y (writeMat i v st))
  /\ sameHeat st (markChunkDirtyForCell x y (writeMat i v st)).
Proof.
  split.
  - eapply sameShape_trans; [apply writeMat_shape | apply markChunk_shape].
  - eapply sameHeat_trans; [apply writeMat_heat | apply markChunk_heat].
Qed.

Lemma transition_shape (x y i : Z) (v : jsval) (t : T) st :
  sameShape st (markChunkDirtyForCell x y (writeTemp i t (writeMat i v st)))
  /\ worldMeta (markChunkDirtyForCell x y (writeTemp i t (writeMat i v st)))
     = worldMeta st.
Proof.
  split.
  - eapply sameShape_trans; [| apply markChunk_shape].
    eapply sameShape_trans; [apply writeMat_shape | apply writeTemp_shape].
  - destruct (markChunk_heat x y (writeTemp i t (writeMat i v st))) as [_ E].
    rewrite E. reflexivity.
Qed.

Lemma thermalReactions_shape (x y : Z) (v : jsval) mat st :
  sameShape st (thermalReactions materials x y v mat st)
  /\ worldMeta (thermalReactions materials x y v mat st) = worldMeta st.
Proof.
  assert (forall (c : bool) (i : Z) (w : jsval) (t : T) s,
             sameShape st s -> worldMeta s = worldMeta st ->
             sameShape st (if c
                           then markChunkDirtyForCell x y
                                  (writeTemp i t (writeMat i w s))
                           else s)
             /\ worldMeta (if c
                           then markChunkDirtyForCell x y
                                  (writeTemp i t (writeMat i w s))
                           else s) = worldMeta st) as Hstep.
  { intros c i w t s Hs Hm. destruct c; [| split; assumption].
    destruct (transition_shape x y i w t s) as [Hs' Hm'].
    split; [eapply sameShape_trans; eassumption | congruence]. }
  unfold thermalReactions. cbv zeta.
  set (i := idx st x y).
  destruct (Hstep (String.eqb (mat_id mat) "WATER" && t_gt (tempAt st i) (t_lit 100))
                  i (js_or (getMatIndex materials "STEAM") v)
                  (t_add (tempAt (writeMat i (js_or (getMatIndex materials "STEAM") v) st) i)
                         (t_lit 10))
                  st (sameShape_refl st) eq_refl) as [S1 M1].
  set (st1 := if String.eqb (mat_id mat) "WATER" && t_gt (tempAt st i) (t_lit 100)
              then _ else st) in *.
  assert (sameShape st
            (if String.eqb (mat_id mat) "LAVA"
             then if t_lt (tempAt st1 i) (t_lit 500)
                     && bool_decide (is_Some (keyLookup "STONE" materials))
                  then markChunkDirtyForCell x y
                         (writeTemp i (t_lit 100)
                            (writeMat i (getMatIndex materials "STONE") st1))
                  else st1
             else st1)
          /\ worldMeta
               (if String.eqb (mat_id mat) "LAVA"
                then if t_lt (tempAt st1 i) (t_lit 500)
                        && bool_decide (is_Some (keyLookup "STONE" materials))
                     then markChunkDirtyForCell x y
                            (writeTemp i (t_lit 100)
                               (writeMat i (getMatIndex materials "STONE") st1))
                     else st1
                else st1) = worldMeta st) as [S2 M2].
  { destruct (String.eqb (mat_id mat) "LAVA"); [| split; assumption].
    apply Hstep; assumption. }
  set (st2 := if String.eqb (mat_id mat) "LAVA" then _ else st1) in *.
  apply Hstep; assumption.
Qed.

Lemma tempStage_quiet (x y : Z) (v : jsval) mat st :
  quiet st (tempStage materials x y v mat st).
Proof.
  unfold tempStage. destruct (toggleTemp st) eqn:Hon; [| apply quiet_refl].
  destruct (thermalReactions_shape x y v mat
              (writeTemp (idx st x y) (diffuse x y st) st)) as [Hs Hm].
  split; [eapply sameShape_trans; [apply writeTemp_shape | exact Hs] |].
  split; [rewrite Hm; reflexivity | intros Hoff; congruence].
Qed.

Lemma pass1Cell_quiet (y : Z) st (x : Z) : quiet st (pass1Cell materials y st x).
Proof.
  unfold pass1Cell.
  destruct (js_negative _); [apply quiet_refl |].
  destruct (getMatByIndex _ _) as [mat |]; [| apply quiet_refl].
  destruct (_ || _); [apply quiet_refl |].
  pose proof (moveStages_frame x y (matAt st (idx st x y)) mat st) as [Hs Hh].
  destruct (moveStages materials x y (matAt st (idx st x y)) mat st) as [s1 | s1];
    simpl in Hs, Hh.
  - apply quiet_of_frame; assumption.
  - eapply quiet_trans; [apply quiet_of_frame; eassumption | apply tempStage_quiet].
Qed.

Lemma reaction_step_frame st (n : Z * Z) (x y : Z) :
  (sameShape st (acidStep materials random st n)
   /\ sameHeat st (acidStep materials random st n))
  /\ (sameShape st (oilStep materials random x y st n)
      /\ sameHeat st (oilStep materials random x y st n))
  /\ (sameShape st (seedStep materials random x y st n)
      /\ sameHeat st (seedStep materials random x y st n)).
Proof.
  assert (forall s, sameShape st s -> sameHeat st s ->
                    sameShape st (set_drawn (S (drawn s)) s)
                    /\ sameHeat st (set_drawn (S (drawn s)) s)) as Hdraw.
  { intros s Hs Hh. split; [| exact Hh].
    destruct Hs as (?&?&?&?&?&?&?&?). repeat split; assumption. }
  assert (forall s x' y' i v, sameShape st s -> sameHeat st s ->
                    sameShape st (markChunkDirtyForCell x' y' (writeMat i v s))
                    /\ sameHeat st (markChunkDirtyForCell x' y' (writeMat i v s)))
    as Hwrite.
  { intros s x' y' i v Hs Hh.
    destruct (marked_write_frame x' y' i v s) as [Hs' Hh'].
    split; [eapply sameShape_trans | eapply sameHeat_trans]; eassumption. }
  pose proof (sameShape_refl st) as Hs0. pose proof (sameHeat_refl st) as Hh0.
  destruct n as [nx ny]. unfold acidStep, oilStep, seedStep, mathRandom.
  split; [| split].
  - destruct (hasId _ _); [| auto].
    destruct (Qltb _ _); [apply Hwrite |]; apply Hdraw; assumption.
  - destruct (hasId _ _); [| auto].
    destruct (Qltb _ _); [apply Hwrite |]; apply Hdraw; assumption.
  - destruct (hasId _ _); [| auto].
    destruct (Qltb _ _); [| apply Hdraw; assumption].
    assert (sameShape st (writeMat (idx (set_drawn (S (drawn st)) st) x y)
                                   (getMatIndex materials "SEED")
                                   (set_drawn (S (drawn st)) st))
            /\ sameHeat st (writeMat (idx (set_drawn (S (drawn st)) st) x y)
                                     (getMatIndex materials "SEED")
                                     (set_drawn (S (drawn st)) st))) as [Hs2 Hh2].
    { destruct (Hdraw st Hs0 Hh0) as [Hs1 Hh1].
      split; [eapply sameShape_trans; [exact Hs1 | apply writeMat_shape]
             | eapply sameHeat_trans; [exact Hh1 | apply writeMat_heat]]. }
    cbv zeta. destruct (Qltb _ _); [apply Hwrite |]; apply Hdraw; assumption.
Qed.

Lemma pass2Cell_frame (y : Z) st (x : Z) :
  sameShape st (pass2Cell materials random y st x)
  /\ sameHeat st (pass2Cell materials random y st x).
Proof.
  assert (forall (f : App (T := T) -> Z * Z -> App (T := T)) (l : list (Z * Z)) s,
             (forall a n, sameShape a (f a n) /\ sameHeat a (f a n)) ->
             sameShape st s -> sameHeat st s ->
             sameShape st (foldl f s l) /\ sameHeat st (foldl f s l)) as Hfold.
  { intros f l s Hf Hs Hh.
    apply (foldl_invariant (fun a => sameShape st a /\ sameHeat st a));
      [| split; assumption].
    intros a n [Ha1 Ha2]. destruct (Hf a n) as [Hb1 Hb2].
    split; [eapply sameShape_trans | eapply sameHeat_trans]; eassumption. }
  unfold pass2Cell.
  destruct (getMatByIndex _ _) as [mat |];
    [| split; [apply sameShape_refl | apply sameHeat_refl]].
  set (st1 := if String.eqb (mat_id mat) "ACID" then _ else st).
  assert (sameShape st st1 /\ sameHeat st st1) as [S1 H1].
  { subst st1. destruct (String.eqb (mat_id mat) "ACID");
      [| split; [apply sameShape_refl | apply sameHeat_refl]].
    apply Hfold; [| apply sameShape_refl | apply sameHeat_refl].
    intros a n. apply (reaction_step_frame a n 0 0). }
  set (st2 := if String.eqb (mat_id mat) "OIL" then _ else st1).
  assert (sameShape st st2 /\ sameHeat st st2) as [S2 H2].
  { subst st2. destruct (String.eqb (mat_id mat) "OIL"); [| split; assumption].
    apply Hfold; [| assumption | assumption].
    intros a n. apply (reaction_step_frame a n x y). }
  destruct (String.eqb (mat_id mat) "SEED"); [| split; assumption].
  apply Hfold; [| assumption | assumption].
  intros a n. apply (reaction_step_frame a n x y).
Qed.

(** One tick never changes the flags array, and with temperature
    simulation off it never changes a temperature. *)
Lemma simTick_quiet st : quiet st (simTick materials random st).
Proof.
  unfold simTick.
  assert (quiet st (pass1 materials st)) as H1.
  { unfold pass1.
    apply (foldl_invariant (fun s => quiet st s)); [| apply quiet_refl].
    intros s y Hs. unfold pass1Row.
    apply (foldl_invariant (fun s' => quiet st s')); [| exact Hs].
    intros s' x Hs'. eapply quiet_trans; [exact Hs' | apply pass1Cell_quiet]. }
  eapply quiet_trans; [exact H1 |].
  unfold pass2.
  apply (foldl_invariant (fun s => quiet (pass1 materials st) s)); [| apply quiet_refl].
  intros s y Hs. unfold pass2Row.
  apply (foldl_invariant (fun s' => quiet (pass1 materials st) s')); [| exact Hs].
  intros s' x Hs'. eapply quiet_trans; [exact Hs' |].
  destruct (pass2Cell_frame y s' x) as [Ha Hb]. apply quiet_of_frame; assumption.
Qed.


(** ** The brush *)


Lemma lookup_ta_set_cases {A : Type} (l : list A) (i : Z) (v : A) (k : nat) :
  0 <= i ->
  ta_set l i v !! k = l !! k
  \/ (Z.of_nat k = i /\ ta_set l i v !! k = Some v).
Proof.
  intros Hi. unfold ta_set. destruct (Z.ltb_spec i 0); [lia |].
  destruct (decide (k = Z.to_nat i)) as [-> | Hne].
  - destruct (decide (Z.to_nat i < length l)%nat).
    + right. split; [lia | by apply list_lookup_insert_eq].
    + left. rewrite list_insert_ge by lia. reflexivity.
  - left. by apply list_lookup_insert_ne.
Qed.

Lemma idx_in_grid st (x y : Z) :
  0 <= x < gridW st -> 0 <= y < gridH st ->
  0 <= idx st x y < gridW st * gridH st.
Proof. unfold idx. intros Hx Hy. nia. Qed.

Lemma idx_injective st (x y x' y' : Z) :
  0 <= x < gridW st -> 0 <= x' < gridW st ->
  idx st x y = idx st x' y' -> x = x' /\ y = y'.
Proof.
  unfold idx. intros Hx Hx' E.
  assert (y = y') by nia. subst y'. split; [lia | reflexivity].
Qed.

(** One turn of the brush loops either leaves both arrays alone or stores
    the painted values at one cell inside the grid and inside the disk. *)
Lemma brushCell_effect (b : Brush) (cur : string) (gx gy : Z) st (d : Z * Z) :
  let st' := brushCell materials random b cur gx gy st d in
  sameShape st st'
  /\ worldMeta st' = worldMeta st
  /\ ((worldMat st' = worldMat st /\ worldTemp st' = worldTemp st)
      \/ exists x y : Z,
           0 <= x < gridW st /\ 0 <= y < gridH st
           /\ (x - gx) * (x - gx) + (y - gy) * (y - gy) <= size b * size b
           /\ worldMat st' = ta_set (worldMat st) (idx st x y) (paintIndex materials cur)
           /\ worldTemp st' = ta_set (worldTemp st) (idx st x y) (paintTemp materials cur)).
Proof.
  assert (forall s : App (T := T),
             sameShape st s -> worldMeta s = worldMeta st ->
             worldMat s = worldMat st -> worldTemp s = worldTemp st ->
             sameShape st s /\ worldMeta s = worldMeta st
             /\ ((worldMat s = worldMat st /\ worldTemp s = worldTemp st)
                 \/ exists x y : Z,
                      0 <= x < gridW st /\ 0 <= y < gridH st
                      /\ (x - gx) * (x - gx) + (y - gy) * (y - gy) <= size b * size b
                      /\ worldMat s = ta_set (worldMat st) (idx st x y) (paintIndex materials cur)
                      /\ worldTemp s = ta_set (worldTemp st) (idx st x y) (paintTemp materials cur)))
    as Hskip by (intros s Hs Hm Ha Ht; auto).
  destruct d as [dx dy]. unfold brushCell. cbv zeta.
  destruct ((gx + dx <? 0) || (gy + dy <? 0) || (gridW st <=? gx + dx)
            || (gridH st <=? gy + dy)) eqn:Hout;
    [apply Hskip; auto with frame |].
  destruct (size b * size b <? dx * dx + dy * dy) eqn:Hdisk;
    [apply Hskip; auto with frame |].
  unfold mathRandom.
  destruct (brushHit b dx dy _);
    [| apply Hskip; try reflexivity; repeat split].
  clear Hskip.
  rewrite !orb_false_iff, !Z.ltb_ge, !Z.leb_gt in Hout.
  rewrite Z.ltb_ge in Hdisk.
  split; [| split].
  - eapply sameShape_trans; [| apply markChunk_shape].
    repeat split; simpl; rewrite ?length_ta_set; reflexivity.
  - destruct (markChunk_heat (gx + dx) (gy + dy)
                (writeTemp (idx (writeMat (idx (set_drawn (S (drawn st)) st) (gx + dx) (gy + dy))
                                  (js_or (getMatIndex materials cur) (getMatIndex materials "EMPTY"))
                                  (set_drawn (S (drawn st)) st)) (gx + dx) (gy + dy))
                           (brushTemp materials cur)
                           (writeMat (idx (set_drawn (S (drawn st)) st) (gx + dx) (gy + dy))
                                  (js_or (getMatIndex materials cur) (getMatIndex materials "EMPTY"))
                                  (set_drawn (S (drawn st)) st)))) as [_ E].
    rewrite E. reflexivity.
  - right. exists (gx + dx), (gy + dy).
    replace (gx + dx - gx) with dx by lia.
    replace (gy + dy - gy) with dy by lia.
    rewrite markChunk_worldMat, markChunk_worldTemp.
    repeat split; try lia.
Qed.

Lemma brushFrame_refl st radius cur gx gy : brushFrame materials st st radius cur gx gy.
Proof.
  split; [apply sameShape_refl |]. split; [reflexivity |].
  intros k. split; left; reflexivity.
Qed.

Lemma brushFrame_step (b : Brush) (cur : string) (gx gy : Z) st st1 (d : Z * Z) :
  brushFrame materials st st1 (size b) cur gx gy ->
  brushFrame materials st (brushCell materials random b cur gx gy st1 d)
             (size b) cur gx gy.
Proof.
  intros (Hs & Hm & Hk).
  pose proof (brushCell_effect b cur gx gy st1 d) as (Hs1 & Hm1 & Hcase).
  cbv zeta in Hs1, Hm1, Hcase.
  split; [eapply sameShape_trans; eassumption |].
  split; [congruence |].
  destruct Hcase as [[Em Et] | (x & y & Hx & Hy & Hd & Em & Et)].
  - intros k. rewrite Em, Et. apply Hk.
  - destruct Hs as (Hw & Hh & _).
    rewrite Hw in Hx. rewrite Hh in Hy.
    assert (idx st1 x y = idx st x y) as Ei by (unfold idx; rewrite Hw; reflexivity).
    rewrite Ei in Em, Et.
    pose proof (idx_in_grid st x y Hx Hy) as Hi.
    intros k. destruct (Hk k) as [Hkm Hkt].
    rewrite Em, Et. split.
    + destruct (lookup_ta_set_cases (worldMat st1) (idx st x y)
                  (paintIndex materials cur) k) as [E | [E1 E2]]; [lia | |].
      * rewrite E. exact Hkm.
      * right. split; [| exact E2]. exists x, y. repeat split; lia.
    + destruct (lookup_ta_set_cases (worldTemp st1) (idx st x y)
                  (paintTemp materials cur) k) as [E | [E1 E2]]; [lia | |].
      * rewrite E. exact Hkt.
      * right. split; [| exact E2]. exists x, y. repeat split; lia.
Qed.

Lemma drawBrushAt_frame (b : Brush) (cur : string) (gx gy : Z) st :
  brushFrame materials st (drawBrushAt materials random b cur gx gy st)
             (size b) cur gx gy.
Proof.
  unfold drawBrushAt.
  apply (foldl_invariant (fun s => brushFrame materials st s (size b) cur gx gy)).
  - intros s d Hs. apply brushFrame_step, Hs.
  - apply brushFrame_refl.
Qed.

(** C9.  For every brush (any radius, hard or soft), every material id,
    every centre [(gx,gy)] and every stream of samples: each turn of the
    brush loops either stores nothing in the material and temperature
    arrays or stores at the one index [idx(x,y)] of a cell [(x,y)] inside
    [[0,gridW) x [0,gridH)] and inside the brush disk, an index between 0
    and [gridW * gridH]; and the whole stroke keeps the grid dimensions, the
    lengths of all arrays and the flags array, and leaves every entry of
    the material and temperature arrays unchanged unless it is the entry of
    such a cell.  The stores are total, so nothing is thrown. *)
Theorem brush_stays_in_grid (b : Brush) (cur : string) (gx gy : Z) st :
  (forall s (d : Z * Z),
      (worldMat (brushCell materials random b cur gx gy s d) = worldMat s
       /\ worldTemp (brushCell materials random b cur gx gy s d) = worldTemp s)
      \/ exists x y : Z,
           0 <= x < gridW s /\ 0 <= y < gridH s
           /\ (x - gx) * (x - gx) + (y - gy) * (y - gy) <= size b * size b
           /\ 0 <= idx s x y < gridW s * gridH s
           /\ worldMat (brushCell materials random b cur gx gy s d)
              = ta_set (worldMat s) (idx s x y) (paintIndex materials cur)
           /\ worldTemp (brushCell materials random b cur gx gy s d)
              = ta_set (worldTemp s) (idx s x y) (paintTemp materials cur))
  /\ gridW (drawBrushAt materials random b cur gx gy st) = gridW st
  /\ gridH (drawBrushAt materials random b cur gx gy st) = gridH st
  /\ length (worldMat (drawBrushAt materials random b cur gx gy st))
     = length (worldMat st)
  /\ length (worldTemp (drawBrushAt materials random b cur gx gy st))
     = length (worldTemp st)
  /\ length (dirtyChunks (drawBrushAt materials random b cur gx gy st))
     = length (dirtyChunks st)
  /\ worldMeta (drawBrushAt materials random b cur gx gy st) = worldMeta st
  /\ forall k : nat,
       (worldMat (drawBrushAt materials random b cur gx gy st) !! k
        = worldMat st !! k
        /\ worldTemp (drawBrushAt materials random b cur gx gy st) !! k
           = worldTemp st !! k)
       \/ inBrush st (size b) gx gy k.
Proof.
  split.
  - intros s d.
    destruct (brushCell_effect b cur gx gy s d) as (_ & _ & Hcase).
    cbv zeta in Hcase.
    destruct Hcase as [Hsame | (x & y & Hx & Hy & Hd & Em & Et)]; [left; exact Hsame |].
    right. exists x, y.
    pose proof (idx_in_grid s x y Hx Hy) as Hi.
    repeat (split; [assumption |]). assumption.
  - destruct (drawBrushAt_frame b cur gx gy st)
      as ((Hw & Hh & _ & _ & Hlm & Hlt & Hld & _) & Hmeta & Hk).
    repeat (split; [assumption |]).
    intros k. destruct (Hk k) as [[Em | [Hin _]] [Et | [Hin' _]]]; auto.
Qed.


(** A hard brush whose sample is below 1 paints the cell of an offset that
    is inside the grid and inside the disk. *)
Lemma brushCell_paints (b : Brush) (cur : string) (gx gy dx dy : Z) st :
  soft b = false ->
  Qltb (random (drawn st)) 1 = true ->
  0 <= gx + dx < gridW st -> 0 <= gy + dy < gridH st ->
  dx * dx + dy * dy <= size b * size b ->
  worldMat (brushCell materials random b cur gx gy st (dx, dy))
  = ta_set (worldMat st) (idx st (gx + dx) (gy + dy)) (paintIndex materials cur).
Proof.
  intros Hhard Hu Hx Hy Hd. unfold brushCell.
  assert ((gx + dx <? 0) || (gy + dy <? 0) || (gridW st <=? gx + dx)
          || (gridH st <=? gy + dy) = false) as ->.
  { rewrite !orb_false_iff, !Z.ltb_ge, !Z.leb_gt. lia. }
  assert ((size b * size b <? dx * dx + dy * dy) = false) as ->
    by (rewrite Z.ltb_ge; lia).
  unfold mathRandom, brushHit. rewrite Hhard, Hu.
  rewrite markChunk_worldMat. reflexivity.
Qed.

Lemma offset_in_brush (radius dx dy : Z) :
  dx * dx + dy * dy <= radius * radius -> 0 <= radius ->
  (dx, dy) ∈ brushOffsets radius.
Proof.
  intros Hd Hr. unfold brushOffsets.
  apply list_elem_of_bind. exists dy. split.
  - apply list_elem_of_bind. exists dx. split; [apply list_elem_of_singleton; reflexivity |].
    apply elem_of_seqZ. nia.
  - apply elem_of_seqZ. nia.
Qed.

(** Once a cell holds the painted index, the rest of the brush loops keep
    it. *)
Lemma painted_stays (b : Brush) (cur : string) (gx gy : Z) (k : nat)
    (l : list (Z * Z)) st :
  worldMat st !! k = Some (paintIndex materials cur) ->
  worldMat (foldl (brushCell materials random b cur gx gy) st l) !! k
  = Some (paintIndex materials cur).
Proof.
  revert st. induction l as [| d l IH]; intros st Hk; simpl; [exact Hk |].
  apply IH.
  pose proof (brushCell_effect b cur gx gy st d) as (_ & _ & Hcase).
  cbv zeta in Hcase.
  destruct Hcase as [[Em _] | (x & y & Hx & Hy & _ & Em & _)]; rewrite Em.
  - exact Hk.
  - pose proof (idx_in_grid st x y Hx Hy) as Hi.
    destruct (lookup_ta_set_cases (worldMat st) (idx st x y)
                (paintIndex materials cur) k) as [E | [_ E]]; [lia | |].
    + rewrite E. exact Hk.
    + exact E.
Qed.

(** A hard brush with samples below 1 paints every cell of the grid that
    lies in its disk. *)
Lemma hard_brush_paints_disk (b : Brush) (cur : string) (gx gy x y : Z) st :
  soft b = false ->
  (forall n, Qltb (random n) 1 = true) ->
  length (worldMat st) = Z.to_nat (gridW st * gridH st) ->
  0 <= size b ->
  0 <= x < gridW st -> 0 <= y < gridH st ->
  (x - gx) * (x - gx) + (y - gy) * (y - gy) <= size b * size b ->
  matAt (drawBrushAt materials random b cur gx gy st) (idx st x y)
  = JNumber (paintIndex materials cur).
Proof.
  intros Hhard Hu Hlen Hr Hx Hy Hd.
  pose proof (idx_in_grid st x y Hx Hy) as Hi.
  destruct (list_elem_of_split _ _ (offset_in_brush (size b) (x - gx) (y - gy) Hd Hr))
    as (l1 & l2 & Hl).
  unfold drawBrushAt. rewrite Hl, foldl_app. cbn [foldl].
  set (s1 := foldl (brushCell materials random b cur gx gy) st l1).
  assert (brushFrame materials st s1 (size b) cur gx gy) as Hf.
  { apply (foldl_invariant (fun s => brushFrame materials st s (size b) cur gx gy)).
    - intros s d Hs. apply brushFrame_step, Hs.
    - apply brushFrame_refl. }
  destruct Hf as ((Hw & Hh & _ & _ & Hlm & _) & _).
  unfold matAt, ta_get. destruct (Z.ltb_spec (idx st x y) 0); [lia |].
  rewrite painted_stays; [reflexivity |].
  rewrite (brushCell_paints b cur gx gy (x - gx) (y - gy) s1 Hhard (Hu _));
    try (rewrite ?Hw, ?Hh; lia).
  replace (gx + (x - gx)) with x by lia.
  replace (gy + (y - gy)) with y by lia.
  assert (idx s1 x y = idx st x y) as -> by (unfold idx; rewrite Hw; reflexivity).
  apply lookup_ta_set. lia.
Qed.

(** ** Writing an unregistered id *)





(** ** Dirty chunks *)

Lemma ta_get_set_ne {A : Type} (l : list A) (i j : Z) (v : A) :
  i <> j -> ta_get (ta_set l i v) j = ta_get l j.
Proof.
  intros Hne. unfold ta_get, ta_set.
  destruct (Z.ltb_spec j 0); [reflexivity |].
  destruct (Z.ltb_spec i 0); [reflexivity |].
  apply list_lookup_insert_ne. lia.
Qed.

Lemma ta_get_set_eq {A : Type} (l : list A) (i : Z) (u v : A) :
  ta_get l i = Some u -> ta_get (ta_set l i v) i = Some v.
Proof.
  unfold ta_get, ta_set. destruct (Z.ltb_spec i 0); [discriminate |].
  intros Hu. apply list_lookup_insert_eq. eapply lookup_lt_Some, Hu.
Qed.

Lemma ta_get_cleared (l : list bool) (i j : Z) :
  ta_get (ta_set l i false) j = Some true ->
  ta_get l j = Some true /\ j <> i.
Proof.
  intros Hg. destruct (decide (i = j)) as [-> | Hne].
  - exfalso. destruct (ta_get l j) as [u |] eqn:E.
    + rewrite (ta_get_set_eq l j u false E) in Hg. discriminate.
    + unfold ta_get, ta_set in *. destruct (j <? 0); [discriminate |].
      rewrite list_insert_ge in Hg by (apply lookup_ge_None; exact E).
      congruence.
  - rewrite ta_get_set_ne in Hg by assumption. split; [exact Hg | congruence].
Qed.

Lemma filter_ext_elem {A : Type} (P Q : A -> Prop)
    `{!forall x, Decision (P x)} `{!forall x, Decision (Q x)} (l : list A) :
  (forall x, x ∈ l -> P x <-> Q x) -> filter P l = filter Q l.
Proof.
  induction l as [| x l IH]; intros Hpq; [reflexivity |].
  rewrite !filter_cons.
  assert (filter P l = filter Q l) as ->
    by (apply IH; intros y Hy; apply Hpq; by right).
  pose proof (Hpq x (list_elem_of_here x l)) as Hx.
  destruct (decide (P x)), (decide (Q x)); tauto.
Qed.

Lemma filter_all {A : Type} (P : A -> Prop) `{!forall x, Decision (P x)} (l : list A) :
  (forall x, x ∈ l -> P x) -> filter P l = l.
Proof.
  induction l as [| x l IH]; intros Hp; [reflexivity |].
  rewrite filter_cons_True by (apply Hp; by left).
  f_equal. apply IH. intros y Hy. apply Hp. by right.
Qed.

Lemma filter_none {A : Type} (P : A -> Prop) `{!forall x, Decision (P x)} (l : list A) :
  (forall x, x ∈ l -> ~ P x) -> filter P l = [].
Proof.
  induction l as [| x l IH]; intros Hp; [reflexivity |].
  rewrite filter_cons_False by (apply Hp; by left).
  apply IH. intros y Hy. apply Hp. by right.
Qed.

Lemma filter_only {A : Type} (P : A -> Prop) `{!forall x, Decision (P x)}
    (l : list A) (x0 : A) :
  NoDup l -> x0 ∈ l -> (forall x, x ∈ l -> P x <-> x = x0) ->
  filter P l = [x0].
Proof.
  induction l as [| x l IH]; intros Hnd Hin Hp; [by apply elem_of_nil in Hin |].
  apply NoDup_cons in Hnd as [Hx Hnd].
  destruct (decide (P x)) as [Hpx | Hpx].
  - rewrite filter_cons_True by exact Hpx.
    apply Hp in Hpx as ->; [| by left].
    f_equal. apply filter_none. intros y Hy Hpy.
    apply Hp in Hpy; [| by right]. congruence.
  - rewrite filter_cons_False by exact Hpx.
    apply IH; [assumption | | intros y Hy; apply Hp; by right].
    apply elem_of_cons in Hin as [-> | Hin]; [| assumption].
    exfalso. apply Hpx, Hp; [by left | reflexivity].
Qed.

Lemma renderChunk_unfold (painted : list (Z * Z)) st (c : Z * Z) :
  renderChunk (painted, st) c
  = match ta_get (dirtyChunks st) (chunkIndex st c) with
    | Some true =>
        (painted ++ [c],
         set_dirtyChunks (ta_set (dirtyChunks st) (chunkIndex st c) false) st)
    | _ => (painted, st)
    end.
Proof. destruct c as [cx cy]. reflexivity. Qed.

(** The chunk loop over any list of distinct chunks with distinct flag
    positions: the chunks reported are the dirty ones, in order; afterwards
    none of the listed chunks is dirty, no flag has been set, and nothing
    but the flags has changed. *)
Lemma renderChunk_fold (cs : list (Z * Z)) :
  forall (painted : list (Z * Z)) st,
    NoDup cs ->
    (forall c c', c ∈ cs -> c' ∈ cs ->
                  chunkIndex st c = chunkIndex st c' -> c = c') ->
    fst (foldl renderChunk (painted, st) cs)
    = painted ++ filter (chunkDirty st) cs
    /\ sameShape st (snd (foldl renderChunk (painted, st) cs))
    /\ sameCells st (snd (foldl renderChunk (painted, st) cs))
    /\ (forall c, c ∈ cs ->
                  ~ chunkDirty (snd (foldl renderChunk (painted, st) cs)) c)
    /\ (forall c, chunkDirty (snd (foldl renderChunk (painted, st) cs)) c ->
                  chunkDirty st c).
Proof.
  induction cs as [| c cs IH]; intros painted st Hnd Hinj.
  - simpl. rewrite app_nil_r.
    repeat split; auto using sameShape_refl.
    intros c Hc. by apply elem_of_nil in Hc.
  - apply NoDup_cons in Hnd as [Hc Hnd].
    cbn [foldl]. rewrite renderChunk_unfold. destruct c as [cx cy].
    destruct (ta_get (dirtyChunks st) (chunkIndex st (cx, cy))) as [[|] |] eqn:Hflag.
    + set (st1 := set_dirtyChunks
                    (ta_set (dirtyChunks st) (chunkIndex st (cx, cy)) false) st).
      assert (forall c', chunkIndex st1 c' = chunkIndex st c') as Hidx
        by reflexivity.
      assert (forall c', chunkDirty st1 c' ->
                         chunkDirty st c'
                         /\ chunkIndex st c' <> chunkIndex st (cx, cy)) as Hmono.
      { intros c' Hd. unfold chunkDirty in Hd. rewrite Hidx in Hd.
        apply ta_get_cleared in Hd. exact Hd. }
      destruct (IH (painted ++ [(cx, cy)]) st1 Hnd) as (Hp & Hs & Hcells & Hclean & Hsub).
      { intros c1 c2 H1 H2. rewrite !Hidx. apply Hinj; by right. }
      split; [| split; [| split; [| split]]].
      * rewrite Hp, <- app_assoc. f_equal.
        rewrite filter_cons_True by exact Hflag. simpl. f_equal.
        apply filter_ext_elem. intros c' Hc'. split.
        -- intros Hd. apply Hmono, Hd.
        -- intros Hd. unfold chunkDirty. rewrite Hidx. simpl.
           rewrite ta_get_set_ne; [exact Hd |].
           intros E. apply Hc.
           rewrite (Hinj (cx, cy) c'); [assumption | by left | by right | exact E].
      * eapply sameShape_trans; [| exact Hs].
        repeat split; simpl. apply length_ta_set.
      * destruct Hcells as (E1 & E2 & E3). repeat split; assumption.
      * intros c' Hc' Hd. apply elem_of_cons in Hc' as [-> | Hc'].
        -- apply Hsub, Hmono in Hd. destruct Hd as [_ Hd]. congruence.
        -- exact (Hclean c' Hc' Hd).
      * intros c' Hd. apply Hsub, Hmono in Hd. apply Hd.
    + destruct (IH painted st Hnd) as (Hp & Hs & Hcells & Hclean & Hsub).
      { intros c1 c2 H1 H2. apply Hinj; by right. }
      split; [| split; [exact Hs | split; [exact Hcells | split; [| exact Hsub]]]].
      * rewrite Hp. f_equal.
        rewrite filter_cons_False; [reflexivity |].
        unfold chunkDirty. rewrite Hflag. discriminate.
      * intros c' Hc' Hd. apply elem_of_cons in Hc' as [-> | Hc'].
        -- apply Hsub in Hd. unfold chunkDirty in Hd. congruence.
        -- exact (Hclean c' Hc' Hd).
    + destruct (IH painted st Hnd) as (Hp & Hs & Hcells & Hclean & Hsub).
      { intros c1 c2 H1 H2. apply Hinj; by right. }
      split; [| split; [exact Hs | split; [exact Hcells | split; [| exact Hsub]]]].
      * rewrite Hp. f_equal.
        rewrite filter_cons_False; [reflexivity |].
        unfold chunkDirty. rewrite Hflag. discriminate.
      * intros c' Hc' Hd. apply elem_of_cons in Hc' as [-> | Hc'].
        -- apply Hsub in Hd. unfold chunkDirty in Hd. congruence.
        -- exact (Hclean c' Hc' Hd).
Qed.


Lemma elem_chunkCoords st (c : Z * Z) :
  c ∈ chunkCoords st
  <-> (0 <= fst c < chunksX st /\ 0 <= snd c < chunksY st).
Proof.
  unfold chunkCoords. rewrite list_elem_of_bind. split.
  - intros (cy & Hin & Hcy). apply list_elem_of_bind in Hin as (cx & Hin & Hcx).
    apply list_elem_of_singleton in Hin as ->.
    apply elem_of_seqZ in Hcx, Hcy. simpl. lia.
  - intros [Hx Hy]. exists (snd c). split; [| apply elem_of_seqZ; lia].
    apply list_elem_of_bind. exists (fst c). split; [| apply elem_of_seqZ; lia].
    destruct c. apply list_elem_of_singleton. reflexivity.
Qed.

Lemma NoDup_chunkCoords st : NoDup (chunkCoords st).
Proof.
  unfold chunkCoords. apply NoDup_bind; [| | apply NoDup_seqZ].
  - intros cy1 cy2 c _ _ H1 H2.
    apply list_elem_of_bind in H1 as (cx1 & H1 & _).
    apply list_elem_of_bind in H2 as (cx2 & H2 & _).
    apply list_elem_of_singleton in H1, H2. congruence.
  - intros cy _. apply NoDup_bind; [| | apply NoDup_seqZ].
    + intros cx1 cx2 c _ _ H1 H2.
      apply list_elem_of_singleton in H1, H2. congruence.
    + intros cx _. apply NoDup_singleton.
Qed.

Lemma chunkIndex_inj st (c c' : Z * Z) :
  c ∈ chunkCoords st -> c' ∈ chunkCoords st ->
  chunkIndex st c = chunkIndex st c' -> c = c'.
Proof.
  rewrite !elem_chunkCoords. unfold chunkIndex.
  destruct c as [cx cy], c' as [cx' cy']. simpl. intros Hc Hc' E.
  assert (cy = cy') by nia. subst cy'. f_equal. lia.
Qed.

Lemma chunkIndex_range st (c : Z * Z) :
  c ∈ chunkCoords st -> 0 <= chunkIndex st c < chunksX st * chunksY st.
Proof. rewrite elem_chunkCoords. unfold chunkIndex. intros Hc. nia. Qed.

(** [render] reports exactly the dirty chunks, leaves none of them dirty,
    sets no flag and touches nothing but the flags. *)
Lemma render_spec st :
  fst (render st) = filter (chunkDirty st) (chunkCoords st)
  /\ sameShape st (snd (render st))
  /\ sameCells st (snd (render st))
  /\ (forall c, c ∈ chunkCoords st -> ~ chunkDirty (snd (render st)) c).
Proof.
  destruct (renderChunk_fold (chunkCoords st) [] st (NoDup_chunkCoords st))
    as (Hp & Hs & Hc & Hclean & _).
  { intros c c'. apply chunkIndex_inj. }
  unfold render.
  split; [exact Hp | split; [exact Hs | split; [exact Hc | exact Hclean]]].
Qed.

Lemma chunkCoords_ext st st' :
  sameShape st st' -> chunkCoords st' = chunkCoords st.
Proof. intros (_ & _ & Hx & Hy & _). unfold chunkCoords. rewrite Hx, Hy. reflexivity. Qed.

(** A second [render] straight after a first one finds no dirty chunk. *)
Lemma render_twice st : fst (render (snd (render st))) = [].
Proof.
  destruct (render_spec st) as (_ & Hs & _ & Hclean).
  destruct (render_spec (snd (render st))) as (-> & _).
  apply filter_none. intros c Hc. apply Hclean.
  rewrite <- (chunkCoords_ext st _ Hs). exact Hc.
Qed.

Lemma chunkOf_in_grid (w h x y : Z) :
  0 <= x < w -> 0 <= y < h ->
  0 <= fst (chunkOf x y) < Z.max 1 (ceil_div w chunkSize)
  /\ 0 <= snd (chunkOf x y) < Z.max 1 (ceil_div h chunkSize).
Proof.
  unfold chunkOf, ceil_div, floor_div, chunkSize. simpl. intros Hx Hy.
  Z.div_mod_to_equations. lia.
Qed.

(** A cell write on a world without dirty chunks dirties exactly the chunk
    of the cell. *)
Lemma setMatAt_dirties_chunk (x y : Z) (id0 : string) st :
  0 <= x < gridW st -> 0 <= y < gridH st ->
  chunkOf x y ∈ chunkCoords st ->
  length (dirtyChunks st) = Z.to_nat (chunksX st * chunksY st) ->
  (forall c, c ∈ chunkCoords st -> ~ chunkDirty st c) ->
  fst (render (setMatAt materials x y id0 st)) = [chunkOf x y].
Proof.
  intros Hx Hy Hin Hlen Hclean.
  set (st' := setMatAt materials x y id0 st).
  assert (sameShape st st'
          /\ dirtyChunks st'
             = ta_set (dirtyChunks st) (chunkIndex st (chunkOf x y)) true)
    as [Hs Hflags].
  { subst st'. unfold setMatAt.
    assert ((x <? 0) || (gridW st <=? x) || (y <? 0) || (gridH st <=? y) = false)
      as -> by (rewrite !orb_false_iff, !Z.ltb_ge, !Z.leb_gt; lia).
    apply elem_chunkCoords in Hin. unfold chunkOf in Hin. simpl in Hin.
    unfold markChunkDirtyForCell. simpl.
    assert ((floor_div x chunkSize <? 0)
            || (chunksX st <=? floor_div x chunkSize)
            || (floor_div y chunkSize <? 0)
            || (chunksY st <=? floor_div y chunkSize) = false)
      as -> by (rewrite !orb_false_iff, !Z.ltb_ge, !Z.leb_gt; lia).
    split; [| reflexivity].
    repeat split; simpl; apply length_ta_set. }
  destruct (render_spec st') as (-> & _).
  rewrite (chunkCoords_ext st st' Hs).
  pose proof (chunkIndex_range st _ Hin) as Hr.
  assert (forall c, chunkIndex st' c = chunkIndex st c) as Hidx.
  { intros c. unfold chunkIndex. destruct Hs as (_ & _ & -> & _). reflexivity. }
  apply filter_only; [apply NoDup_chunkCoords | exact Hin |].
  intros c Hc. unfold chunkDirty. rewrite Hidx, Hflags. split.
  - intros Hd.
    destruct (decide (chunkIndex st (chunkOf x y) = chunkIndex st c)) as [E | Hne].
    + symmetry. apply (chunkIndex_inj st); assumption.
    + rewrite ta_get_set_ne in Hd by assumption.
      exfalso. exact (Hclean c Hc Hd).
  - intros ->. unfold ta_get.
    destruct (Z.ltb_spec (chunkIndex st (chunkOf x y)) 0); [lia |].
    apply lookup_ta_set. lia.
Qed.

(** C8.  After [allocateWorld(w,h)] every chunk flag is set and the first
    [render] reports all chunks; a second [render] right after it reports
    none; and after one [setMatAt] on a cell inside the grid, [render]
    reports exactly the chunk that contains the cell, once: the next
    [render] reports nothing again. *)
Theorem dirty_tracking (w h : Z) st0 :
  0 <= w -> 0 <= h ->
  exists st1,
    allocateWorld materials w h st0 = Normal st1
    /\ Forall (eq true) (dirtyChunks st1)
    /\ fst (render st1) = chunkCoords st1
    /\ fst (render (snd (render st1))) = []
    /\ forall (x y : Z) (id0 : string),
         0 <= x < w -> 0 <= y < h ->
         chunkOf x y ∈ chunkCoords st1
         /\ chunkSize * fst (chunkOf x y) <= x < chunkSize * (fst (chunkOf x y) + 1)
         /\ chunkSize * snd (chunkOf x y) <= y < chunkSize * (snd (chunkOf x y) + 1)
         /\ fst (render (setMatAt materials x y id0 (snd (render st1))))
            = [chunkOf x y]
         /\ fst (render (snd (render
                   (setMatAt materials x y id0 (snd (render st1))))))
            = [].
Proof.
  intros Hw Hh. unfold allocateWorld.
  destruct (Z.ltb_spec (w * h) 0) as [Hneg | _]; [nia |].
  eexists. split; [reflexivity |].
  set (X := Z.max 1 (ceil_div w chunkSize)).
  set (Y := Z.max 1 (ceil_div h chunkSize)).
  set (st1 := markAllDirty _).
  assert (dirtyChunks st1 = replicate (Z.to_nat (X * Y)) true) as Hflags
    by (subst st1; unfold markAllDirty; simpl; rewrite length_replicate; reflexivity).
  assert (chunksX st1 = X /\ chunksY st1 = Y /\ gridW st1 = w /\ gridH st1 = h)
    as (HX & HY & HW & HH) by (subst st1; repeat split).
  split; [rewrite Hflags; apply Forall_replicate; reflexivity |].
  split; [| split; [apply render_twice |]].
  - destruct (render_spec st1) as (-> & _).
    apply filter_all. intros c Hc.
    pose proof (chunkIndex_range st1 c Hc) as Hr. rewrite HX, HY in Hr.
    unfold chunkDirty, ta_get.
    destruct (Z.ltb_spec (chunkIndex st1 c) 0); [lia |].
    rewrite Hflags. apply lookup_replicate_2. lia.
  - intros x y id0 Hx Hy.
    destruct (render_spec st1) as (_ & Hs & _ & Hclean).
    pose proof Hs as (Hw2 & Hh2 & HX2 & HY2 & _ & _ & Hlen2 & _).
    assert (chunkOf x y ∈ chunkCoords st1) as Hin.
    { apply elem_chunkCoords. rewrite HX, HY. apply (chunkOf_in_grid w h); assumption. }
    split; [exact Hin |].
    split; [unfold chunkOf, floor_div, chunkSize; simpl;
            Z.div_mod_to_equations; lia |].
    split; [unfold chunkOf, floor_div, chunkSize; simpl;
            Z.div_mod_to_equations; lia |].
    split; [| apply render_twice].
    apply setMatAt_dirties_chunk.
    + rewrite Hw2, HW. exact Hx.
    + rewrite Hh2, HH. exact Hy.
    + rewrite (chunkCoords_ext st1 _ Hs). exact Hin.
    + rewrite Hlen2, HX2, HY2, Hflags, length_replicate, HX, HY. reflexivity.
    + intros c Hc. apply Hclean. rewrite <- (chunkCoords_ext st1 _ Hs). exact Hc.
Qed.


(** ** Loading a world *)

Lemma allocateWorld_ok (w h : Z) st :
  0 <= w * h ->
  exists st1,
    allocateWorld materials w h st = Normal st1
    /\ gridW st1 = w /\ gridH st1 = h
    /\ worldMat st1 = replicate (Z.to_nat (w * h)) (fillIndex materials)
    /\ worldTemp st1 = replicate (Z.to_nat (w * h)) (t_fround (t_lit 20)).
Proof.
  intros Hn. unfold allocateWorld.
  destruct (Z.ltb_spec (w * h) 0); [lia |].
  eexists. split; [reflexivity |]. repeat split.
Qed.


Lemma repaint_cells st :
  gridW (snd (render (markAllDirty st))) = gridW st
  /\ gridH (snd (render (markAllDirty st))) = gridH st
  /\ worldMat (snd (render (markAllDirty st))) = worldMat st
  /\ worldTemp (snd (render (markAllDirty st))) = worldTemp st.
Proof.
  destruct (render_spec (markAllDirty st)) as (_ & (Hw & Hh & _) & (Hm & Ht & _) & _).
  repeat split; assumption.
Qed.

Lemma ta_setAll_replicate {A : Type} (source : list A) (v : A) (n : nat) :
  ta_setAll (replicate n v) source
  = if (n <? length source)%nat then None
    else Some (overwritePrefix source v n).
Proof.
  unfold ta_setAll, overwritePrefix. rewrite length_replicate.
  destruct (n <? length source)%nat; [reflexivity |].
  rewrite drop_replicate. reflexivity.
Qed.

(** C7, as the code has it.  The load handler never compares the array
    lengths with [w * h].  For a snapshot with non-zero [w] and [h] and a
    material array, the world is first allocated anew at [w] x [h], which
    discards the previous grid.  When both arrays have at most [w * h]
    entries the load completes: they overwrite the first entries of the
    fresh arrays, the remaining cells keep the fill index and 20 degrees,
    and a missing temperature array counts as all zeros.  When the
    material array is longer, the first [set] throws and the handler stops
    with the newly allocated world in place.  When the material array fits
    and the temperature array is longer, the second [set] throws after the
    first has run: the handler stops with the materials of the file copied
    in and every temperature still at 20. *)
Theorem load_replaces_world (p : Snapshot (T := T)) (m : list Z) st :
  snap_mat p = Some m ->
  snap_w p <> 0 -> snap_h p <> 0 ->
  0 <= snap_w p * snap_h p ->
  let n := Z.to_nat (snap_w p * snap_h p) in
  let matFits := (length m <=? n)%nat in
  let tempFits := (length (tempSource p) <=? n)%nat in
  fst (loadWorldPrompt materials p st)
  = (if matFits && tempFits then Loaded else Uncaught)
  /\ gridW (snd (loadWorldPrompt materials p st)) = snap_w p
  /\ gridH (snd (loadWorldPrompt materials p st)) = snap_h p
  /\ worldMat (snd (loadWorldPrompt materials p st))
     = (if matFits then overwritePrefix (map wrap32 m) (fillIndex materials) n
        else replicate n (fillIndex materials))
  /\ worldTemp (snd (loadWorldPrompt materials p st))
     = (if matFits && tempFits
        then overwritePrefix (tempSource p) (t_fround (t_lit 20)) n
        else replicate n (t_fround (t_lit 20))).
Proof.
  intros Hm Hw Hh Hn n matFits tempFits. subst matFits tempFits n.
  set (n := Z.to_nat (snap_w p * snap_h p)) in *.
  unfold loadWorldPrompt. rewrite Hm.
  assert ((snap_w p =? 0) || (snap_h p =? 0) = false) as Hz
    by (rewrite orb_false_iff, !Z.eqb_neq; split; assumption).
  rewrite Hz. unfold setResolution. rewrite Hz.
  destruct (allocateWorld_ok (snap_w p) (snap_h p)
              (set_grid (snap_w p) (snap_h p) st) Hn) as (s1 & -> & _).
  destruct (allocateWorld_ok (snap_w p) (snap_h p)
              (snd (render (markAllDirty s1))) Hn)
    as (s2 & -> & Hw2 & Hh2 & Hmat2 & Htemp2).
  fold n in Hmat2, Htemp2.
  rewrite Hmat2, ta_setAll_replicate, length_map.
  destruct (Nat.ltb_spec n (length m)) as [Hlong | Hshort].
  - assert ((length m <=? n)%nat = false) as -> by (apply Nat.leb_gt; lia).
    simpl. repeat split; assumption.
  - assert ((length m <=? n)%nat = true) as -> by (apply Nat.leb_le; lia).
    cbn [worldTemp set_worldMat]. rewrite Htemp2, ta_setAll_replicate.
    fold (tempSource p).
    destruct (Nat.ltb_spec n (length (tempSource p))) as [Htl | Hts].
    + assert ((length (tempSource p) <=? n)%nat = false) as ->
        by (apply Nat.leb_gt; lia).
      simpl. repeat split; assumption.
    + assert ((length (tempSource p) <=? n)%nat = true) as ->
        by (apply Nat.leb_le; lia).
      simpl.
      destruct (repaint_cells
                  (set_worldTemp
                     (overwritePrefix (tempSource p) (t_fround (t_lit 20)) n)
                     (set_worldMat
                        (overwritePrefix (map wrap32 m) (fillIndex materials) n)
                        s2)))
        as (E1 & E2 & E3 & E4).
      rewrite E1, E2, E3, E4. repeat split; assumption.
Qed.

(** A file without a material array, or with a zero [w] or [h], is the
    only one refused, and then nothing changes. *)
Lemma load_refuses_missing_fields (p : Snapshot (T := T)) st :
  snap_mat p = None \/ snap_w p = 0 \/ snap_h p = 0 ->
  loadWorldPrompt materials p st = (InvalidSave, st).
Proof.
  unfold loadWorldPrompt. intros [-> | Hz]; [reflexivity |].
  destruct (snap_mat p); [| reflexivity].
  assert ((snap_w p =? 0) || (snap_h p =? 0) = true) as ->; [| reflexivity].
  destruct Hz as [-> | ->]; simpl; [reflexivity | apply orb_true_r].
Qed.


(** In a grid one cell wide a liquid has no side to flow to: the random
    side is drawn and nothing else happens. *)
Lemma flowSideways_single_column (y : Z) (v : jsval) st :
  gridW st = 1 ->
  flowSideways materials 0 y v st = Next (snd (callRng st)).
Proof.
  intros Hw. unfold flowSideways, callRng. cbv zeta. cbn [fst snd].
  assert (gridW (set_rng (rand_next (rng st)) st) = 1) as -> by exact Hw.
  destruct (below_half (rand_next (rng st))); reflexivity.
Qed.


(** ** The temperature stage of a cell, and its place in a tick *)

Lemma lookup_ta_set_ne {A : Type} (l : list A) (i : Z) (v : A) (k : nat) :
  Z.of_nat k <> i -> ta_set l i v !! k = l !! k.
Proof.
  intros Hne. unfold ta_set. destruct (i <? 0) eqn:E; [reflexivity |].
  apply Z.ltb_ge in E. apply list_lookup_insert_ne. lia.
Qed.

Lemma tempAt_lookup (i : Z) st :
  0 <= i < Z.of_nat (length (worldTemp st)) ->
  worldTemp st !! Z.to_nat i = Some (tempAt st i).
Proof.
  intros Hi. unfold tempAt, ta_get. destruct (Z.ltb_spec i 0); [lia |].
  destruct (lookup_lt_is_Some_2 (worldTemp st) (Z.to_nat i)) as [t Ht]; [lia |].
  rewrite Ht. reflexivity.
Qed.

Lemma tempAt_written (i : Z) (t : T) st :
  0 <= i < Z.of_nat (length (worldTemp st)) ->
  tempAt (writeTemp i t st) i = t_fround t.
Proof.
  intros Hi. unfold tempAt, writeTemp, ta_get, ta_set.
  cbn [worldTemp set_worldTemp].
  destruct (Z.ltb_spec i 0); [lia |].
  rewrite list_lookup_insert_eq by lia. reflexivity.
Qed.

(** One temperature-triggered transition: the cell holds the rounded new
    temperature, the array keeps its length and its other entries. *)
Lemma transition_temp (x y i : Z) (v : jsval) (t : T) st :
  0 <= i < Z.of_nat (length (worldTemp st)) ->
  tempAt (markChunkDirtyForCell x y (writeTemp i t (writeMat i v st))) i
  = t_fround t
  /\ 0 <= i < Z.of_nat (length (worldTemp (markChunkDirtyForCell x y
                                             (writeTemp i t (writeMat i v st))))).
Proof.
  intros Hi. unfold tempAt. rewrite markChunk_worldTemp.
  split.
  - apply (tempAt_written i t (writeMat i v st)). exact Hi.
  - unfold writeTemp. cbn [worldTemp set_worldTemp set_worldMat writeMat].
    rewrite length_ta_set. exact Hi.
Qed.

Lemma transition_other (x y i : Z) (v : jsval) (t : T) st (k : nat) :
  Z.of_nat k <> i ->
  worldTemp (markChunkDirtyForCell x y (writeTemp i t (writeMat i v st))) !! k
  = worldTemp st !! k.
Proof.
  intros Hne. rewrite markChunk_worldTemp. unfold writeTemp.
  cbn [worldTemp set_worldTemp set_worldMat writeMat].
  apply lookup_ta_set_ne, Hne.
Qed.

(** The temperature the transitions leave in the cell they run on. *)
Lemma thermalReactions_temp (x y : Z) (v : jsval) mat st :
  0 <= idx st x y < Z.of_nat (length (worldTemp st)) ->
  tempAt (thermalReactions materials x y v mat st) (idx st x y)
  = afterTransitions materials mat (tempAt st (idx st x y))
  /\ 0 <= idx st x y
     < Z.of_nat (length (worldTemp (thermalReactions materials x y v mat st))).
Proof.
  intros Hi. unfold thermalReactions, afterTransitions, t_gt. cbv zeta.
  set (i := idx st x y) in *.
  set (c1 := String.eqb (mat_id mat) "WATER" && t_lt (t_lit 100) (tempAt st i)).
  set (st1 := if c1 then _ else st).
  set (d1 := if c1 then _ else tempAt st i).
  assert (tempAt st1 i = d1 /\ 0 <= i < Z.of_nat (length (worldTemp st1)))
    as [E1 Hi1].
  { subst st1 d1. destruct c1; [| split; [reflexivity | exact Hi]].
    apply (transition_temp x y i _ _ st Hi). }
  rewrite E1. clearbody st1 d1. clear c1.
  set (st2 := if String.eqb (mat_id mat) "LAVA" then _ else st1).
  set (d2 := if String.eqb (mat_id mat) "LAVA" && _ then _ else d1).
  assert (tempAt st2 i = d2 /\ 0 <= i < Z.of_nat (length (worldTemp st2)))
    as [E2 Hi2].
  { subst st2 d2. destruct (String.eqb (mat_id mat) "LAVA"); cbn [andb];
      [| split; [exact E1 | exact Hi1]].
    destruct (t_lt d1 (t_lit 500)
              && bool_decide (is_Some (keyLookup "STONE" materials)));
      [| split; [exact E1 | exact Hi1]].
    apply (transition_temp x y i _ _ st1 Hi1). }
  rewrite E2. clearbody st2 d2.
  destruct (flammable mat && t_lt (t_lit 300) d2); [| split; [exact E2 | exact Hi2]].
  apply (transition_temp x y i _ _ st2 Hi2).
Qed.

Lemma thermalReactions_other (x y : Z) (v : jsval) mat st (k : nat) :
  Z.of_nat k <> idx st x y ->
  worldTemp (thermalReactions materials x y v mat st) !! k = worldTemp st !! k.
Proof.
  intros Hne. unfold thermalReactions. cbv zeta.
  set (i := idx st x y) in *.
  set (st1 := if String.eqb (mat_id mat) "WATER" && _ then _ else st).
  assert (worldTemp st1 !! k = worldTemp st !! k) as E1.
  { subst st1. destruct (_ && _); [apply transition_other, Hne | reflexivity]. }
  clearbody st1.
  set (st2 := if String.eqb (mat_id mat) "LAVA" then _ else st1).
  assert (worldTemp st2 !! k = worldTemp st !! k) as E2.
  { subst st2. destruct (String.eqb (mat_id mat) "LAVA"); [| exact E1].
    destruct (_ && _); [| exact E1].
    rewrite transition_other by exact Hne. exact E1. }
  clearbody st2.
  destruct (_ && _); [| exact E2].
  rewrite transition_other by exact Hne. exact E2.
Qed.

(** The temperature stage at the cell it runs on: the diffusion step, then
    the transitions. *)
Lemma pass1Cell_temp_here (x y : Z) st mat st1 :
  toggleTemp st = true ->
  0 <= idx st x y < Z.of_nat (length (worldTemp st)) ->
  js_negative (matAt st (idx st x y)) = false ->
  getMatByIndex materials (matAt st (idx st x y)) = Some mat ->
  String.eqb (mat_id mat) "WALL" || String.eqb (mat_id mat) "ERASER" = false ->
  moveStages materials x y (matAt st (idx st x y)) mat st = Next st1 ->
  worldTemp (pass1Cell materials y st x) !! Z.to_nat (idx st x y)
  = Some (afterTransitions materials mat
            (t_fround
               (t_add (tempAt st (idx st x y))
                      (t_mul (t_sub (meanWithSelf st x y) (tempAt st (idx st x y)))
                             t_tenth)))).
Proof.
  intros Hon Hi Hneg Hmat Htool Hmove.
  pose proof (moveStages_frame x y (matAt st (idx st x y)) mat st) as [Hs Hh].
  rewrite Hmove in Hs, Hh. simpl in Hs, Hh.
  unfold pass1Cell. rewrite Hneg, Hmat, Htool, Hmove.
  unfold tempStage.
  assert (toggleTemp st1 = true) as ->
    by (destruct Hs as (_&_&_&_&_&_&_&E); congruence).
  rewrite (diffuse_ext x y st st1 Hs Hh), diffuse_mean.
  assert (idx st1 x y = idx st x y) as Ei.
  { unfold idx. destruct Hs as (E & _). rewrite E. reflexivity. }
  rewrite Ei. set (i := idx st x y) in *.
  set (d := t_add _ _).
  assert (0 <= i < Z.of_nat (length (worldTemp st1))) as Hi1
    by (destruct Hh as [E _]; rewrite E; exact Hi).
  assert (idx (writeTemp i d st1) x y = i) as Ew by exact Ei.
  assert (0 <= idx (writeTemp i d st1) x y
          < Z.of_nat (length (worldTemp (writeTemp i d st1)))) as Hw.
  { rewrite Ew. unfold writeTemp. cbn [worldTemp set_worldTemp].
    rewrite length_ta_set. exact Hi1. }
  destruct (thermalReactions_temp x y (matAt st i) mat (writeTemp i d st1) Hw)
    as [Ev Hr].
  rewrite Ew in Ev, Hr. rewrite (tempAt_lookup i _ Hr), Ev.
  rewrite (tempAt_written i d st1 Hi1). reflexivity.
Qed.

(** The first loop nest at one cell leaves the temperatures of all other
    cells alone. *)
Lemma pass1Cell_temp_other (x y : Z) st (k : nat) :
  Z.of_nat k <> idx st x y ->
  worldTemp (pass1Cell materials y st x) !! k = worldTemp st !! k.
Proof.
  intros Hne. unfold pass1Cell.
  destruct (js_negative _); [reflexivity |].
  destruct (getMatByIndex _ _) as [mat |]; [| reflexivity].
  destruct (_ || _); [reflexivity |].
  pose proof (moveStages_frame x y (matAt st (idx st x y)) mat st) as [Hs Hh].
  destruct (moveStages _ _ _ _ _ _) as [st' | st']; simpl in Hs, Hh.
  - destruct Hh as [-> _]. reflexivity.
  - unfold tempStage. destruct (toggleTemp st');
      [| destruct Hh as [-> _]; reflexivity].
    assert (idx st' x y = idx st x y) as Ei.
    { unfold idx. destruct Hs as (E & _). rewrite E. reflexivity. }
    rewrite thermalReactions_other by (change (Z.of_nat k <> idx st' x y); lia).
    unfold writeTemp. cbn [worldTemp set_worldTemp].
    rewrite lookup_ta_set_ne by lia. destruct Hh as [-> _]. reflexivity.
Qed.

Lemma foldl_invariant_on {A B : Type} (P : A -> Prop) (Q : B -> Prop)
    (f : A -> B -> A) (l : list B) :
  (forall s d, Q d -> P s -> P (f s d)) ->
  Forall Q l -> forall s, P s -> P (foldl f s l).
Proof.
  intros Hstep Hl. induction Hl as [| d l Hd _ IH]; intros s Hs; simpl;
    [exact Hs |].
  apply IH, Hstep; assumption.
Qed.

Lemma pass1Cell_shape (y : Z) st (x : Z) : sameShape st (pass1Cell materials y st x).
Proof. apply pass1Cell_quiet. Qed.

Lemma pass1Cells_shape (y : Z) (xs : list Z) st :
  sameShape st (foldl (pass1Cell materials y) st xs).
Proof.
  apply (foldl_invariant (fun s => sameShape st s)); [| apply sameShape_refl].
  intros s d Hs. eapply sameShape_trans; [exact Hs | apply pass1Cell_shape].
Qed.

Lemma pass1Rows_shape (W : Z) (ys : list Z) st :
  sameShape st (foldl (pass1Row materials W) st ys).
Proof.
  apply (foldl_invariant (fun s => sameShape st s)); [| apply sameShape_refl].
  intros s d Hs. eapply sameShape_trans; [exact Hs | apply pass1Cells_shape].
Qed.

(** Cells other than the one at index [k] keep its temperature. *)
Lemma pass1Cells_temp_other (y : Z) (xs : list Z) st (k : nat) :
  Forall (fun x => Z.of_nat k <> idx st x y) xs ->
  worldTemp (foldl (pass1Cell materials y) st xs) !! k = worldTemp st !! k.
Proof.
  intros Hxs.
  apply (foldl_invariant_on
           (fun s => sameShape st s /\ worldTemp s !! k = worldTemp st !! k)
           (fun x => Z.of_nat k <> idx st x y));
    [| exact Hxs | split; [apply sameShape_refl | reflexivity]].
  intros s x Hx [Hs Ek]. split.
  - eapply sameShape_trans; [exact Hs | apply pass1Cell_shape].
  - rewrite pass1Cell_temp_other; [exact Ek |].
    unfold idx in *. destruct Hs as (E & _). rewrite E. exact Hx.
Qed.

Lemma pass1Rows_temp_other (W : Z) (ys : list Z) st (k : nat) :
  Forall (fun y => forall x, 0 <= x < W -> Z.of_nat k <> idx st x y) ys ->
  worldTemp (foldl (pass1Row materials W) st ys) !! k = worldTemp st !! k.
Proof.
  intros Hys.
  apply (foldl_invariant_on
           (fun s => sameShape st s /\ worldTemp s !! k = worldTemp st !! k)
           (fun y => forall x, 0 <= x < W -> Z.of_nat k <> idx st x y));
    [| exact Hys | split; [apply sameShape_refl | reflexivity]].
  intros s y Hy [Hs Ek]. split.
  - eapply sameShape_trans; [exact Hs | apply pass1Cells_shape].
  - unfold pass1Row. rewrite pass1Cells_temp_other; [exact Ek |].
    apply Forall_forall. intros x Hx. apply elem_of_seqZ in Hx.
    unfold idx in *. destruct Hs as (E & _). rewrite E. apply Hy. lia.
Qed.

Lemma pass2_worldTemp st : worldTemp (pass2 materials random st) = worldTemp st.
Proof.
  unfold pass2.
  apply (foldl_invariant (fun s => worldTemp s = worldTemp st)); [| reflexivity].
  intros s y Hs. unfold pass2Row.
  apply (foldl_invariant (fun s' => worldTemp s' = worldTemp st)); [| exact Hs].
  intros s' x Hs'. destruct (pass2Cell_frame y s' x) as [_ [E _]]. congruence.
Qed.

Lemma seqZ_split (n x : Z) :
  0 <= x < n -> seqZ 0 n = seqZ 0 x ++ x :: seqZ (x + 1) (n - (x + 1)).
Proof.
  intros Hx. replace n with (x + (n - x)) at 1 by lia.
  rewrite seqZ_app by lia. f_equal. rewrite Z.add_0_l.
  rewrite seqZ_cons by lia. f_equal. f_equal; lia.
Qed.

(** How the first loop nest passes through the cell [(x,y)]. *)
Lemma pass1_through (x y : Z) st :
  0 <= x < gridW st -> 0 <= y < gridH st ->
  pass1 materials st
  = foldl (pass1Row materials (gridW st))
          (foldl (pass1Cell materials y)
                 (pass1Cell materials y (pass1Before materials st x y) x)
                 (seqZ (x + 1) (gridW st - (x + 1))))
          (reverse (seqZ 0 y)).
Proof.
  intros Hx Hy. unfold pass1, pass1Before.
  rewrite (seqZ_split (gridH st) y Hy), reverse_app, reverse_cons.
  rewrite <- app_assoc, !foldl_app. cbn [foldl app]. f_equal.
  unfold pass1Row at 1.
  rewrite (seqZ_split (gridW st) x Hx), foldl_app. reflexivity.
Qed.

(** C5, as the code has it.  With temperature simulation on, take a cell of
    the grid and the state [s] in which the first loop nest of the tick
    reaches it (the rows below and the cells to its left are done, so their
    temperatures are already the new ones).  If the cell reaches the
    temperature stage (its material index is not negative and is
    registered, the material is neither WALL nor ERASER, and the cell does
    not move), then at the end of the tick its temperature is what the
    transitions of its material make of [fround(t + (m - t) * 0.1)], where
    [t] is its temperature in [s] and [m] the mean of [t] and the
    temperatures in [s] of its existing orthogonal neighbours. *)
Theorem diffusion_step (x y : Z) st mat st1 :
  let s := pass1Before materials st x y in
  let i := idx st x y in
  toggleTemp st = true ->
  0 <= x < gridW st -> 0 <= y < gridH st ->
  gridW st * gridH st <= Z.of_nat (length (worldTemp st)) ->
  js_negative (matAt s i) = false ->
  getMatByIndex materials (matAt s i) = Some mat ->
  String.eqb (mat_id mat) "WALL" || String.eqb (mat_id mat) "ERASER" = false ->
  moveStages materials x y (matAt s i) mat s = Next st1 ->
  worldTemp (simTick materials random st) !! Z.to_nat i
  = Some (afterTransitions materials mat
            (t_fround
               (t_add (tempAt s i)
                      (t_mul (t_sub (meanWithSelf s x y) (tempAt s i)) t_tenth)))).
Proof.
  intros s i Hon Hx Hy Hlen Hneg Hmat Htool Hmove.
  assert (sameShape st s) as Hs.
  { subst s. unfold pass1Before.
    eapply sameShape_trans; [apply pass1Rows_shape | apply pass1Cells_shape]. }
  pose proof Hs as (EW & EH & _ & _ & _ & Elen & _ & Etog).
  assert (idx s x y = i) as Ei by (unfold idx; rewrite EW; reflexivity).
  pose proof (idx_in_grid st x y Hx Hy) as Hin. fold i in Hin.
  assert (0 <= idx s x y < Z.of_nat (length (worldTemp s))) as Hi
    by (rewrite Ei, Elen; lia).
  rewrite <- Ei in Hneg, Hmat, Hmove.
  pose proof (pass1Cell_temp_here x y s mat st1 (eq_trans Etog Hon) Hi Hneg Hmat
                Htool Hmove) as Hhere.
  rewrite Ei in Hhere.
  unfold simTick. rewrite pass2_worldTemp, (pass1_through x y st Hx Hy).
  fold s. set (s' := pass1Cell materials y s x) in *.
  assert (sameShape st s') as Hs'
    by (eapply sameShape_trans; [exact Hs | apply pass1Cell_shape]).
  set (k := Z.to_nat i).
  assert (Z.of_nat k = i) as Ek by (subst k; lia).
  rewrite pass1Rows_temp_other.
  - rewrite pass1Cells_temp_other; [exact Hhere |].
    apply Forall_forall. intros x' Hx'. apply elem_of_seqZ in Hx'.
    rewrite Ek. subst i. unfold idx. destruct Hs' as (E & _). rewrite E. lia.
  - apply Forall_forall. intros y' Hy'. apply elem_of_reverse, elem_of_seqZ in Hy'.
    intros x' Hx'. rewrite Ek. subst i. unfold idx.
    pose proof (pass1Cells_shape y (seqZ (x + 1) (gridW st - (x + 1))) s')
      as (E & _).
    destruct Hs' as (E' & _). rewrite E, E'. nia.
Qed.


End Frame.

(** * The engine on concrete worlds *)

(** The built-in table has the seven keys EMPTY, SAND, WATER, FIRE, STONE,
    ERASER and WALL, in this order. *)
Lemma builtin_keys :
  map fst builtinMaterials
  = ["EMPTY"; "SAND"; "WATER"; "FIRE"; "STONE"; "ERASER"; "WALL"]%string.
Proof. reflexivity. Qed.

(** Sand over an empty cell falls, and the 50 degrees it had stay in the
    upper cell. *)
Lemma move_leaves_temperature_witness :
  pass1Cell builtinMaterials 0 sandColumn 0
  = moveCell builtinMaterials 0 0 0 1 (JNumber 1) sandColumn
  /\ worldMat (pass1Cell builtinMaterials 0 sandColumn 0) = [0; 1]
  /\ worldTemp (pass1Cell builtinMaterials 0 sandColumn 0)
     = [Some 50%Q; Some 20%Q].
Proof.
  destruct (move_leaves_temperature builtinMaterials 0 0 sandColumn sandMat
              (moveCell builtinMaterials 0 0 0 1 (JNumber 1) sandColumn))
    as (E & Ht & _); try reflexivity.
  split; [exact E |]. rewrite E. split; [reflexivity | exact Ht].
Defined.

(** In [heatColumn] the STONE cell has one neighbour, at 100 degrees: the
    mean with its own 0 degrees is 50 and the temperature after the tick is
    5.  In [hotWater] the cell has no neighbour and stays at 200 in the
    diffusion step; being WATER above 100 it then gains 10. *)
Lemma diffusion_step_witness :
  worldTemp (simTick builtinMaterials noRandom heatColumn) !! 0%nat
  = Some (Some 5%Q)
  /\ worldTemp (simTick builtinMaterials noRandom hotWater) !! 0%nat
     = Some (Some 210%Q).
Proof.
  assert (forall z : Z, 0 <= 0 < z + 1 <-> 0 <= z) as Hrange by (intros; lia).
  split.
  - assert (0 <= 0 < gridW heatColumn) as Hx by (simpl; lia).
    assert (0 <= 0 < gridH heatColumn) as Hy by (simpl; lia).
    assert (gridW heatColumn * gridH heatColumn
            <= Z.of_nat (length (worldTemp heatColumn))) as Hlen by (simpl; lia).
    pose proof (diffusion_step builtinMaterials noRandom 0 0 heatColumn stoneMat
                  heatColumn eq_refl Hx Hy Hlen eq_refl eq_refl eq_refl eq_refl)
      as W.
    vm_compute in W. vm_compute. exact W.
  - assert (0 <= 0 < gridW hotWater) as Hx by (simpl; lia).
    assert (0 <= 0 < gridH hotWater) as Hy by (simpl; lia).
    assert (gridW hotWater * gridH hotWater
            <= Z.of_nat (length (worldTemp hotWater))) as Hlen by (simpl; lia).
    pose proof (diffusion_step builtinMaterials noRandom 0 0 hotWater waterMat
                  (snd (callRng hotWater)) eq_refl Hx Hy Hlen eq_refl eq_refl
                  eq_refl) as W.
    specialize (W ltac:(vm_compute; reflexivity)).
    vm_compute in W. vm_compute. exact W.
Defined.

(** C5 as claimed fails.  After one tick of [heatColumn] the STONE cell is
    at 5 degrees; with the mean of the neighbours alone the claimed update
    gives 10. *)
Lemma diffusion_not_neighbour_mean :
  worldTemp (simTick builtinMaterials noRandom heatColumn) !! 0%nat
  = Some (Some 5%Q)
  /\ claimedDiffuse heatColumn 0 0 = Some 10%Q
  /\ worldTemp (simTick builtinMaterials noRandom heatColumn) !! 0%nat
     <> Some (claimedDiffuse heatColumn 0 0).
Proof. vm_compute. repeat split; discriminate. Qed.

(** ** World allocation *)

Section Allocation.

Context {T : Type} `{TempArith T}.

(** C1 on the code.  Whenever EMPTY is the first key of the material table,
    its index is 0, and [getMatIndex('EMPTY') || -1] is -1: a freshly
    allocated world of any size holds -1 in every cell, which is neither
    the index of EMPTY nor an index of the table. *)
Theorem allocateWorld_fills_minus_one
    (m : Material (T := T)) (rest : list (string * Material (T := T)))
    (w h : nat) (st : App (T := T)) :
  getMatIndex (("EMPTY", m) :: rest)%string "EMPTY" = JNumber 0
  /\ exists st',
       allocateWorld (("EMPTY", m) :: rest)%string (Z.of_nat w) (Z.of_nat h) st
       = Normal st'
       /\ worldMat st' = replicate (w * h) (-1)
       /\ gridW st' = Z.of_nat w /\ gridH st' = Z.of_nat h.
Proof.
  split; [reflexivity |].
  unfold allocateWorld.
  destruct (Z.ltb_spec (Z.of_nat w * Z.of_nat h) 0) as [Hneg | _]; [lia |].
  eexists. split; [reflexivity |].
  simpl. rewrite <- Nat2Z.inj_mul, Nat2Z.id. repeat split.
Qed.

End Allocation.

(** In the built-in table the stored -1 names no material. *)
Lemma builtin_minus_one_unregistered :
  getMatIndex builtinMaterials "EMPTY" = JNumber 0
  /\ getMatByIndex builtinMaterials (JNumber (-1)) = None.
Proof. split; reflexivity. Qed.

(** ** Falling sand *)

Lemma water_cell_blocked (s : Z) :
  pass1Cell builtinMaterials 1 (sandOverWater s) 0 = sandOverWater (rand_next s).
Proof.
  assert (moveStages builtinMaterials 0 1 (JNumber 2) waterMat (sandOverWater s)
          = Next (sandOverWater (rand_next s))) as E.
  { unfold moveStages.
    change (sandStage builtinMaterials 0 1 (JNumber 2) waterMat (sandOverWater s))
      with (Next (sandOverWater s)).
    cbv iota beta.
    change (flowStage builtinMaterials 0 1 (JNumber 2) waterMat (sandOverWater s))
      with (flowSideways builtinMaterials 0 1 (JNumber 2) (sandOverWater s)).
    rewrite (flowSideways_single_column builtinMaterials) by reflexivity.
    reflexivity. }
  unfold pass1Cell.
  change (matAt (sandOverWater s) (idx (sandOverWater s) 0 1)) with (JNumber 2).
  change (getMatByIndex builtinMaterials (JNumber 2)) with (Some waterMat).
  change (js_negative (JNumber 2)) with false.
  change (String.eqb (mat_id waterMat) "WALL" || String.eqb (mat_id waterMat) "ERASER")
    with false.
  cbv iota beta. rewrite E. reflexivity.
Qed.

Lemma pass1_two_cells (tbl : list (string * Material (T := xnum)))
    (st : App (T := xnum)) :
  gridW st = 1 -> gridH st = 2 ->
  pass1 tbl st = pass1Cell tbl 0 (pass1Cell tbl 1 st 0) 0.
Proof. intros Hw Hh. unfold pass1, pass1Row. rewrite Hw, Hh. reflexivity. Qed.

(** C3 on the code.  Sand above water: after one tick, whatever the seed
    and the samples, the sand has moved down over the water and the source
    cell holds EMPTY.  The water cell is gone: the move overwrites its
    destination instead of exchanging the two cells. *)
Theorem sand_fall_destroys_water (s : Z) (random : nat -> Q) :
  worldMat (sandOverWater s) = [1; 2]
  /\ worldMat (simTick builtinMaterials random (sandOverWater s)) = [0; 1]
  /\ countMat 2 (worldMat (sandOverWater s)) = 1%nat
  /\ countMat 2 (worldMat (simTick builtinMaterials random (sandOverWater s)))
     = 0%nat.
Proof.
  assert (worldMat (simTick builtinMaterials random (sandOverWater s)) = [0; 1])
    as E.
  { unfold simTick.
    rewrite (pass1_two_cells builtinMaterials (sandOverWater s) eq_refl eq_refl).
    rewrite water_cell_blocked.
    generalize (rand_next s). intros r. vm_compute. reflexivity. }
  rewrite E. repeat split.
Qed.

(** C6 on the code.  A 10x10 world straight from [allocateWorld], one sand
    cell written at (5,0), temperature off: after 9 ticks nothing has
    moved.  The sand is still at (5,0) and (5,9) still holds the fill value
    -1, because a cell holding -1 is not a material and so never counts as
    non-solid. *)
Theorem sand_stuck_on_fresh_world :
  exists fresh,
    allocateWorld builtinMaterials 10 10 (bootApp 12345) = Normal fresh
    /\ let st0 := setMatAt builtinMaterials 5 0 "SAND" fresh in
       let st9 := simTicks builtinMaterials noRandom 9 st0 in
       matAt st0 (idx st0 5 0) = JNumber 1
       /\ matAt st9 (idx st9 5 0) = JNumber 1
       /\ matAt st9 (idx st9 5 9) = JNumber (-1)
       /\ worldMat st9 = worldMat st0.
Proof.
  eexists. split; [reflexivity |].
  vm_compute. repeat split.
Qed.

(** The same scenario on a world whose cells hold the index of EMPTY: the
    sand moves down one row per tick and is at (5,9) after 9 ticks. *)
Lemma sand_falls_on_empty_world :
  exists fresh,
    allocateWorld builtinMaterials 10 10 (bootApp 12345) = Normal fresh
    /\ let st0 := setMatAt builtinMaterials 5 0 "SAND"
                    (set_worldMat (replicate 100 0) fresh) in
       let st9 := simTicks builtinMaterials noRandom 9 st0 in
       matAt st9 (idx st9 5 9) = JNumber 1
       /\ countMat 1 (worldMat st9) = 1%nat
       /\ forall k : nat, (k <= 9)%nat ->
            let stk := simTicks builtinMaterials noRandom k st0 in
            matAt stk (idx stk 5 (Z.of_nat k)) = JNumber 1.
Proof.
  eexists. split; [reflexivity |].
  split; [vm_compute; reflexivity |].
  split; [vm_compute; reflexivity |].
  intros k Hk.
  do 10 (destruct k as [| k]; [vm_compute; reflexivity |]). lia.
Qed.

(** ** Determinism *)

Lemma oil_cell_blocked (s : Z) :
  pass1Cell oilMaterials 1 (fireOverOil s) 0 = fireOverOil (rand_next s).
Proof.
  assert (moveStages oilMaterials 0 1 (JNumber 5) oilMat (fireOverOil s)
          = Next (fireOverOil (rand_next s))) as E.
  { unfold moveStages.
    change (sandStage oilMaterials 0 1 (JNumber 5) oilMat (fireOverOil s))
      with (Next (fireOverOil s)).
    cbv iota beta.
    change (flowStage oilMaterials 0 1 (JNumber 5) oilMat (fireOverOil s))
      with (flowSideways oilMaterials 0 1 (JNumber 5) (fireOverOil s)).
    rewrite (flowSideways_single_column oilMaterials) by reflexivity.
    reflexivity. }
  unfold pass1Cell.
  change (matAt (fireOverOil s) (idx (fireOverOil s) 0 1)) with (JNumber 5).
  change (getMatByIndex oilMaterials (JNumber 5)) with (Some oilMat).
  change (js_negative (JNumber 5)) with false.
  change (String.eqb (mat_id oilMat) "WALL" || String.eqb (mat_id oilMat) "ERASER")
    with false.
  cbv iota beta. rewrite E. reflexivity.
Qed.

Lemma fire_over_oil_pass1 (s : Z) :
  pass1 oilMaterials (fireOverOil s) = fireOverOil (rand_next s).
Proof.
  rewrite (pass1_two_cells oilMaterials (fireOverOil s) eq_refl eq_refl).
  rewrite oil_cell_blocked.
  generalize (rand_next s). intros r. vm_compute. reflexivity.
Qed.

(** C2 on the code.  FIRE above OIL, the same seed and the same grid in
    both runs: the movement pass changes nothing, and the reaction pass
    asks [Math.random] whether the oil ignites.  With one stream of samples
    the oil becomes fire, with another it does not, so one tick already
    gives two different material arrays. *)
Theorem reactions_ignore_seed (seed : Z) :
  worldMat (simTick oilMaterials lowSamples (fireOverOil (rand seed))) = [3; 3]
  /\ worldMat (simTick oilMaterials highSamples (fireOverOil (rand seed))) = [3; 5]
  /\ worldMat (simTick oilMaterials lowSamples (fireOverOil (rand seed)))
     <> worldMat (simTick oilMaterials highSamples (fireOverOil (rand seed))).
Proof.
  unfold simTick. rewrite fire_over_oil_pass1.
  generalize (rand_next (rand seed)). intros r.
  assert (worldMat (pass2 oilMaterials lowSamples (fireOverOil r)) = [3; 3])
    as -> by (vm_compute; reflexivity).
  assert (worldMat (pass2 oilMaterials highSamples (fireOverOil r)) = [3; 5])
    as -> by (vm_compute; reflexivity).
  repeat split. discriminate.
Qed.

(** The samples of the reaction pass come from [Math.random]: the tick
    above draws one of them, and none is drawn from it by the movement
    pass. *)
Lemma reactions_draw_from_math_random (seed : Z) :
  drawn (pass1 oilMaterials (fireOverOil (rand seed))) = 0%nat
  /\ drawn (simTick oilMaterials lowSamples (fireOverOil (rand seed))) = 1%nat.
Proof.
  unfold simTick. rewrite fire_over_oil_pass1.
  generalize (rand_next (rand seed)). intros r.
  split; vm_compute; reflexivity.
Qed.

(** ** Writing an unregistered id *)



(** ** Loading a world *)

(** C7 as claimed fails.  [emptySave] declares one cell and carries none.
    Loading it over [sandColumn] is not refused: the load completes and the
    1x2 world with its sand is replaced by a 1x1 world. *)
Lemma load_accepts_mismatch :
  shapeMismatch emptySave
  /\ fst (loadWorldPrompt builtinMaterials emptySave sandColumn) = Loaded
  /\ gridH sandColumn = 2
  /\ gridH (snd (loadWorldPrompt builtinMaterials emptySave sandColumn)) = 1
  /\ worldMat sandColumn = [1; 0]
  /\ worldMat (snd (loadWorldPrompt builtinMaterials emptySave sandColumn)) = [-1]
  /\ worldTemp (snd (loadWorldPrompt builtinMaterials emptySave sandColumn))
     = [Some 0%Q].
Proof.
  split.
  - unfold shapeMismatch, arrayFits, emptySave. simpl. intros [E _]. discriminate.
  - vm_compute. repeat split.
Qed.

Lemma load_replaces_world_witness :
  fst (loadWorldPrompt builtinMaterials shortSave sandColumn) = Loaded
  /\ gridW (snd (loadWorldPrompt builtinMaterials shortSave sandColumn)) = 2
  /\ gridH (snd (loadWorldPrompt builtinMaterials shortSave sandColumn)) = 2
  /\ worldMat (snd (loadWorldPrompt builtinMaterials shortSave sandColumn))
     = [1; 4; -1; -1]
  /\ worldTemp (snd (loadWorldPrompt builtinMaterials shortSave sandColumn))
     = [Some 30%Q; Some 20%Q; Some 20%Q; Some 20%Q].
Proof.
  assert (0 <= snap_w shortSave * snap_h shortSave) as Hn by (simpl; lia).
  assert (snap_w shortSave <> 0) as Hw by discriminate.
  assert (snap_h shortSave <> 0) as Hh by discriminate.
  pose proof (load_replaces_world builtinMaterials shortSave [1; 4] sandColumn
                eq_refl Hw Hh Hn) as W.
  vm_compute in W. vm_compute. exact W.
Defined.

(** A temperature array that is too long stops the load after the
    materials were copied: the exception escapes, the world is the new 1x1
    world with the STONE of the file in it, at the 20 degrees of the
    allocation. *)
Lemma load_stops_after_materials :
  fst (loadWorldPrompt builtinMaterials longTempSave sandColumn) = Uncaught
  /\ worldMat (snd (loadWorldPrompt builtinMaterials longTempSave sandColumn))
     = [4]
  /\ worldTemp (snd (loadWorldPrompt builtinMaterials longTempSave sandColumn))
     = [Some 20%Q].
Proof. vm_compute. repeat split. Qed.

(** ** Dirty chunks *)

(** A 40x20 world has 3x2 chunks; the cell (17,3) lies in chunk (1,0). *)
Lemma dirty_tracking_witness :
  exists st1,
    allocateWorld builtinMaterials 40 20 (bootApp 0) = Normal st1
    /\ fst (render st1) = [(0, 0); (1, 0); (2, 0); (0, 1); (1, 1); (2, 1)]
    /\ fst (render (snd (render st1))) = []
    /\ fst (render (setMatAt builtinMaterials 17 3 "SAND" (snd (render st1))))
       = [(1, 0)].
Proof.
  destruct (dirty_tracking builtinMaterials 40 20 (bootApp 0))
    as (st1 & Ha & _ & Hall & Htwice & Hset); [lia | lia |].
  destruct (Hset 17 3 "SAND"%string) as (_ & _ & _ & Hone & _); [lia | lia |].
  exists st1. split; [exact Ha |]. split; [| split; [exact Htwice | exact Hone]].
  rewrite Hall. vm_compute in Ha. injection Ha as <-. reflexivity.
Defined.


(** ** The brush at the border *)

(** A hard brush of radius 50 at the corners of a 3x3 world: the stroke
    paints the nine cells and nothing else, at both corners. *)
Lemma brush_larger_than_grid :
  exists fresh,
    allocateWorld builtinMaterials 3 3 (bootApp 0) = Normal fresh
    /\ worldMat (drawBrushAt builtinMaterials noRandom (mkBrush 50 false)
                   "STONE" 0 0 fresh)
       = replicate 9 4
    /\ worldMat (drawBrushAt builtinMaterials noRandom (mkBrush 50 false)
                   "STONE" 2 2 fresh)
       = replicate 9 4
    /\ worldTemp (drawBrushAt builtinMaterials noRandom (mkBrush 50 false)
                    "STONE" 2 2 fresh)
       = replicate 9 (Some 20%Q).
Proof.
  eexists. split; [reflexivity |].
  vm_compute. repeat split.
Qed.

(** * Further properties of the engine *)

Section Further.

Context {T : Type} `{TempArith T}.
Variable materials : list (string * Material (T := T)).
Variable random : nat -> Q.

Implicit Types st : App (T := T).
Implicit Types mat : Material (T := T).
Implicit Types tbl : list (string * Material (T := T)).

(** ** The material index mapping *)

Lemma keyIndex_lt (k : string) (tbl : list (string * Material (T := T))) (i : nat) :
  keyIndex k tbl = Some i -> (i < length tbl)%nat.
Proof.
  revert i. induction tbl as [| [k0 m0] tbl IH]; intros i; simpl; [discriminate |].
  destruct (String.eqb k0 k); [intros [= <-]; lia |].
  destruct (keyIndex k tbl) as [j |]; simpl; [| discriminate].
  intros [= <-]. specialize (IH j eq_refl). lia.
Qed.

Lemma keyIndex_at (tbl : list (string * Material (T := T))) :
  NoDup (tbl.*1) ->
  forall (i : nat) (k : string) mat,
    tbl !! i = Some (k, mat) ->
    keyIndex k tbl = Some i /\ keyLookup k tbl = Some mat.
Proof.
  induction tbl as [| [k0 m0] tbl IH]; intros Hnd i k mat Hi; [discriminate |].
  apply NoDup_cons in Hnd as [Hk0 Hnd].
  destruct i as [| i]; simpl in Hi.
  - injection Hi as -> ->. simpl. rewrite String.eqb_refl. split; reflexivity.
  - simpl. destruct (String.eqb_spec k0 k) as [-> | Hne].
    + exfalso. apply Hk0. apply list_elem_of_fmap. exists (k, mat).
      split; [reflexivity |]. eapply list_elem_of_lookup_2, Hi.
    + destruct (IH Hnd i k mat Hi) as [-> ->]. split; reflexivity.
Qed.

(** X1.  In a table with distinct keys, the key stored at position [i] is
    given the index [i] by [getMatIndex], and [getMatByIndex] at that index
    gives back the material stored under the key. *)
Theorem index_round_trip (i : nat) (k : string) mat :
  NoDup (materials.*1) ->
  materials !! i = Some (k, mat) ->
  getMatIndex materials k = JNumber (Z.of_nat i)
  /\ getMatByIndex materials (getMatIndex materials k) = Some mat.
Proof.
  intros Hnd Hi. destruct (keyIndex_at materials Hnd i k mat Hi) as [Hidx _].
  unfold getMatIndex. rewrite Hidx. split; [reflexivity |].
  unfold getMatByIndex.
  destruct (Z.ltb_spec (Z.of_nat i) 0); [lia |].
  rewrite Nat2Z.id, Hi. reflexivity.
Qed.

(** ** Building the material table *)

Lemma keyStore_index (k k' : string) (m : Material (T := T)) tbl (i : nat) :
  keyIndex k tbl = Some i -> keyIndex k (keyStore k' m tbl) = Some i.
Proof.
  revert i. induction tbl as [| [k0 m0] tbl IH]; intros i; simpl; [discriminate |].
  destruct (String.eqb k0 k') eqn:E'; simpl.
  - destruct (String.eqb k0 k); auto.
  - destruct (String.eqb k0 k); [auto |].
    destruct (keyIndex k tbl) as [j |]; simpl; [| discriminate].
    intros [= <-]. rewrite (IH j eq_refl). reflexivity.
Qed.

Lemma keyStore_has (k : string) (m : Material (T := T)) tbl :
  is_Some (keyIndex k (keyStore k m tbl)).
Proof.
  induction tbl as [| [k0 m0] tbl IH]; simpl.
  - rewrite String.eqb_refl. eexists; reflexivity.
  - destruct (String.eqb k0 k) eqn:E; simpl; rewrite E; [eexists; reflexivity |].
    destruct IH as [j ->]. eexists; reflexivity.
Qed.

Lemma keyStore_keys (k : string) (m : Material (T := T)) tbl :
  (keyStore k m tbl).*1
  = if decide (k ∈ tbl.*1) then tbl.*1 else tbl.*1 ++ [k].
Proof.
  induction tbl as [| [k0 m0] tbl IH].
  - case_decide as Hin; [by apply elem_of_nil in Hin | reflexivity].
  - cbn [keyStore]. destruct (String.eqb_spec k0 k) as [-> | Hne].
    + clear IH. rewrite !fmap_cons. cbn [fst]. case_decide as Hn; [reflexivity |].
      exfalso. apply Hn. by left.
    + rewrite !fmap_cons, IH. cbn [fst].
      repeat case_decide; try reflexivity.
      * exfalso. match goal with Hn : ~ _ |- _ => apply Hn end. by right.
      * exfalso.
        match goal with Hin : _ ∈ _ :: _ |- _ =>
          apply elem_of_cons in Hin as [-> | Hin]; [congruence | contradiction] end.
Qed.

Lemma keyStore_NoDup (k : string) (m : Material (T := T)) tbl :
  NoDup (tbl.*1) -> NoDup ((keyStore k m tbl).*1).
Proof.
  intros Hnd. rewrite keyStore_keys.
  destruct (decide (k ∈ tbl.*1)) as [Hin | Hn]; [exact Hnd |].
  apply NoDup_app. split; [exact Hnd |]. split; [| apply NoDup_singleton].
  intros x Hx Hx'. apply list_elem_of_singleton in Hx' as ->. contradiction.
Qed.

Lemma keyLookup_index (k : string) (tbl : list (string * Material (T := T))) :
  is_Some (keyLookup k tbl) <-> is_Some (keyIndex k tbl).
Proof.
  induction tbl as [| [k0 m0] tbl IH]; simpl.
  - split; intros [? ?]; discriminate.
  - destruct (String.eqb k0 k); [split; intros _; eexists; reflexivity |].
    rewrite IH. destruct (keyIndex k tbl); simpl; split; intros [? ?];
      try discriminate; eexists; reflexivity.
Qed.

Lemma extends_refl tbl : extends tbl tbl.
Proof. split; auto. Qed.

Lemma extends_trans tbl1 tbl2 tbl3 :
  extends tbl1 tbl2 -> extends tbl2 tbl3 -> extends tbl1 tbl3.
Proof. intros [A1 B1] [A2 B2]. split; auto. Qed.

Lemma keyStore_extends (k : string) (m : Material (T := T)) tbl :
  extends tbl (keyStore k m tbl).
Proof.
  split; [intros k' i; apply keyStore_index | apply keyStore_NoDup].
Qed.

Lemma addVariants_extends tbl (g : VariantGroup) : extends tbl (addVariants tbl g).
Proof.
  unfold addVariants. destruct (variantBase (vg_base g) tbl) as [baseMat |];
    [| apply extends_refl].
  apply (foldl_invariant (fun t => extends tbl t)); [| apply extends_refl].
  intros t i Ht. eapply extends_trans; [exact Ht | apply keyStore_extends].
Qed.

Lemma ensureKey_extends (k : string) (m : Material (T := T)) tbl :
  extends tbl (ensureKey k m tbl) /\ is_Some (keyIndex k (ensureKey k m tbl)).
Proof.
  unfold ensureKey. destruct (keyLookup k tbl) as [m' |] eqn:E.
  - split; [apply extends_refl |]. apply keyLookup_index. rewrite E. eexists; reflexivity.
  - split; [apply keyStore_extends | apply keyStore_has].
Qed.

Lemma keyStore_fresh (k : string) (m : Material (T := T)) tbl :
  k ∉ tbl.*1 -> keyStore k m tbl = tbl ++ [(k, m)].
Proof.
  induction tbl as [| [k0 m0] tbl IH]; intros Hk; [reflexivity |].
  rewrite fmap_cons, not_elem_of_cons in Hk. destruct Hk as [Hne Hk].
  cbn [keyStore]. destruct (String.eqb_spec k0 k) as [-> | _]; [done |].
  rewrite (IH Hk). reflexivity.
Qed.

Lemma assignKey_keys tbl (e : string * Material (T := T)) :
  NoDup (tbl.*1) -> NoDup ((assignKey tbl e).*1).
Proof.
  intros Hnd. unfold assignKey.
  destruct (String.eqb e.1 "__proto__"); [exact Hnd | apply keyStore_NoDup, Hnd].
Qed.

Lemma copyBase_keys (base : list (string * Material (T := T))) :
  NoDup ((copyBase base).*1).
Proof.
  unfold copyBase.
  apply (foldl_invariant (fun t => NoDup (t.*1))); [| apply NoDup_nil_2].
  intros t e Ht. apply assignKey_keys, Ht.
Qed.

Lemma copy_appends (base acc : list (string * Material (T := T))) :
  NoDup (acc.*1 ++ base.*1) -> foldl assignKey acc base = acc ++ ownEntries base.
Proof.
  revert acc. induction base as [| [k m] base IH]; intros acc Hnd.
  - simpl. rewrite app_nil_r. reflexivity.
  - rewrite fmap_cons in Hnd. cbn [fst] in Hnd.
    cbn [foldl]. unfold assignKey at 2, ownEntries. cbn [fst snd List.filter].
    fold (ownEntries base).
    destruct (String.eqb k "__proto__"); cbn [negb].
    + apply IH. apply NoDup_app in Hnd as (Ha & Hdis & Hb).
      apply NoDup_cons in Hb as [_ Hb].
      apply NoDup_app. split; [exact Ha |]. split; [| exact Hb].
      intros z Hz Hz'. apply (Hdis z Hz). by right.
    + rewrite keyStore_fresh.
      * rewrite IH; [rewrite <- app_assoc; reflexivity |].
        rewrite fmap_app, <- app_assoc. exact Hnd.
      * intros Hin. apply NoDup_app in Hnd as (_ & Hdis & _).
        apply (Hdis k Hin). by left.
Qed.

(** With distinct keys the copy loop keeps every entry but ["__proto__"],
    in order. *)
Lemma copyBase_own (base : list (string * Material (T := T))) :
  NoDup (base.*1) -> copyBase base = ownEntries base.
Proof. intros Hnd. unfold copyBase. rewrite copy_appends; [reflexivity | exact Hnd]. Qed.

Lemma prepareMaterials_extends (base : list (string * Material (T := T)))
    (variants : list VariantGroup) :
  extends (copyBase base) (prepareMaterials base variants)
  /\ is_Some (keyIndex "ERASER" (prepareMaterials base variants))
  /\ is_Some (keyIndex "WALL" (prepareMaterials base variants)).
Proof.
  unfold prepareMaterials.
  set (t1 := foldl addVariants (copyBase base) variants).
  assert (extends (copyBase base) t1) as H1.
  { apply (foldl_invariant (fun t => extends (copyBase base) t));
      [| apply extends_refl].
    intros t g Ht. eapply extends_trans; [exact Ht | apply addVariants_extends]. }
  destruct (ensureKey_extends "ERASER"
              (mkMaterial "ERASER" false false false false true None) t1)
    as [H2 [e He]].
  destruct (ensureKey_extends "WALL"
              (mkMaterial "WALL" true false false false false None)
              (ensureKey "ERASER"
                 (mkMaterial "ERASER" false false false false true None) t1))
    as [H3 Hw].
  split; [eapply extends_trans; [exact H1 | eapply extends_trans; eassumption] |].
  split; [| exact Hw].
  exists e. apply H3. exact He.
Qed.

(** X2.  [prepareMaterials] never renumbers.  For a material file with
    distinct keys, a key keeps in the finished table the position it has
    among the entries of the file that become keys, whatever variants are
    generated; an entry named ["__proto__"] is not one of them, so the keys
    after it sit one position lower than in the file. *)
Theorem prepareMaterials_keeps_indices
    (base : list (string * Material (T := T))) (variants : list VariantGroup)
    (k : string) (i : nat) :
  NoDup (base.*1) ->
  keyIndex k (ownEntries base) = Some i ->
  getMatIndex (prepareMaterials base variants) k = JNumber (Z.of_nat i).
Proof.
  intros Hnd Hk. destruct (prepareMaterials_extends base variants) as [[Hidx _] _].
  rewrite (copyBase_own base Hnd) in Hidx.
  unfold getMatIndex. rewrite (Hidx k i Hk). reflexivity.
Qed.

(** X3.  When the base materials have distinct keys, so has the finished
    table, and ERASER and WALL are always in it: [getMatIndex] gives each
    of them a position of the table. *)
Theorem prepareMaterials_table
    (base : list (string * Material (T := T))) (variants : list VariantGroup) :
  NoDup (base.*1) ->
  NoDup ((prepareMaterials base variants).*1)
  /\ (exists e : nat,
         getMatIndex (prepareMaterials base variants) "ERASER" = JNumber (Z.of_nat e)
         /\ (e < length (prepareMaterials base variants))%nat)
  /\ (exists w : nat,
         getMatIndex (prepareMaterials base variants) "WALL" = JNumber (Z.of_nat w)
         /\ (w < length (prepareMaterials base variants))%nat).
Proof.
  intros _.
  destruct (prepareMaterials_extends base variants) as [[_ Hd] [[e He] [w Hw]]].
  split; [apply Hd, copyBase_keys |].
  split; [exists e | exists w]; unfold getMatIndex.
  - rewrite He. split; [reflexivity | eapply keyIndex_lt, He].
  - rewrite Hw. split; [reflexivity | eapply keyIndex_lt, Hw].
Qed.


(** ** Neighbours *)

Lemma elem_of_optional {A : Type} (c : bool) (p q : A) :
  q ∈ (if c then [p] else []) <-> c = true /\ q = p.
Proof.
  destruct c; rewrite ?list_elem_of_singleton, ?elem_of_nil; split;
    try tauto; intros [? ?]; try discriminate; assumption.
Qed.

(** X4.  For a cell inside the grid, [neighborCoords] lists exactly the
    cells inside the grid at distance 1 (left, right, up, down), each once:
    a neighbour beyond an edge is left out, not wrapped to another row. *)
Theorem neighborCoords_exact st (x y nx ny : Z) :
  0 <= x < gridW st -> 0 <= y < gridH st ->
  ((nx, ny) ∈ neighborCoords st x y
   <-> (0 <= nx < gridW st /\ 0 <= ny < gridH st
        /\ Z.abs (nx - x) + Z.abs (ny - y) = 1))
  /\ NoDup (neighborCoords st x y)
  /\ (length (neighborCoords st x y) <= 4)%nat.
Proof.
  intros Hx Hy. unfold neighborCoords. split; [| split].
  - rewrite !elem_of_app, !elem_of_optional, !Z.ltb_lt. split.
    + intros [[? E] | [[? E] | [[? E] | [? E]]]]; injection E as -> ->; lia.
    + intros (Hnx & Hny & Hd).
      assert ((nx = x - 1 /\ ny = y) \/ (nx = x + 1 /\ ny = y)
              \/ (nx = x /\ ny = y - 1) \/ (nx = x /\ ny = y + 1))
        as [[-> ->] | [[-> ->] | [[-> ->] | [-> ->]]]] by lia.
      * left. split; [lia | reflexivity].
      * right; left. split; [lia | reflexivity].
      * right; right; left. split; [lia | reflexivity].
      * right; right; right. split; [lia | reflexivity].
  - destruct (0 <? x), (x + 1 <? gridW st), (0 <? y), (y + 1 <? gridH st); simpl;
      repeat (apply NoDup_cons; split;
              [intros Hin;
               repeat (apply elem_of_cons in Hin as [Hin | Hin];
                       [injection Hin; lia |]);
               by apply elem_of_nil in Hin |]);
      apply NoDup_nil_2.
  - destruct (0 <? x), (x + 1 <? gridW st), (0 <? y), (y + 1 <? gridH st); simpl; lia.
Qed.

(** ** The seeded generator *)

(** X5.  After any number of calls the state of the generator is an
    unsigned 32-bit integer and the product formed by the next call stays
    below 2^53, so the arithmetic of the source is exact; and the stream
    depends on the seed modulo 2^32 only. *)
Theorem generator_state_exact (seed : Z) (n : nat) :
  0 <= rngAfter seed n < 2 ^ 32
  /\ 0 <= rngAfter seed n * 1664525 + 1013904223 < 2 ^ 53
  /\ rngAfter (seed + 2 ^ 32) n = rngAfter seed n.
Proof.
  assert (0 <= rngAfter seed n < 2 ^ 32) as Hr.
  { unfold rngAfter. destruct n as [| n]; simpl;
      [unfold rand | unfold rand_next]; apply Z.mod_pos_bound; lia. }
  split; [exact Hr |]. split; [lia |].
  unfold rngAfter. f_equal. unfold rand.
  rewrite <- (Z.mul_1_l (2 ^ 32)) at 1. apply Z_mod_plus_full.
Qed.

(** ** Clamping *)

Lemma Qltb_lt (a b : Q) : Qltb a b = true <-> (a < b)%Q.
Proof.
  unfold Qltb. rewrite negb_true_iff. split.
  - intros E. apply Qnot_le_lt. intros Hle. apply Qle_bool_iff in Hle. congruence.
  - intros Hlt. destruct (Qle_bool b a) eqn:E; [| reflexivity].
    apply Qle_bool_iff in E. exfalso. exact (Qlt_not_le _ _ Hlt E).
Qed.

Lemma Qltb_ge (a b : Q) : Qltb a b = false <-> (b <= a)%Q.
Proof.
  unfold Qltb. rewrite negb_false_iff. apply Qle_bool_iff.
Qed.

Lemma num_lt_irrefl (a : jsnum) : num_lt a a = false.
Proof. destruct a as [| | q |]; try reflexivity. apply Qltb_ge, Qle_refl. Qed.

Lemma num_le_spec (a b : jsnum) :
  num_le a b = true <-> a <> NumNaN /\ b <> NumNaN /\ num_lt b a = false.
Proof.
  destruct a, b; cbn [num_le]; rewrite ?negb_true_iff;
    split; try discriminate; try (intros (Ha & Hb & E); congruence);
    intros E; repeat split; try discriminate; exact E.
Qed.

(** X11.  With [a <= b]: [clamp(NaN,a,b)] is [NaN]; for every other number
    [v], infinite or not, [clamp(v,a,b)] lies between [a] and [b]; it is
    [v] itself when [v] already does; and clamping twice changes
    nothing. *)
Theorem clamp_bounds (v a b : jsnum) :
  num_le a b = true ->
  clamp NumNaN a b = NumNaN
  /\ (v <> NumNaN ->
      num_le a (clamp v a b) = true /\ num_le (clamp v a b) b = true)
  /\ (num_le a v = true -> num_le v b = true -> clamp v a b = v)
  /\ clamp (clamp v a b) a b = clamp v a b.
Proof.
  intros Hab. pose proof Hab as Hab'.
  apply num_le_spec in Hab' as (Ha & Hb & Hba).
  split; [clear; unfold clamp; destruct a, b; reflexivity |].
  unfold clamp. split; [| split].
  - intros Hv. destruct (num_lt v a) eqn:Eva.
    + split; [| exact Hab]. apply num_le_spec. auto using num_lt_irrefl.
    + destruct (num_lt b v) eqn:Ebv.
      * split; [exact Hab |]. apply num_le_spec. auto using num_lt_irrefl.
      * split; apply num_le_spec; auto.
  - intros Hav Hvb.
    apply num_le_spec in Hav as (_ & _ & ->).
    apply num_le_spec in Hvb as (_ & _ & ->). reflexivity.
  - destruct (num_lt v a) eqn:Eva.
    + rewrite num_lt_irrefl, Hba. reflexivity.
    + destruct (num_lt b v) eqn:Ebv.
      * rewrite Hba, num_lt_irrefl. reflexivity.
      * rewrite Eva, Ebv. reflexivity.
Qed.


(** ** Allocation *)

(** X6.  [allocateWorld(w,h)] either throws, exactly when [w * h] is
    negative and then with only the grid dimensions assigned, or returns a
    world whose three cell arrays have [w * h] entries, every temperature
    20 and every flag 0, whose chunk grid has at least one chunk each way
    and covers the grid, with every chunk dirty; the generator, the sample
    count and the temperature switch are not touched. *)
Theorem allocateWorld_outcome (w h : Z) st :
  match allocateWorld materials w h st with
  | Normal s =>
      0 <= w * h
      /\ gridW s = w /\ gridH s = h
      /\ worldMat s = replicate (Z.to_nat (w * h)) (fillIndex materials)
      /\ worldTemp s = replicate (Z.to_nat (w * h)) (t_fround (t_lit 20))
      /\ worldMeta s = replicate (Z.to_nat (w * h)) 0
      /\ 1 <= chunksX s /\ 1 <= chunksY s
      /\ w <= chunkSize * chunksX s /\ h <= chunkSize * chunksY s
      /\ dirtyChunks s = replicate (Z.to_nat (chunksX s * chunksY s)) true
      /\ rng s = rng st /\ drawn s = drawn st /\ toggleTemp s = toggleTemp st
  | RangeError s => w * h < 0 /\ s = set_grid w h st
  end.
Proof.
  unfold allocateWorld.
  destruct (Z.ltb_spec (w * h) 0) as [Hneg | Hpos]; [split; [exact Hneg | reflexivity] |].
  unfold markAllDirty. cbn [gridW gridH worldMat worldTemp worldMeta chunksX chunksY
                            dirtyChunks rng drawn toggleTemp set_dirtyChunks].
  rewrite length_replicate.
  repeat (split; [first [assumption | reflexivity | lia
                        | unfold ceil_div, chunkSize; Z.div_mod_to_equations; lia] |]).
  reflexivity.
Qed.

(** ** Marking chunks *)

(** X7.  In every state, clean or not, marking the chunk of a cell never
    clears a flag (a chunk that is dirty stays dirty), changes no cell
    array, and marking the same cell twice is the same as marking it
    once. *)
Theorem mark_never_clears (x y : Z) st (c : Z * Z) :
  (chunkDirty st c -> chunkDirty (markChunkDirtyForCell x y st) c)
  /\ sameCells st (markChunkDirtyForCell x y st)
  /\ markChunkDirtyForCell x y (markChunkDirtyForCell x y st)
     = markChunkDirtyForCell x y st.
Proof.
  unfold markChunkDirtyForCell.
  destruct ((floor_div x chunkSize <? 0) || (chunksX st <=? floor_div x chunkSize)
            || (floor_div y chunkSize <? 0) || (chunksY st <=? floor_div y chunkSize))
    eqn:Hout.
  - rewrite Hout. split; [intros Hc; exact Hc |].
    split; [repeat split | reflexivity].
  - cbn [chunksX chunksY set_dirtyChunks dirtyChunks]. rewrite Hout.
    split; [| split; [repeat split |]].
    + intros Hc.
      unfold chunkDirty, chunkIndex in *. cbn [chunksX dirtyChunks set_dirtyChunks].
      set (i := floor_div y chunkSize * chunksX st + floor_div x chunkSize).
      destruct (decide (i = snd c * chunksX st + fst c)) as [E | Hne].
      * rewrite <- E in *. eapply ta_get_set_eq, Hc.
      * rewrite ta_get_set_ne by assumption. exact Hc.
    + unfold set_dirtyChunks. cbn. f_equal.
      set (i := floor_div y chunkSize * chunksX st + floor_div x chunkSize).
      unfold ta_set. destruct (i <? 0); [reflexivity |].
      apply list_insert_insert_eq.
Qed.

(** X8.  A cell whose chunk lies outside the chunk grid is ignored by
    [markChunkDirtyForCell]: the state is unchanged. *)
Theorem mark_outside_ignored (x y : Z) st :
  x < 0 \/ y < 0 \/ chunkSize * chunksX st <= x \/ chunkSize * chunksY st <= y ->
  markChunkDirtyForCell x y st = st.
Proof.
  intros Hout. unfold markChunkDirtyForCell.
  assert ((floor_div x chunkSize <? 0) || (chunksX st <=? floor_div x chunkSize)
          || (floor_div y chunkSize <? 0) || (chunksY st <=? floor_div y chunkSize)
          = true) as ->; [| reflexivity].
  rewrite !orb_true_iff, !Z.ltb_lt, !Z.leb_le.
  unfold floor_div, chunkSize in *. Z.div_mod_to_equations. lia.
Qed.

(** ** Cell writes *)

(** [setMatAt] with coordinates outside [[0,gridW) x [0,gridH)]
    changes nothing at all, whatever the id. *)
Lemma setMatAt_outside_ignored (x y : Z) (id0 : string) st :
  x < 0 \/ gridW st <= x \/ y < 0 \/ gridH st <= y ->
  setMatAt materials x y id0 st = st.
Proof.
  intros Hout. unfold setMatAt.
  assert ((x <? 0) || (gridW st <=? x) || (y <? 0) || (gridH st <=? y) = true)
    as ->; [| reflexivity].
  rewrite !orb_true_iff, !Z.ltb_lt, !Z.leb_le. tauto.
Qed.

(** X9.  [setMatAt] touches one cell of the material array: every other
    entry, every temperature and every flag is unchanged, and so are the
    dimensions and the array lengths. *)
Theorem setMatAt_touches_one_cell (x y : Z) (id0 : string) st (k : nat) :
  Z.of_nat k <> idx st x y ->
  worldMat (setMatAt materials x y id0 st) !! k = worldMat st !! k
  /\ sameHeat st (setMatAt materials x y id0 st)
  /\ sameShape st (setMatAt materials x y id0 st).
Proof.
  intros Hk. unfold setMatAt.
  destruct ((x <? 0) || (gridW st <=? x) || (y <? 0) || (gridH st <=? y));
    [split; [reflexivity | split; [apply sameHeat_refl | apply sameShape_refl]] |].
  destruct (marked_write_frame x y (idx st x y)
              (js_or (getMatIndex materials id0) (getMatIndex materials "EMPTY")) st)
    as [Hs Hh].
  split; [| split; assumption].
  rewrite markChunk_worldMat. unfold writeMat. cbn [worldMat set_worldMat].
  unfold ta_set. destruct (idx st x y <? 0) eqn:E; [reflexivity |].
  apply Z.ltb_ge in E. apply list_lookup_insert_ne. lia.
Qed.

(** ** Rendering *)

(** X10.  In any state, [render] reports exactly the chunks of the chunk
    grid whose flag is set, each once and in row order, changes no cell
    array, and leaves no chunk of the grid dirty: a second [render] reports
    nothing. *)
Theorem render_reports_dirty_once st :
  fst (render st) = filter (chunkDirty st) (chunkCoords st)
  /\ NoDup (fst (render st))
  /\ sameCells st (snd (render st))
  /\ sameShape st (snd (render st))
  /\ fst (render (snd (render st))) = [].
Proof.
  destruct (render_spec st) as (Hp & Hs & Hc & _).
  split; [exact Hp |].
  split; [rewrite Hp; apply NoDup_filter, NoDup_chunkCoords |].
  split; [exact Hc |]. split; [exact Hs | apply render_twice].
Qed.


(** ** What a tick leaves alone *)

(** X12.  One tick never resizes anything and never touches the flags
    array: the grid dimensions, the chunk grid, the lengths of the four
    arrays, the flags array and the temperature switch are the same after
    [simTick] as before. *)
Theorem tick_keeps_shape st :
  gridW (simTick materials random st) = gridW st
  /\ gridH (simTick materials random st) = gridH st
  /\ chunksX (simTick materials random st) = chunksX st
  /\ chunksY (simTick materials random st) = chunksY st
  /\ length (worldMat (simTick materials random st)) = length (worldMat st)
  /\ length (worldTemp (simTick materials random st)) = length (worldTemp st)
  /\ length (dirtyChunks (simTick materials random st)) = length (dirtyChunks st)
  /\ toggleTemp (simTick materials random st) = toggleTemp st
  /\ worldMeta (simTick materials random st) = worldMeta st.
Proof.
  destruct (simTick_quiet materials random st)
    as ((Hw & Hh & Hx & Hy & Hm & Ht & Hd & Ho) & Hmeta & _).
  repeat (split; [assumption |]). assumption.
Qed.

(** X13.  With temperature simulation switched off, one tick changes no
    temperature, whatever moves and reacts. *)
Theorem tick_keeps_temperature_when_off st :
  toggleTemp st = false ->
  worldTemp (simTick materials random st) = worldTemp st.
Proof.
  intros Hoff. destruct (simTick_quiet materials random st) as (_ & _ & Ht).
  exact (Ht Hoff).
Qed.

(** ** Worlds in which nothing happens *)

Lemma staticMaterial_parts mat :
  staticMaterial mat = true ->
  String.prefix "SAND" (mat_id mat) || String.eqb (mat_id mat) "SAND" = false
  /\ flow mat || String.eqb (mat_id mat) "WATER" || String.eqb (mat_id mat) "OIL"
     = false
  /\ isGas mat = false
  /\ String.eqb (mat_id mat) "WATER" = false
  /\ String.eqb (mat_id mat) "LAVA" = false
  /\ flammable mat = false.
Proof.
  unfold staticMaterial. rewrite !andb_true_iff, !negb_true_iff.
  intros ((((Hs & Hf) & Hg) & Hl) & Hb).
  repeat (split; [assumption |]).
  split; [| split; assumption].
  apply orb_false_iff in Hf as [Hf _]. apply orb_false_iff in Hf as [_ Hf]. exact Hf.
Qed.

Lemma static_moveStages (x y : Z) (v : jsval) mat st :
  staticMaterial mat = true ->
  moveStages materials x y v mat st = Next st.
Proof.
  intros Hs. destruct (staticMaterial_parts mat Hs) as (Hsand & Hflow & Hgas & _).
  unfold moveStages, sandStage, flowStage, gasStage.
  rewrite Hsand, Hflow, Hgas. reflexivity.
Qed.

Lemma pass1Cell_quietCell (y : Z) st (x : Z) :
  quietCell materials (matAt st (idx st x y)) = true ->
  worldMat (pass1Cell materials y st x) = worldMat st.
Proof.
  unfold quietCell, pass1Cell.
  destruct (js_negative (matAt st (idx st x y))); [reflexivity |].
  destruct (getMatByIndex materials (matAt st (idx st x y))) as [mat |];
    [| reflexivity].
  destruct (String.eqb (mat_id mat) "WALL" || String.eqb (mat_id mat) "ERASER");
    [reflexivity |].
  rewrite andb_true_iff. cbn [orb]. intros [_ Hs].
  rewrite (static_moveStages x y _ mat st Hs).
  destruct (staticMaterial_parts mat Hs) as (_ & _ & _ & Hw & Hl & Hf).
  unfold tempStage. destruct (toggleTemp st); [| reflexivity].
  rewrite thermalReactions_inert by assumption. reflexivity.
Qed.

Lemma pass2Cell_quietCell (y : Z) st (x : Z) :
  quietCell materials (matAt st (idx st x y)) = true ->
  pass2Cell materials random y st x = st.
Proof.
  unfold quietCell, pass2Cell.
  destruct (getMatByIndex materials (matAt st (idx st x y))) as [mat |];
    [| reflexivity].
  unfold unreactive. rewrite !andb_true_iff, !negb_true_iff.
  intros [[[-> ->] ->] _]. reflexivity.
Qed.

(** X14.  Conservation: when every cell is quiet (it names no material, or
    an unreactive material that is skipped or static, such as EMPTY, STONE
    and WALL), one tick leaves the material array exactly as it was, with
    temperature simulation on or off. *)
Theorem tick_on_quiet_world st :
  (forall i : Z, quietCell materials (matAt st i) = true) ->
  worldMat (simTick materials random st) = worldMat st.
Proof.
  intros Hq.
  assert (forall s : App (T := T), worldMat s = worldMat st /\ gridW s = gridW st ->
                    forall x y, quietCell materials (matAt s (idx s x y)) = true)
    as Hcell.
  { intros s [Hm Hw] x y. unfold matAt, idx. rewrite Hm, Hw. apply (Hq (y * gridW st + x)). }
  assert (forall (s : App (T := T)) y x, worldMat s = worldMat st /\ gridW s = gridW st ->
                        worldMat (pass1Cell materials y s x) = worldMat st
                        /\ gridW (pass1Cell materials y s x) = gridW st) as Hstep1.
  { intros s y x Hs. pose proof Hs as [Hm Hw]. split.
    - rewrite pass1Cell_quietCell by (apply Hcell, Hs). exact Hm.
    - destruct (pass1Cell_quiet materials y s x) as ((E & _) & _). congruence. }
  assert (forall (s : App (T := T)) y x, worldMat s = worldMat st /\ gridW s = gridW st ->
                        worldMat (pass2Cell materials random y s x) = worldMat st
                        /\ gridW (pass2Cell materials random y s x) = gridW st)
    as Hstep2.
  { intros s y x Hs. rewrite pass2Cell_quietCell by (apply Hcell, Hs). exact Hs. }
  unfold simTick.
  assert (worldMat (pass1 materials st) = worldMat st
          /\ gridW (pass1 materials st) = gridW st) as H1.
  { unfold pass1.
    apply (foldl_invariant
             (fun s : App (T := T) => worldMat s = worldMat st /\ gridW s = gridW st));
      [| split; reflexivity].
    intros s y Hs. unfold pass1Row.
    apply (foldl_invariant
             (fun s' : App (T := T) => worldMat s' = worldMat st /\ gridW s' = gridW st));
      [| exact Hs].
    intros s' x Hs'. apply Hstep1, Hs'. }
  unfold pass2.
  apply (foldl_invariant
           (fun s : App (T := T) => worldMat s = worldMat st /\ gridW s = gridW st));
    [| exact H1].
  intros s y Hs. unfold pass2Row.
  apply (foldl_invariant
           (fun s' : App (T := T) => worldMat s' = worldMat st /\ gridW s' = gridW st));
    [| exact Hs].
  intros s' x Hs'. apply Hstep2, Hs'.
Qed.


(** ** Cells keep naming materials *)

Section ValidIndices.

(** The table is not empty and its positions fit a 32-bit signed cell. *)
Hypothesis table_nonempty : (0 < length materials)%nat.
Hypothesis table_fits : Z.of_nat (length materials) <= 2 ^ 31.

Lemma wrap32_small (z : Z) : - 2 ^ 31 <= z < 2 ^ 31 -> wrap32 z = z.
Proof. intros Hz. unfold wrap32. rewrite Z.mod_small; lia. Qed.

Lemma valid_zero : validIndex materials 0.
Proof. unfold validIndex. lia. Qed.

Lemma valid_getMatIndex (k : string) :
  validIndex materials (toInt32 (getMatIndex materials k)).
Proof.
  unfold getMatIndex. destruct (keyIndex k materials) as [i |] eqn:E.
  - apply keyIndex_lt in E. simpl. rewrite wrap32_small by lia.
    unfold validIndex. lia.
  - destruct (inherited k); apply valid_zero.
Qed.

Lemma valid_matAt st (i : Z) :
  validWorld materials st -> validIndex materials (toInt32 (matAt st i)).
Proof.
  intros Hv. unfold matAt, ta_get.
  destruct (i <? 0); [apply valid_zero |].
  destruct (worldMat st !! Z.to_nat i) as [z |] eqn:E; [| apply valid_zero].
  pose proof (Forall_lookup_1 _ _ _ _ Hv E) as Hz.
  simpl. unfold validIndex in Hz. rewrite wrap32_small by lia. exact Hz.
Qed.

Lemma valid_js_or (a b : jsval) :
  validIndex materials (toInt32 a) -> validIndex materials (toInt32 b) ->
  validIndex materials (toInt32 (js_or a b)).
Proof. unfold js_or. destruct (truthy a); auto. Qed.

Lemma valid_ta_set (l : list Z) (i z : Z) :
  Forall (validIndex materials) l -> validIndex materials z ->
  Forall (validIndex materials) (ta_set l i z).
Proof.
  intros Hl Hz. unfold ta_set. destruct (i <? 0); [exact Hl |].
  apply Forall_insert; assumption.
Qed.

Lemma valid_writeMat (i : Z) (v : jsval) st :
  validWorld materials st -> validIndex materials (toInt32 v) ->
  validWorld materials (writeMat i v st).
Proof. intros Hs Hv. apply valid_ta_set; assumption. Qed.

Lemma valid_mark (x y : Z) st :
  validWorld materials st -> validWorld materials (markChunkDirtyForCell x y st).
Proof. unfold validWorld. rewrite markChunk_worldMat. auto. Qed.

Lemma valid_moveCell (x y x' y' : Z) (v : jsval) st :
  validWorld materials st -> validIndex materials (toInt32 v) ->
  validWorld materials (moveCell materials x y x' y' v st).
Proof.
  intros Hs Hv. unfold moveCell.
  repeat apply valid_mark.
  apply valid_writeMat; [| apply valid_getMatIndex].
  apply valid_writeMat; assumption.
Qed.

Ltac valid_cases :=
  repeat match goal with
         | |- context [if ?b then _ else _] => destruct b
         end;
  simpl; try assumption; try (apply valid_moveCell; assumption).

Lemma valid_moveStages (x y : Z) (v : jsval) mat st :
  validWorld materials st -> validIndex materials (toInt32 v) ->
  validWorld materials (flowState (moveStages materials x y v mat st)).
Proof.
  intros Hs Hv.
  assert (forall st1, validWorld materials st1 ->
                      validWorld materials (flowState (sandStage materials x y v mat st1)))
    as Hsand by (intros st1 H1; unfold sandStage, callRng; valid_cases).
  assert (forall st1, validWorld materials st1 ->
                      validWorld materials (flowState (flowStage materials x y v mat st1)))
    as Hflow
      by (intros st1 H1; unfold flowStage, flowSideways, callRng; valid_cases).
  assert (forall st1, validWorld materials st1 ->
                      validWorld materials (flowState (gasStage materials x y v mat st1)))
    as Hgas by (intros st1 H1; unfold gasStage; valid_cases).
  unfold moveStages.
  specialize (Hsand st Hs).
  destruct (sandStage materials x y v mat st) as [s1 | s1]; [exact Hsand |].
  specialize (Hflow s1 Hsand).
  destruct (flowStage materials x y v mat s1) as [s2 | s2]; [exact Hflow |].
  apply Hgas, Hflow.
Qed.

Lemma valid_transition (c : bool) (x y i : Z) (v : jsval) (t : T) st :
  validWorld materials st -> validIndex materials (toInt32 v) ->
  validWorld materials
    (if c then markChunkDirtyForCell x y (writeTemp i t (writeMat i v st)) else st).
Proof.
  intros Hs Hv. destruct c; [| exact Hs].
  apply valid_mark. apply (valid_writeMat i v st Hs Hv).
Qed.

Lemma valid_thermalReactions (x y : Z) (v : jsval) mat st :
  validWorld materials st -> validIndex materials (toInt32 v) ->
  validWorld materials (thermalReactions materials x y v mat st).
Proof.
  intros Hs Hv. unfold thermalReactions. cbv zeta.
  apply valid_transition; [| apply valid_getMatIndex].
  destruct (String.eqb (mat_id mat) "LAVA").
  - apply valid_transition; [| apply valid_getMatIndex].
    apply valid_transition; [exact Hs |].
    apply valid_js_or; [apply valid_getMatIndex | exact Hv].
  - apply valid_transition; [exact Hs |].
    apply valid_js_or; [apply valid_getMatIndex | exact Hv].
Qed.

Lemma valid_pass1Cell (y : Z) st (x : Z) :
  validWorld materials st -> validWorld materials (pass1Cell materials y st x).
Proof.
  intros Hs. unfold pass1Cell.
  destruct (js_negative _); [exact Hs |].
  destruct (getMatByIndex _ _) as [mat |]; [| exact Hs].
  destruct (_ || _); [exact Hs |].
  pose proof (valid_moveStages x y (matAt st (idx st x y)) mat st Hs
                (valid_matAt st _ Hs)) as Hm.
  destruct (moveStages materials x y (matAt st (idx st x y)) mat st) as [s1 | s1];
    simpl in Hm; [exact Hm |].
  unfold tempStage. destruct (toggleTemp s1); [| exact Hm].
  apply valid_thermalReactions; [exact Hm | apply valid_matAt, Hs].
Qed.

Lemma valid_reaction_steps st (n : Z * Z) (x y : Z) :
  validWorld materials st ->
  validWorld materials (acidStep materials random st n)
  /\ validWorld materials (oilStep materials random x y st n)
  /\ validWorld materials (seedStep materials random x y st n).
Proof.
  intros Hs. destruct n as [nx ny].
  unfold acidStep, oilStep, seedStep, mathRandom. cbv zeta.
  split; [| split].
  - destruct (hasId _ _); [| exact Hs]. destruct (Qltb _ _); [| exact Hs].
    apply valid_mark, valid_writeMat; [exact Hs | apply valid_getMatIndex].
  - destruct (hasId _ _); [| exact Hs]. destruct (Qltb _ _); [| exact Hs].
    apply valid_mark, valid_writeMat; [exact Hs | apply valid_getMatIndex].
  - destruct (hasId _ _); [| exact Hs]. destruct (Qltb _ _); [| exact Hs].
    assert (validWorld materials
              (writeMat (idx (set_drawn (S (drawn st)) st) x y)
                        (getMatIndex materials "SEED")
                        (set_drawn (S (drawn st)) st))) as H2
        by (apply valid_writeMat; [exact Hs | apply valid_getMatIndex]).
    destruct (Qltb _ _); [| exact H2].
    apply valid_mark, valid_writeMat; [exact H2 | apply valid_getMatIndex].
Qed.

Lemma valid_pass2Cell (y : Z) st (x : Z) :
  validWorld materials st ->
  validWorld materials (pass2Cell materials random y st x).
Proof.
  intros Hs. unfold pass2Cell.
  destruct (getMatByIndex _ _) as [mat |]; [| exact Hs].
  assert (forall (f : App (T := T) -> Z * Z -> App (T := T)) (l : list (Z * Z)) st1,
             (forall st2 n, validWorld materials st2 -> validWorld materials (f st2 n)) ->
             validWorld materials st1 -> validWorld materials (foldl f st1 l))
    as Hfold.
  { intros f l st1 Hf H1.
    apply (foldl_invariant (fun st2 => validWorld materials st2)); assumption. }
  cbv zeta.
  destruct (String.eqb (mat_id mat) "SEED"); [apply Hfold |];
    try (intros st2 n H2; apply (valid_reaction_steps st2 n x y H2));
    (destruct (String.eqb (mat_id mat) "OIL"); [apply Hfold |];
     try (intros st2 n H2; apply (valid_reaction_steps st2 n x y H2));
     (destruct (String.eqb (mat_id mat) "ACID"); [apply Hfold |];
      try (intros st2 n H2; apply (valid_reaction_steps st2 n x y H2));
      exact Hs)).
Qed.

(** X15.  When every cell holds a position of the material table before a
    tick, every cell does after it: a tick stores only indices it read from
    the grid or positions looked up in the table (a failed lookup is stored
    as 0). *)
Theorem tick_keeps_valid_indices st :
  validWorld materials st -> validWorld materials (simTick materials random st).
Proof.
  intros Hs. unfold simTick, pass1, pass2.
  apply (foldl_invariant (fun st2 => validWorld materials st2)).
  - intros st2 y H2. unfold pass2Row.
    apply (foldl_invariant (fun st3 => validWorld materials st3)); [| exact H2].
    intros st3 x H3. apply valid_pass2Cell, H3.
  - apply (foldl_invariant (fun st2 => validWorld materials st2)); [| exact Hs].
    intros st2 y H2. unfold pass1Row.
    apply (foldl_invariant (fun st3 => validWorld materials st3)); [| exact H2].
    intros st3 x H3. apply valid_pass1Cell, H3.
Qed.

(** X16.  Painting keeps every cell a position of the material table:
    [setMatAt] and [drawBrushAt] store the index of the id or, when the id
    is unknown, of EMPTY. *)
Theorem paint_keeps_valid_indices (x y : Z) (id0 : string) (b : Brush) st :
  validWorld materials st ->
  validWorld materials (setMatAt materials x y id0 st)
  /\ validWorld materials (drawBrushAt materials random b id0 x y st).
Proof.
  intros Hs.
  assert (validIndex materials (paintIndex materials id0)) as Hp
    by (apply valid_js_or; apply valid_getMatIndex).
  split.
  - unfold setMatAt. destruct (_ || _); [exact Hs |].
    apply valid_mark, valid_writeMat; [exact Hs | exact Hp].
  - unfold drawBrushAt.
    apply (foldl_invariant (fun st2 => validWorld materials st2)); [| exact Hs].
    intros st2 d H2.
    destruct (brushCell_effect materials random b id0 x y st2 d) as (_ & _ & Hcase).
    cbv zeta in Hcase. unfold validWorld.
    destruct Hcase as [[-> _] | (x' & y' & _ & _ & _ & -> & _)]; [exact H2 |].
    apply valid_ta_set; assumption.
Qed.

End ValidIndices.


(** ** Saving and loading *)

Lemma allocateWorld_fields (w h : Z) st :
  0 <= w * h ->
  exists st1,
    allocateWorld materials w h st = Normal st1
    /\ gridW st1 = w /\ gridH st1 = h
    /\ worldMat st1 = replicate (Z.to_nat (w * h)) (fillIndex materials)
    /\ worldTemp st1 = replicate (Z.to_nat (w * h)) (t_fround (t_lit 20))
    /\ worldMeta st1 = replicate (Z.to_nat (w * h)) 0.
Proof.
  intros Hn. unfold allocateWorld.
  destruct (Z.ltb_spec (w * h) 0); [lia |].
  eexists. split; [reflexivity |]. repeat split.
Qed.

Lemma map_fixed {A : Type} (f : A -> A) (l : list A) :
  Forall (fun a => f a = a) l -> map f l = l.
Proof. induction 1 as [| a l Ha _ IH]; simpl; [reflexivity | congruence]. Qed.

Lemma ta_setAll_full {A : Type} (source : list A) (v : A) :
  ta_setAll (replicate (length source) v) source = Some source.
Proof.
  rewrite ta_setAll_replicate. rewrite Nat.ltb_irrefl.
  unfold overwritePrefix. rewrite Nat.sub_diag. simpl. rewrite app_nil_r. reflexivity.
Qed.

(** X17.  Saving a world and loading the saved file, over any current
    world, completes and gives back the grid dimensions and the material
    array exactly; every temperature comes back as the single-precision
    rounding of what the JSON text keeps of it, so the temperature array
    comes back exactly when every temperature survives both ([NaN] and the
    infinities do not: they come back as 0); the flags array is not saved
    and comes back as zeros.  The world must have non-zero dimensions (a
    zero [w] or [h] makes the file "invalid"), arrays of [w * h] entries
    and cells in the 32-bit range. *)
Theorem save_load_round_trip st st0 :
  gridW st <> 0 -> gridH st <> 0 -> 0 <= gridW st * gridH st ->
  length (worldMat st) = Z.to_nat (gridW st * gridH st) ->
  length (worldTemp st) = Z.to_nat (gridW st * gridH st) ->
  Forall (fun z => wrap32 z = z) (worldMat st) ->
  fst (loadWorldPrompt materials (saveWorldPrompt st) st0) = Loaded
  /\ gridW (snd (loadWorldPrompt materials (saveWorldPrompt st) st0)) = gridW st
  /\ gridH (snd (loadWorldPrompt materials (saveWorldPrompt st) st0)) = gridH st
  /\ worldMat (snd (loadWorldPrompt materials (saveWorldPrompt st) st0))
     = worldMat st
  /\ worldTemp (snd (loadWorldPrompt materials (saveWorldPrompt st) st0))
     = map (fun t => t_fround (t_json t)) (worldTemp st)
  /\ (Forall (fun t => t_fround (t_json t) = t) (worldTemp st) ->
      worldTemp (snd (loadWorldPrompt materials (saveWorldPrompt st) st0))
      = worldTemp st)
  /\ worldMeta (snd (loadWorldPrompt materials (saveWorldPrompt st) st0))
     = replicate (Z.to_nat (gridW st * gridH st)) 0.
Proof.
  intros Hw Hh Hn Hlm Hlt Hm.
  unfold loadWorldPrompt, saveWorldPrompt.
  cbn [snap_mat snap_w snap_h snap_temp].
  assert ((gridW st =? 0) || (gridH st =? 0) = false) as Hz
    by (rewrite orb_false_iff, !Z.eqb_neq; split; assumption).
  rewrite Hz. unfold setResolution. rewrite Hz.
  destruct (allocateWorld_fields (gridW st) (gridH st)
              (set_grid (gridW st) (gridH st) st0) Hn) as (s1 & -> & _).
  destruct (allocateWorld_fields (gridW st) (gridH st)
              (snd (render (markAllDirty s1))) Hn)
    as (s2 & -> & Hw2 & Hh2 & Hmat2 & Htemp2 & Hmeta2).
  rewrite (map_fixed wrap32 _ Hm), map_map.
  set (ts := map (fun t => t_fround (t_json t)) (worldTemp st)).
  assert (length ts = Z.to_nat (gridW st * gridH st)) as Hts
    by (unfold ts; rewrite length_map; exact Hlt).
  rewrite Hmat2, <- Hlm, ta_setAll_full.
  cbn [worldTemp set_worldMat]. rewrite Htemp2, Hlm, <- Hts, ta_setAll_full.
  cbn [fst snd].
  destruct (render_spec (markAllDirty
                           (set_worldTemp ts (set_worldMat (worldMat st) s2))))
    as (_ & (E1 & E2 & _) & (E3 & E4 & E5) & _).
  rewrite E1, E2, E3, E4, E5. cbn. rewrite Hmeta2, Hts.
  repeat split; try assumption.
  intros Hfix. unfold ts. apply map_fixed, Hfix.
Qed.

(** ** The footprint of the brush *)

Lemma brushCell_paints_temp (b : Brush) (cur : string) (gx gy dx dy : Z) st :
  soft b = false ->
  Qltb (random (drawn st)) 1 = true ->
  0 <= gx + dx < gridW st -> 0 <= gy + dy < gridH st ->
  dx * dx + dy * dy <= size b * size b ->
  worldTemp (brushCell materials random b cur gx gy st (dx, dy))
  = ta_set (worldTemp st) (idx st (gx + dx) (gy + dy)) (paintTemp materials cur).
Proof.
  intros Hhard Hu Hx Hy Hd. unfold brushCell.
  assert ((gx + dx <? 0) || (gy + dy <? 0) || (gridW st <=? gx + dx)
          || (gridH st <=? gy + dy) = false) as ->.
  { rewrite !orb_false_iff, !Z.ltb_ge, !Z.leb_gt. lia. }
  assert ((size b * size b <? dx * dx + dy * dy) = false) as ->
    by (rewrite Z.ltb_ge; lia).
  unfold mathRandom, brushHit. rewrite Hhard, Hu.
  rewrite markChunk_worldTemp. reflexivity.
Qed.

Lemma painted_temp_stays (b : Brush) (cur : string) (gx gy : Z) (k : nat)
    (l : list (Z * Z)) st :
  worldTemp st !! k = Some (paintTemp materials cur) ->
  worldTemp (foldl (brushCell materials random b cur gx gy) st l) !! k
  = Some (paintTemp materials cur).
Proof.
  revert st. induction l as [| d l IH]; intros st Hk; simpl; [exact Hk |].
  apply IH.
  pose proof (brushCell_effect materials random b cur gx gy st d) as (_ & _ & Hcase).
  cbv zeta in Hcase.
  destruct Hcase as [[_ Et] | (x & y & Hx & Hy & _ & _ & Et)]; rewrite Et.
  - exact Hk.
  - pose proof (idx_in_grid st x y Hx Hy) as Hi.
    destruct (lookup_ta_set_cases (worldTemp st) (idx st x y)
                (paintTemp materials cur) k) as [E | [_ E]]; [lia | |].
    + rewrite E. exact Hk.
    + exact E.
Qed.

Lemma hard_brush_heats_disk (b : Brush) (cur : string) (gx gy x y : Z) st :
  soft b = false ->
  (forall n, Qltb (random n) 1 = true) ->
  length (worldTemp st) = Z.to_nat (gridW st * gridH st) ->
  0 <= size b ->
  0 <= x < gridW st -> 0 <= y < gridH st ->
  (x - gx) * (x - gx) + (y - gy) * (y - gy) <= size b * size b ->
  tempAt (drawBrushAt materials random b cur gx gy st) (idx st x y)
  = paintTemp materials cur.
Proof.
  intros Hhard Hu Hlen Hr Hx Hy Hd.
  pose proof (idx_in_grid st x y Hx Hy) as Hi.
  destruct (list_elem_of_split _ _ (offset_in_brush (size b) (x - gx) (y - gy) Hd Hr))
    as (l1 & l2 & Hl).
  unfold drawBrushAt. rewrite Hl, foldl_app. cbn [foldl].
  set (s1 := foldl (brushCell materials random b cur gx gy) st l1).
  assert (brushFrame materials st s1 (size b) cur gx gy) as Hf.
  { apply (foldl_invariant (fun st2 => brushFrame materials st st2 (size b) cur gx gy)).
    - intros st2 d H2. apply brushFrame_step, H2.
    - apply brushFrame_refl. }
  destruct Hf as ((Hw & Hh & _ & _ & _ & Hlt & _) & _).
  unfold tempAt, ta_get. destruct (Z.ltb_spec (idx st x y) 0); [lia |].
  rewrite painted_temp_stays; [reflexivity |].
  rewrite (brushCell_paints_temp b cur gx gy (x - gx) (y - gy) s1 Hhard (Hu _));
    try (rewrite ?Hw, ?Hh; lia).
  replace (gx + (x - gx)) with x by lia.
  replace (gy + (y - gy)) with y by lia.
  assert (idx s1 x y = idx st x y) as -> by (unfold idx; rewrite Hw; reflexivity).
  apply lookup_ta_set. lia.
Qed.


(** X18.  The footprint of a hard brush whose samples are below 1, on a
    world with arrays of [gridW * gridH] entries: a cell of the grid holds
    the painted index and the painted temperature when it lies within the
    radius of the centre, and is exactly what it was when it does not. *)
Theorem hard_brush_footprint (b : Brush) (cur : string) (gx gy x y : Z) st :
  soft b = false ->
  (forall n, Qltb (random n) 1 = true) ->
  length (worldMat st) = Z.to_nat (gridW st * gridH st) ->
  length (worldTemp st) = Z.to_nat (gridW st * gridH st) ->
  0 <= size b ->
  0 <= x < gridW st -> 0 <= y < gridH st ->
  matAt (drawBrushAt materials random b cur gx gy st) (idx st x y)
  = (if inDisk (size b) gx gy x y then JNumber (paintIndex materials cur)
     else matAt st (idx st x y))
  /\ tempAt (drawBrushAt materials random b cur gx gy st) (idx st x y)
     = (if inDisk (size b) gx gy x y then paintTemp materials cur
        else tempAt st (idx st x y)).
Proof.
  intros Hhard Hu Hlm Hlt Hr Hx Hy. unfold inDisk.
  destruct (Z.leb_spec ((x - gx) * (x - gx) + (y - gy) * (y - gy))
                       (size b * size b)) as [Hin | Hout].
  - split; [apply hard_brush_paints_disk | apply hard_brush_heats_disk];
      assumption.
  - pose proof (idx_in_grid st x y Hx Hy) as Hi.
    destruct (drawBrushAt_frame materials random b cur gx gy st) as (_ & _ & Hk).
    destruct (Hk (Z.to_nat (idx st x y))) as [Hm Ht].
    assert (~ inBrush st (size b) gx gy (Z.to_nat (idx st x y))) as Hno.
    { intros (x' & y' & Hx' & Hy' & Hd & E & _).
      rewrite Z2Nat.id in E by lia.
      destruct (idx_injective st x y x' y' Hx Hx' E) as [-> ->]. lia. }
    unfold matAt, tempAt, ta_get. destruct (Z.ltb_spec (idx st x y) 0); [lia |].
    destruct Hm as [-> | [Hb _]]; [| contradiction].
    destruct Ht as [-> | [Hb _]]; [| contradiction].
    split; reflexivity.
Qed.

(** X19.  Degenerate brushes paint nothing: with a negative radius the
    loops have no turn, and a soft brush of radius 0 computes the
    probability [0/0], which no sample is below.  The three cell arrays are
    unchanged. *)
Theorem degenerate_brush_paints_nothing (b : Brush) (cur : string) (gx gy : Z) st :
  size b < 0 \/ (soft b = true /\ size b = 0) ->
  sameCells st (drawBrushAt materials random b cur gx gy st).
Proof.
  intros [Hneg | [Hsoft Hzero]]; unfold drawBrushAt.
  - unfold brushOffsets. rewrite seqZ_nil by lia. repeat split.
  - rewrite Hzero. change (brushOffsets 0) with [(0, 0)]. cbn [foldl].
    unfold brushCell, mathRandom, brushHit. rewrite Hsoft, Hzero.
    cbn [Z.eqb].
    destruct (_ || _); [repeat split |].
    destruct (_ <? _); repeat split.
Qed.


(** ** Levels *)

Lemma setMatAt_frame (x y : Z) (id0 : string) st :
  sameShape st (setMatAt materials x y id0 st)
  /\ sameHeat st (setMatAt materials x y id0 st).
Proof.
  unfold setMatAt. destruct (_ || _);
    [split; [apply sameShape_refl | apply sameHeat_refl] |].
  apply marked_write_frame.
Qed.

Lemma writeCells_frame (cells : list (Z * Z * string)) st :
  sameShape st (foldl (writeCell materials) st cells)
  /\ sameHeat st (foldl (writeCell materials) st cells).
Proof.
  apply (foldl_invariant (fun st2 => sameShape st st2 /\ sameHeat st st2));
    [| split; [apply sameShape_refl | apply sameHeat_refl]].
  intros st2 c [Hs Hh]. unfold writeCell.
  destruct (setMatAt_frame (fst (fst c)) (snd (fst c)) (snd c) st2) as [Hs' Hh'].
  split; [eapply sameShape_trans | eapply sameHeat_trans]; eassumption.
Qed.

Lemma applyStartMap_frame (name : option string) st :
  sameShape st (applyStartMap materials name st)
  /\ sameHeat st (applyStartMap materials name st).
Proof.
  assert (forall (c : bool) (cells : list (Z * Z * string)) st1,
             sameShape st st1 /\ sameHeat st st1 ->
             sameShape st (if c then foldl (writeCell materials) st1 cells else st1)
             /\ sameHeat st (if c then foldl (writeCell materials) st1 cells else st1))
    as Hstep.
  { intros c cells st1 [Hs Hh]. destruct c; [| split; assumption].
    destruct (writeCells_frame cells st1) as [Hs' Hh'].
    split; [eapply sameShape_trans | eapply sameHeat_trans]; eassumption. }
  pose proof (conj (sameShape_refl st) (sameHeat_refl st)) as H0.
  unfold applyStartMap. destruct name as [n |]; [| exact H0].
  destruct (_ || _); [exact H0 |].
  cbv zeta. repeat apply Hstep. exact H0.
Qed.

(** X20.  [loadLevel] with an id that is not in the campaign changes
    nothing.  With a known id it always ends with a 400x300 world whose
    three cell arrays have 120000 entries, every temperature 20 and every
    flag 0, whatever the start map of the level writes. *)
Theorem loadLevel_outcome (levels : list Level) (levelId : string) st :
  match List.find (fun l => String.eqb (level_id l) levelId) levels with
  | None => loadLevel materials levels levelId st = Normal st
  | Some lv =>
      exists st1,
        loadLevel materials levels levelId st = Normal st1
        /\ gridW st1 = 400 /\ gridH st1 = 300
        /\ length (worldMat st1) = Z.to_nat (400 * 300)
        /\ worldTemp st1 = replicate (Z.to_nat (400 * 300)) (t_fround (t_lit 20))
        /\ worldMeta st1 = replicate (Z.to_nat (400 * 300)) 0
  end.
Proof.
  unfold loadLevel.
  destruct (List.find (fun l => String.eqb (level_id l) levelId) levels) as [lv |];
    [| reflexivity].
  unfold setResolution. change ((400 =? 0) || (300 =? 0)) with false. cbv iota.
  assert (0 <= 400 * 300) as Hn by lia.
  destruct (allocateWorld_fields 400 300 (set_grid 400 300 st) Hn)
    as (s1 & -> & Hw1 & Hh1 & _).
  destruct (render_spec (markAllDirty s1)) as (_ & (Ew & Eh & _) & _).
  cbn [gridW gridH markAllDirty set_dirtyChunks] in Ew, Eh.
  rewrite Ew, Eh, Hw1, Hh1.
  destruct (allocateWorld_fields 400 300 (snd (render (markAllDirty s1))) Hn)
    as (s2 & -> & Hw2 & Hh2 & Hmat2 & Htemp2 & Hmeta2).
  destruct (applyStartMap_frame (startMap lv) s2)
    as ((Fw & Fh & _ & _ & Flm & _) & (Ft & Fm)).
  eexists. split; [reflexivity |].
  rewrite Fw, Fh, Flm, Ft, Fm, Hw2, Hh2, Hmat2, Htemp2, Hmeta2, length_replicate.
  repeat split.
Qed.


(** ** Changing the resolution *)

(** X21.  [setResolution] does nothing for a zero width or height; it
    throws, with only the dimensions assigned, when [w * h] is negative;
    and otherwise it leaves a freshly allocated [w] x [h] world that has
    already been rendered: no chunk of its chunk grid is dirty. *)
Theorem setResolution_outcome (w h : Z) st :
  if (w =? 0) || (h =? 0) then setResolution materials w h st = Normal st
  else
    match setResolution materials w h st with
    | Normal st1 =>
        0 <= w * h /\ gridW st1 = w /\ gridH st1 = h
        /\ worldMat st1 = replicate (Z.to_nat (w * h)) (fillIndex materials)
        /\ worldTemp st1 = replicate (Z.to_nat (w * h)) (t_fround (t_lit 20))
        /\ forall c, c ∈ chunkCoords st1 -> ~ chunkDirty st1 c
    | RangeError st1 => w * h < 0 /\ st1 = set_grid w h st
    end.
Proof.
  unfold setResolution. destruct ((w =? 0) || (h =? 0)); [reflexivity |].
  destruct (Z.ltb_spec (w * h) 0) as [Hneg | Hpos].
  - unfold allocateWorld. cbn [gridW gridH set_grid].
    destruct (Z.ltb_spec (w * h) 0); [| lia]. split; [exact Hneg | reflexivity].
  - destruct (allocateWorld_fields w h (set_grid w h st) Hpos)
      as (s1 & -> & Hw & Hh & Hm & Ht & _).
    destruct (render_spec (markAllDirty s1))
      as (_ & Hs & (Em & Et & _) & Hclean).
    pose proof Hs as (Ew & Eh & _).
    split; [exact Hpos |].
    rewrite Ew, Eh, Em, Et. cbn [gridW gridH worldMat worldTemp markAllDirty set_dirtyChunks].
    repeat (split; [assumption |]).
    intros c Hc. apply Hclean. rewrite <- (chunkCoords_ext _ _ Hs). exact Hc.
Qed.

(** ** Reactions and samples *)

Lemma high_sample (u : Q) :
  Qltb u (2 # 10) = false ->
  Qltb u (2 # 100) = false /\ Qltb u (5 # 100) = false.
Proof.
  rewrite !Qltb_ge. intros Hu.
  split; (eapply Qle_trans; [| exact Hu]); unfold Qle; simpl; lia.
Qed.

Lemma reaction_steps_idle st (n : Z * Z) (x y : Z) :
  (forall k, Qltb (random k) (2 # 10) = false) ->
  worldMat (acidStep materials random st n) = worldMat st
  /\ worldMat (oilStep materials random x y st n) = worldMat st
  /\ worldMat (seedStep materials random x y st n) = worldMat st.
Proof.
  intros Hu. destruct n as [nx ny].
  destruct (high_sample _ (Hu (drawn st))) as [H2 H5].
  unfold acidStep, oilStep, seedStep, mathRandom. cbv zeta.
  rewrite H2, H5, (Hu (drawn st)).
  repeat split; destruct (hasId _ _); reflexivity.
Qed.

(** X22.  No reaction without a low sample: when every [Math.random]
    sample is at least 0.2, the reaction pass stores nothing, so the
    material array after a tick is the one the movement pass left. *)
Theorem reactions_need_low_sample st :
  (forall k, Qltb (random k) (2 # 10) = false) ->
  worldMat (simTick materials random st) = worldMat (pass1 materials st).
Proof.
  intros Hu.
  assert (forall (f : App (T := T) -> Z * Z -> App (T := T)) (l : list (Z * Z)) st1,
             (forall st2 n, worldMat (f st2 n) = worldMat st2) ->
             worldMat (foldl f st1 l) = worldMat st1) as Hfold.
  { intros f l st1 Hf.
    apply (foldl_invariant (fun st2 => worldMat st2 = worldMat st1));
      [| reflexivity].
    intros st2 n H2. rewrite Hf. exact H2. }
  assert (forall st1 y x, worldMat (pass2Cell materials random y st1 x) = worldMat st1)
    as Hcell.
  { intros st1 y x. unfold pass2Cell.
    destruct (getMatByIndex _ _) as [mat |]; [| reflexivity]. cbv zeta.
    assert (worldMat (if String.eqb (mat_id mat) "ACID"
                      then foldl (acidStep materials random) st1
                             (neighborCoords st1 x y)
                      else st1) = worldMat st1) as H1.
    { destruct (String.eqb (mat_id mat) "ACID"); [| reflexivity].
      apply Hfold. intros st2 n. apply (reaction_steps_idle st2 n x y Hu). }
    set (st2 := if String.eqb (mat_id mat) "ACID" then _ else st1) in *.
    assert (worldMat (if String.eqb (mat_id mat) "OIL"
                      then foldl (oilStep materials random x y) st2
                             (neighborCoords st2 x y)
                      else st2) = worldMat st1) as H2.
    { destruct (String.eqb (mat_id mat) "OIL"); [| exact H1].
      rewrite Hfold; [exact H1 |].
      intros st3 n. apply (reaction_steps_idle st3 n x y Hu). }
    set (st3 := if String.eqb (mat_id mat) "OIL" then _ else st2) in *.
    destruct (String.eqb (mat_id mat) "SEED"); [| exact H2].
    rewrite Hfold; [exact H2 |].
    intros st4 n. apply (reaction_steps_idle st4 n x y Hu). }
  unfold simTick, pass2.
  apply (foldl_invariant
           (fun st2 => worldMat st2 = worldMat (pass1 materials st)));
    [| reflexivity].
  intros st2 y H2. unfold pass2Row.
  apply (foldl_invariant
           (fun st3 => worldMat st3 = worldMat (pass1 materials st)));
    [| exact H2].
  intros st3 x H3. rewrite Hcell. exact H3.
Qed.

(** ** Chunks and flag positions *)




End Further.

(** * The further properties on concrete inputs *)

Lemma builtin_keys_distinct : NoDup (builtinMaterials.*1).
Proof.
  change (builtinMaterials.*1)
    with ["EMPTY"; "SAND"; "WATER"; "FIRE"; "STONE"; "ERASER"; "WALL"]%string.
  repeat (apply NoDup_cons; split;
          [rewrite ?elem_of_cons, elem_of_nil; intros Hin;
           repeat (destruct Hin as [Hin | Hin]; [discriminate |]); exact Hin |]).
  apply NoDup_nil_2.
Qed.

Lemma default_keys_distinct : NoDup (defaultMaterials.*1).
Proof.
  change (defaultMaterials.*1)
    with ["EMPTY"; "SAND"; "WATER"; "FIRE"; "STONE"]%string.
  repeat (apply NoDup_cons; split;
          [rewrite ?elem_of_cons, elem_of_nil; intros Hin;
           repeat (destruct Hin as [Hin | Hin]; [discriminate |]); exact Hin |]).
  apply NoDup_nil_2.
Qed.

Lemma index_round_trip_witness :
  getMatIndex builtinMaterials "SAND" = JNumber 1
  /\ getMatByIndex builtinMaterials (getMatIndex builtinMaterials "SAND")
     = Some sandMat.
Proof.
  apply (index_round_trip builtinMaterials 1 "SAND" sandMat builtin_keys_distinct).
  reflexivity.
Defined.

Lemma proto_keys_distinct : NoDup (protoMaterials.*1).
Proof.
  change (protoMaterials.*1) with ["EMPTY"; "__proto__"; "SAND"]%string.
  repeat (apply NoDup_cons; split;
          [rewrite ?elem_of_cons, elem_of_nil; intros Hin;
           repeat (destruct Hin as [Hin | Hin]; [discriminate |]); exact Hin |]).
  apply NoDup_nil_2.
Qed.

(** With two SAND variants generated, WATER keeps index 2 and the table
    has the nine keys of the base, the variants and the tools.  In the
    file with a ["__proto__"] entry before SAND, SAND gets index 1 and the
    entry is no key of the table. *)
Lemma prepareMaterials_keeps_indices_witness :
  getMatIndex (prepareMaterials defaultMaterials sandVariants) "WATER" = JNumber 2
  /\ (prepareMaterials defaultMaterials sandVariants).*1
     = ["EMPTY"; "SAND"; "WATER"; "FIRE"; "STONE"; "SAND_V0"; "SAND_V1";
        "ERASER"; "WALL"]%string
  /\ getMatIndex (prepareMaterials protoMaterials sandVariants) "SAND" = JNumber 1
  /\ (prepareMaterials protoMaterials sandVariants).*1
     = ["EMPTY"; "SAND"; "SAND_V0"; "SAND_V1"; "ERASER"; "WALL"]%string.
Proof.
  split; [| split; [reflexivity | split; [| reflexivity]]].
  - apply (prepareMaterials_keeps_indices defaultMaterials sandVariants "WATER" 2
             default_keys_distinct).
    reflexivity.
  - apply (prepareMaterials_keeps_indices protoMaterials sandVariants "SAND" 1
             proto_keys_distinct).
    reflexivity.
Defined.

Lemma prepareMaterials_table_witness :
  NoDup ((prepareMaterials defaultMaterials sandVariants).*1)
  /\ getMatIndex (prepareMaterials defaultMaterials sandVariants) "ERASER"
     = JNumber 7
  /\ getMatIndex (prepareMaterials defaultMaterials sandVariants) "WALL"
     = JNumber 8.
Proof.
  destruct (prepareMaterials_table defaultMaterials sandVariants
              default_keys_distinct) as (Hnd & _ & _).
  split; [exact Hnd | split; reflexivity].
Defined.

(** The corner (0,0) of a 3x3 world has the two neighbours (1,0) and
    (0,1). *)
Lemma neighborCoords_exact_witness :
  ((1, 0) ∈ neighborCoords emptyWorld3 0 0
   <-> (0 <= 1 < gridW emptyWorld3 /\ 0 <= 0 < gridH emptyWorld3
        /\ Z.abs (1 - 0) + Z.abs (0 - 0) = 1))
  /\ NoDup (neighborCoords emptyWorld3 0 0)
  /\ (length (neighborCoords emptyWorld3 0 0) <= 4)%nat.
Proof.
  apply (neighborCoords_exact emptyWorld3 0 0 1 0); simpl; lia.
Defined.

(** The bounds of the soft brush, 0.05 and 1, on a value above them. *)
Lemma clamp_bounds_witness :
  clamp NumNaN (NumOf (5 # 100)) (NumOf 1) = NumNaN
  /\ clamp (NumOf (3 # 1)) (NumOf (5 # 100)) (NumOf 1) = NumOf 1
  /\ num_le (NumOf (5 # 100)) (clamp NumNegInf (NumOf (5 # 100)) (NumOf 1)) = true.
Proof.
  destruct (clamp_bounds NumNegInf (NumOf (5 # 100)) (NumOf 1) eq_refl)
    as (Hnan & Hin & _ & _).
  split; [exact Hnan |]. split; [reflexivity |].
  apply Hin. discriminate.
Defined.

Lemma mark_never_clears_witness :
  chunkDirty (markChunkDirtyForCell 0 1 dirtyColumn) (0, 0)
  /\ sameCells dirtyColumn (markChunkDirtyForCell 0 1 dirtyColumn)
  /\ markChunkDirtyForCell 0 1 (markChunkDirtyForCell 0 1 dirtyColumn)
     = markChunkDirtyForCell 0 1 dirtyColumn.
Proof.
  destruct (mark_never_clears 0 1 dirtyColumn (0, 0)) as (Hkeep & Hcells & Honce).
  split; [apply Hkeep; reflexivity | split; [exact Hcells | exact Honce]].
Defined.

Lemma mark_outside_ignored_witness :
  markChunkDirtyForCell (-1) 0 sandColumn = sandColumn
  /\ markChunkDirtyForCell 16 0 sandColumn = sandColumn.
Proof.
  split.
  - apply (mark_outside_ignored (-1) 0 sandColumn). left. lia.
  - apply (mark_outside_ignored 16 0 sandColumn). right; right; left. unfold chunkSize. simpl. lia.
Defined.

Lemma setMatAt_touches_one_cell_witness :
  worldMat (setMatAt builtinMaterials 0 0 "STONE" sandColumn) !! 1%nat
  = worldMat sandColumn !! 1%nat
  /\ sameHeat sandColumn (setMatAt builtinMaterials 0 0 "STONE" sandColumn)
  /\ sameShape sandColumn (setMatAt builtinMaterials 0 0 "STONE" sandColumn).
Proof.
  apply (setMatAt_touches_one_cell builtinMaterials 0 0 "STONE" sandColumn 1).
  vm_compute. discriminate.
Defined.

Lemma tick_keeps_temperature_when_off_witness :
  worldTemp (simTick builtinMaterials noRandom (sandOverWater 7))
  = worldTemp (sandOverWater 7).
Proof.
  apply (tick_keeps_temperature_when_off builtinMaterials noRandom
           (sandOverWater 7)).
  reflexivity.
Defined.

Lemma heatColumn_quiet (i : Z) :
  quietCell builtinMaterials (matAt heatColumn i) = true.
Proof.
  unfold matAt, ta_get. destruct (i <? 0); [reflexivity |].
  destruct (Z.to_nat i) as [| [| n]]; reflexivity.
Qed.

(** STONE over WALL with temperature simulation on: the temperatures
    move, the materials do not. *)
Lemma tick_on_quiet_world_witness :
  worldMat (simTick builtinMaterials noRandom heatColumn) = worldMat heatColumn.
Proof.
  apply (tick_on_quiet_world builtinMaterials noRandom heatColumn heatColumn_quiet).
Defined.

Lemma sandColumn_valid : validWorld builtinMaterials sandColumn.
Proof.
  unfold validWorld, validIndex. simpl.
  repeat (apply Forall_cons; split; [lia |]). apply Forall_nil_2.
Qed.

Lemma tick_keeps_valid_indices_witness :
  validWorld builtinMaterials (simTick builtinMaterials noRandom sandColumn).
Proof.
  apply (tick_keeps_valid_indices builtinMaterials noRandom);
    [simpl; lia | simpl; lia | exact sandColumn_valid].
Defined.

Lemma paint_keeps_valid_indices_witness :
  validWorld builtinMaterials (setMatAt builtinMaterials 0 1 "NOPE" sandColumn)
  /\ validWorld builtinMaterials
       (drawBrushAt builtinMaterials noRandom (mkBrush 2 true) "FIRE" 0 1
          sandColumn).
Proof.
  assert (0 < length builtinMaterials)%nat as Hne by (simpl; lia).
  assert (Z.of_nat (length builtinMaterials) <= 2 ^ 31) as Hfit by (simpl; lia).
  destruct (paint_keeps_valid_indices builtinMaterials noRandom Hne Hfit
              0 1 "NOPE" (mkBrush 2 true) sandColumn sandColumn_valid)
    as [Hcell _].
  destruct (paint_keeps_valid_indices builtinMaterials noRandom Hne Hfit
              0 1 "FIRE" (mkBrush 2 true) sandColumn sandColumn_valid)
    as [_ Hbrush].
  split; [exact Hcell | exact Hbrush].
Defined.

Lemma save_load_round_trip_witness :
  fst (loadWorldPrompt builtinMaterials (saveWorldPrompt sandColumn) emptyWorld3)
  = Loaded
  /\ worldMat (snd (loadWorldPrompt builtinMaterials (saveWorldPrompt sandColumn)
                      emptyWorld3)) = [1; 0]
  /\ worldTemp (snd (loadWorldPrompt builtinMaterials (saveWorldPrompt sandColumn)
                       emptyWorld3)) = [Some 50%Q; Some 20%Q].
Proof.
  destruct (save_load_round_trip builtinMaterials sandColumn emptyWorld3)
    as (Hl & _ & _ & Hm & _ & Ht & _);
    try discriminate; try reflexivity; try (simpl; lia);
    try (repeat (apply Forall_cons; split; [reflexivity |]); apply Forall_nil_2).
  split; [exact Hl | split; [exact Hm |]].
  apply Ht. repeat (apply Forall_cons; split; [reflexivity |]). apply Forall_nil_2.
Defined.

(** A temperature that is [NaN] does not survive the save file: it comes
    back as 0. *)
Lemma save_loses_nan :
  worldTemp (snd (loadWorldPrompt builtinMaterials (saveWorldPrompt nanColumn)
                    emptyWorld3)) = [Some 0%Q; Some 20%Q]
  /\ worldTemp nanColumn = [None; Some 20%Q].
Proof. split; reflexivity. Qed.

(** A hard brush of radius 1 at the centre of the 3x3 world paints the
    centre and leaves the corner (0,0) alone. *)
Lemma hard_brush_footprint_witness :
  matAt (drawBrushAt builtinMaterials noRandom (mkBrush 1 false) "FIRE" 1 1
           emptyWorld3) (idx emptyWorld3 1 1) = JNumber 3
  /\ tempAt (drawBrushAt builtinMaterials noRandom (mkBrush 1 false) "FIRE" 1 1
               emptyWorld3) (idx emptyWorld3 1 1) = Some 800%Q
  /\ matAt (drawBrushAt builtinMaterials noRandom (mkBrush 1 false) "FIRE" 1 1
              emptyWorld3) (idx emptyWorld3 0 0) = JNumber 0.
Proof.
  destruct (hard_brush_footprint builtinMaterials noRandom (mkBrush 1 false)
              "FIRE" 1 1 1 1 emptyWorld3) as [Hm Ht];
    try reflexivity; try (simpl; lia).
  destruct (hard_brush_footprint builtinMaterials noRandom (mkBrush 1 false)
              "FIRE" 1 1 0 0 emptyWorld3) as [Hm0 _];
    try reflexivity; try (simpl; lia).
  split; [exact Hm | split; [exact Ht | exact Hm0]].
Defined.

Lemma degenerate_brush_paints_nothing_witness :
  sameCells emptyWorld3
    (drawBrushAt builtinMaterials noRandom (mkBrush 0 true) "FIRE" 1 1 emptyWorld3)
  /\ sameCells emptyWorld3
       (drawBrushAt builtinMaterials noRandom (mkBrush (-3) false) "FIRE" 1 1
          emptyWorld3).
Proof.
  split.
  - apply (degenerate_brush_paints_nothing builtinMaterials noRandom
             (mkBrush 0 true)). right. split; reflexivity.
  - apply (degenerate_brush_paints_nothing builtinMaterials noRandom
             (mkBrush (-3) false)). left. simpl. lia.
Defined.

Lemma reactions_need_low_sample_witness :
  worldMat (simTick oilMaterials highSamples (fireOverOil 7))
  = worldMat (pass1 oilMaterials (fireOverOil 7)).
Proof.
  apply (reactions_need_low_sample oilMaterials highSamples (fireOverOil 7)).
  intros k. reflexivity.
Defined.

